(** * tauri-json-storage: a shallow embedding of [src/utils.ts] and
      [src/storage.ts], and the properties of the storage engine.

    The library keeps one JSON file per key under a data directory.  Its
    code is asynchronous TypeScript over the Tauri [fs] and [path] APIs.
    Here every [async] function is a state-and-exception computation over
    a [World]: the files and directories on disk, the module-level
    variable [currentDataPath], and a log of the effects a caller can
    observe (read attempts and sleeps).  A rejected promise is a [Throw].

    Strings are sequences of bytes (the UTF-8 encoding of the JavaScript
    string), so that [encodeURIComponent] is a byte-wise map.  A string
    of JavaScript that holds a surrogate without its pair has no UTF-8
    encoding and is no string here: the keys and the documents of the
    statements are those made of characters.  Numbers are the doubles of
    JavaScript. *)

From Stdlib Require Import ZArith Ascii String.
From stdpp Require Import base option list strings pretty gmap fin_maps.
From Equations Require Import Equations.

Set Warnings "-register-all,-abstract-large-number".

Local Open Scope string_scope.

(** ** JavaScript values, errors and the async monad *)

Module Js.

(** The part of the JavaScript value universe on which the source takes
    a truthiness test: [undefined], booleans, strings, and promise
    objects.  [vpromise v] is a promise that fulfils with [v]. *)
Inductive Value : Type :=
| vundefined
| vbool (b : bool)
| vstring (s : string)
| vpromise (fulfils : Value).

(** ToBoolean: every object, a promise included, is truthy. *)
Definition truthy (v : Value) : bool :=
  match v with
  | vundefined => false
  | vbool b => b
  | vstring s => negb (String.eqb s "")
  | vpromise _ => true
  end.

(** What [await v] yields, and what an [async] function that returns
    [v] fulfils with: promises are flattened. *)
Fixpoint settle (v : Value) : Value :=
  match v with
  | vpromise x => settle x
  | _ => v
  end.

(** An optional string, as the value it is. *)
Definition of_string_opt (o : option string) : Value :=
  match o with
  | Some s => vstring s
  | None => vundefined
  end.

(** A thrown value: an [Error] with its message and, for the errors of
    the filesystem, the [code] property the source inspects. *)
Record Error : Type := mkError { message : string; code : option string }.

(** [new Error(msg)] *)
Definition new_Error (msg : string) : Error :=
  {| message := msg; code := None |}.

(** The error of a filesystem call that failed with the code [c]. *)
Definition fs_error (c : string) : Error :=
  {| message := "os error"; code := Some c |}.

(** [e.code === c] *)
Definition has_code (e : Error) (c : string) : bool :=
  match code e with
  | Some c' => String.eqb c' c
  | None => false
  end.

(** How a promise settles: fulfilled with a value, or rejected with
    what was thrown. *)
Inductive Outcome (A : Type) : Type :=
| Ok (a : A)
| Throw (e : Error).
Arguments Ok {A} a.
Arguments Throw {A} e.

End Js.
Export Js.

(** ** Byte strings *)

Module Str.

Definition chr (n : nat) : ascii := Ascii.ascii_of_nat n.

(** [c] occurs in [s]. *)
Fixpoint mem (c : ascii) (s : string) : bool :=
  match s with
  | EmptyString => false
  | String a r => if Ascii.eqb a c then true else mem c r
  end.

(** [s] ends with [suffix]. *)
Fixpoint ends_with (suffix s : string) : bool :=
  if String.eqb s suffix then true
  else match s with
       | EmptyString => false
       | String _ r => ends_with suffix r
       end.

(** [s] without one trailing [suffix]; [s] itself when it does not end
    with [suffix]. *)
Fixpoint drop_suffix (suffix s : string) : string :=
  if String.eqb s suffix then EmptyString
  else match s with
       | EmptyString => EmptyString
       | String a r => String a (drop_suffix suffix r)
       end.

(** The part of [s] after the last [c]; [s] itself without any [c]. *)
Fixpoint after_last (c : ascii) (s : string) : string :=
  match s with
  | EmptyString => EmptyString
  | String a r =>
      if mem c r then after_last c r
      else if Ascii.eqb a c then r else s
  end.

(** The part of [s] before the last [c]; [None] without any [c]. *)
Fixpoint before_last (c : ascii) (s : string) : option string :=
  match s with
  | EmptyString => None
  | String a r =>
      match before_last c r with
      | Some p => Some (String a p)
      | None => if Ascii.eqb a c then Some EmptyString else None
      end
  end.

(** [s] without the [c]s at its end. *)
Fixpoint strip_trailing (c : ascii) (s : string) : string :=
  match s with
  | EmptyString => EmptyString
  | String a r =>
      match strip_trailing c r with
      | EmptyString =>
          if Ascii.eqb a c then EmptyString else String a EmptyString
      | r' => String a r'
      end
  end.

(** The segments of [s] between its [c]s. *)
Fixpoint split (c : ascii) (s : string) : list string :=
  match s with
  | EmptyString => [EmptyString]
  | String a r =>
      if Ascii.eqb a c then EmptyString :: split c r
      else match split c r with
           | x :: xs => String a x :: xs
           | [] => [String a EmptyString]
           end
  end.

(** The strings of [l] with [sep] between them. *)
Fixpoint concat_with (sep : string) (l : list string) : string :=
  match l with
  | [] => EmptyString
  | [x] => x
  | x :: xs => x ++ sep ++ concat_with sep xs
  end.

Definition utf8 (bytes : list nat) : string :=
  string_of_list_ascii (map chr bytes).

(** [s.slice(0, n)] *)
Fixpoint take (n : nat) (s : string) : string :=
  match n, s with
  | S k, String c r => String c (take k r)
  | _, _ => EmptyString
  end.

(** [s.slice(n)] *)
Fixpoint drop (n : nat) (s : string) : string :=
  match n, s with
  | S k, String _ r => drop k r
  | _, _ => s
  end.

(** The white space and line terminators that [String.prototype.trim]
    removes, each in its UTF-8 encoding. *)
Definition white_space : list string :=
  [ utf8 [9]; utf8 [10]; utf8 [11]; utf8 [12]; utf8 [13]; utf8 [32];
    utf8 [194; 160]; utf8 [225; 154; 128];
    utf8 [226; 128; 128]; utf8 [226; 128; 129]; utf8 [226; 128; 130];
    utf8 [226; 128; 131]; utf8 [226; 128; 132]; utf8 [226; 128; 133];
    utf8 [226; 128; 134]; utf8 [226; 128; 135]; utf8 [226; 128; 136];
    utf8 [226; 128; 137]; utf8 [226; 128; 138];
    utf8 [226; 128; 168]; utf8 [226; 128; 169]; utf8 [226; 128; 175];
    utf8 [226; 129; 159]; utf8 [227; 128; 128]; utf8 [239; 187; 191] ].

(** [blank_from skip s]: after its first [skip] bytes, [s] is made of
    white space only. *)
Fixpoint blank_from (skip : nat) (s : string) : bool :=
  match s with
  | EmptyString => true
  | String _ r =>
      match skip with
      | S k => blank_from k r
      | O =>
          match List.find (fun p => String.prefix p s) white_space with
          | Some p => blank_from (String.length p - 1) r
          | None => false
          end
      end
  end.

(** [s.trim().length === 0] *)
Definition trims_to_empty (s : string) : bool := blank_from 0 s.

End Str.

(** ** The global functions of the JavaScript runtime the source calls *)

Module Global.

(** The characters [encodeURIComponent] leaves alone:
    [A-Z a-z 0-9 - _ . ! ~ * ' ( )]. *)
Definition unreserved (c : ascii) : bool :=
  let n := Ascii.nat_of_ascii c in
  (Nat.leb 65 n && Nat.leb n 90) || (Nat.leb 97 n && Nat.leb n 122)
  || (Nat.leb 48 n && Nat.leb n 57) || Str.mem c "-_.!~*'()".

Definition hex_digit (n : nat) : ascii :=
  if Nat.ltb n 10 then Str.chr (48 + n) else Str.chr (55 + n).

(** The escape of one byte: [%] and two upper-case hexadecimal digits. *)
Definition percent (c : ascii) : string :=
  let n := Ascii.nat_of_ascii c in
  String "%" (String (hex_digit (n / 16)) (String (hex_digit (n mod 16)) "")).

(** [encodeURIComponent(s)], on the UTF-8 bytes of [s]: every string of
    characters has an encoding.  The [URIError] of the function is for
    a surrogate without its pair, which no sequence of UTF-8 bytes
    stands for. *)
Fixpoint encodeURIComponent (s : string) : string :=
  match s with
  | EmptyString => EmptyString
  | String c r =>
      (if unreserved c then String c EmptyString else percent c)
        ++ encodeURIComponent r
  end.

(** [s.replace(/\*/g, '-')] *)
Fixpoint replace_star (s : string) : string :=
  match s with
  | EmptyString => EmptyString
  | String c r =>
      String (if Ascii.eqb c "*" then "-"%char else c) (replace_star r)
  end.

(** [s.replace(/%20/g, ' ')] *)
Fixpoint replace_pct20 (s : string) : string :=
  match s with
  | String "%" (String "2" (String "0" r)) => String " " (replace_pct20 r)
  | String c r => String c (replace_pct20 r)
  | EmptyString => EmptyString
  end.

End Global.


(** ** The world the library runs in *)

(** What a caller can observe of a read: [ev_read] is one call of
    [fs.readTextFile], [ev_sleep] one wait on [setTimeout]. *)
Inductive Event : Type :=
| ev_read (fileName : string)
| ev_sleep (ms : nat).

(** [files] and [dirs] are the regular files (with their text) and the
    directories on disk, by absolute path.  [faults] lists the error
    codes with which the coming calls of [fs.readTextFile] fail, one per
    call: another process holding the file, a permission problem.
    [currentDataPath] is the module variable of [utils.ts];
    [platformDataDir] is what [path.dataDir()] answers on this machine.
    [log] holds the latest event first. *)
Record World : Type := mkWorld {
  files : gmap string string;
  dirs : gset string;
  faults : list string;
  log : list Event;
  currentDataPath : option string;
  platformDataDir : string
}.

Definition set_files (f : gmap string string) (w : World) : World :=
  mkWorld f (dirs w) (faults w) (log w) (currentDataPath w) (platformDataDir w).
Definition set_dirs (d : gset string) (w : World) : World :=
  mkWorld (files w) d (faults w) (log w) (currentDataPath w) (platformDataDir w).
Definition set_faults (l : list string) (w : World) : World :=
  mkWorld (files w) (dirs w) l (log w) (currentDataPath w) (platformDataDir w).
Definition record (e : Event) (w : World) : World :=
  mkWorld (files w) (dirs w) (faults w) (e :: log w) (currentDataPath w)
    (platformDataDir w).
Definition set_currentDataPath (p : option string) (w : World) : World :=
  mkWorld (files w) (dirs w) (faults w) (log w) p (platformDataDir w).

(** An [async] function: it runs from a world, leaves a world, and its
    promise is fulfilled ([Ok]) or rejected ([Throw]). *)
Definition Async (A : Type) : Type := World → World * Outcome A.

#[export] Instance Async_ret : MRet Async := λ A a w, (w, Ok a).

#[export] Instance Async_bind : MBind Async := λ A B k m w,
  match m w with
  | (w', Ok a) => k a w'
  | (w', Throw e) => (w', Throw e)
  end.

Definition throw {A : Type} (e : Error) : Async A := λ w, (w, Throw e).

(** [try { body } catch (error) { handler }] *)
Definition try_catch {A : Type} (body : Async A) (handler : Error → Async A)
  : Async A := λ w,
  match body w with
  | (w', Ok a) => (w', Ok a)
  | (w', Throw e) => handler e w'
  end.

(** ** [@tauri-apps/api/path], on POSIX paths

    The path utilities are calls into the Tauri runtime, which is no
    part of the sources.  They are modelled as the spec names them (§6:
    join, dirname, basename-without-extension, extension, is-absolute,
    normalize), on paths whose separator is [/]. *)

Module path.

Definition sep : ascii := "/"%char.

(** Modelled from the spec: [isAbsolute(p)], the is-absolute utility. *)
Definition isAbsolute (p : string) : bool := String.prefix "/" p.

(** One pass over the segments of a path: empty segments and [.] go,
    [..] removes the segment before it.  The stack holds the segments
    kept so far, the last one first. *)
Fixpoint resolve (absolute : bool) (stack segs : list string) : list string :=
  match segs with
  | [] => stack
  | seg :: rest =>
      if String.eqb seg "" || String.eqb seg "." then
        resolve absolute stack rest
      else if String.eqb seg ".." then
        match stack with
        | top :: below =>
            if String.eqb top ".." then resolve absolute (seg :: stack) rest
            else resolve absolute below rest
        | [] =>
            if absolute then resolve absolute [] rest
            else resolve absolute [seg] rest
        end
      else resolve absolute (seg :: stack) rest
  end.

(** Modelled from the spec: [normalize(p)], the normalize utility: the
    path with its segments resolved. *)
Definition normalize (p : string) : string :=
  let body :=
    Str.concat_with "/" (rev (resolve (isAbsolute p) [] (Str.split sep p))) in
  if isAbsolute p then "/" ++ body
  else if String.eqb body "" then "." else body.

(** Modelled from the spec: [join(a, b)], the join utility: the two
    parts with a separator between, normalised; an empty part is left
    out. *)
Definition join (a b : string) : string :=
  if String.eqb a "" then normalize b
  else if String.eqb b "" then normalize a
  else normalize (a ++ "/" ++ b).

(** Modelled from the spec: [dirname(p)], the dirname utility: [p]
    without its last segment. *)
Definition dirname (p : string) : string :=
  match Str.strip_trailing sep p with
  | EmptyString => if String.eqb p "" then "." else "/"
  | q =>
      match Str.before_last sep q with
      | None => "."
      | Some d =>
          match Str.strip_trailing sep d with
          | EmptyString => "/"
          | d' => d'
          end
      end
  end.

(** Modelled from the spec: [basename(p, ext)], the
    basename-without-extension utility: the last segment of [p],
    trailing separators ignored, with one trailing [ext] stripped if
    present (§4.1). *)
Definition basename (p ext : string) : string :=
  Str.drop_suffix ext (Str.after_last sep (Str.strip_trailing sep p)).

(** Modelled from the spec: [extname(p)], the extension utility: from
    the last [.] of the last segment to its end, which is the form the
    source compares with [.json]; empty when there is no [.] or when
    the segment starts with it. *)
Definition extname (p : string) : string :=
  let name := Str.after_last sep (Str.strip_trailing sep p) in
  match Str.before_last "." name with
  | None | Some EmptyString => ""
  | Some _ => "." ++ Str.after_last "." name
  end.

(** Modelled from the spec: [dataDir()], the platform application-data
    root (§4.2). *)
Definition dataDir : Async string := λ w, (w, Ok (platformDataDir w)).

End path.

(** ** [@tauri-apps/api/fs], as an in-memory POSIX filesystem

    The filesystem calls are calls into the Tauri runtime too.  The
    spec (§6) asks of them a filesystem with read-text, write-text,
    create-directory-recursive, remove-file, remove-directory and
    list-directory-entries, whose errors carry POSIX codes; the source
    reads the code of an error as [error.code]. *)

Module fs.

(** A directory with its ancestors, nearest first; [fuel] bounds their
    number, and the length of the path is enough of it. *)
Fixpoint lineage (fuel : nat) (d : string) : list string :=
  match fuel with
  | O => [d]
  | S n =>
      let up := path.dirname d in
      if String.eqb up d then [d] else d :: lineage n up
  end.

(** All that exists on disk, in the order of enumeration. *)
Definition paths (w : World) : list string :=
  elements (dom (files w) ∪ dirs w).

(** The files and directories directly in [d]. *)
Definition children (d : string) (w : World) : list string :=
  List.filter (λ p, String.eqb (path.dirname p) d && negb (String.eqb p d))
    (paths w).

(** Modelled from the spec: [readTextFile(p)], the read-text call.  A
    pending fault makes the call fail with its code; otherwise the call
    answers the text of the file, and fails with [ENOENT] where nothing
    exists and with [EISDIR] on a directory. *)
Definition readTextFile (p : string) : Async string := λ w,
  let w := record (ev_read p) w in
  match faults w with
  | c :: rest => (set_faults rest w, Throw (fs_error c))
  | [] =>
      match files w !! p with
      | Some text => (w, Ok text)
      | None =>
          if bool_decide (p ∈ dirs w) then (w, Throw (fs_error "EISDIR"))
          else (w, Throw (fs_error "ENOENT"))
      end
  end.

(** Modelled from the spec: [createDir(d, { recursive: true })], the
    create-directory-recursive call: [d] and its missing ancestors are
    created; it is no error that they exist, and [ENOTDIR] that one of
    them is a regular file. *)
Definition createDir (d : string) : Async unit := λ w,
  let line := lineage (String.length d) d in
  if existsb (λ p, bool_decide (p ∈ dom (files w))) line
  then (w, Throw (fs_error "ENOTDIR"))
  else (set_dirs (dirs w ∪ list_to_set line) w, Ok tt).

(** Modelled from the spec: [writeFile({ contents, path })], the
    write-text call: the file is created or replaced in full; its
    directory must exist. *)
Definition writeFile (contents p : string) : Async unit := λ w,
  if bool_decide (p ∈ dirs w) then (w, Throw (fs_error "EISDIR"))
  else if bool_decide (path.dirname p ∈ dirs w)
       then (set_files (<[p := contents]> (files w)) w, Ok tt)
       else (w, Throw (fs_error "ENOENT")).

(** Modelled from the spec: [removeFile(p)], the remove-file call: it
    unlinks a regular file, and fails with [ENOENT] where nothing
    exists. *)
Definition removeFile (p : string) : Async unit := λ w,
  match files w !! p with
  | Some _ => (set_files (delete p (files w)) w, Ok tt)
  | None =>
      if bool_decide (p ∈ dirs w) then (w, Throw (fs_error "EISDIR"))
      else (w, Throw (fs_error "ENOENT"))
  end.

(** Modelled from the spec: [removeDir(p)], the remove-directory call,
    as the source calls it, without the [recursive] option: it removes
    the empty directory at exactly the path [p], which is a path and no
    pattern, and fails with [ENOENT] where nothing exists. *)
Definition removeDir (p : string) : Async unit := λ w,
  if bool_decide (p ∈ dirs w) then
    match children p w with
    | [] => (set_dirs (dirs w ∖ {[p]}) w, Ok tt)
    | _ :: _ => (w, Throw (fs_error "ENOTEMPTY"))
    end
  else if bool_decide (p ∈ dom (files w))
       then (w, Throw (fs_error "ENOTDIR"))
       else (w, Throw (fs_error "ENOENT")).

Record FileEntry : Type := mkFileEntry { entry_path : string; name : string }.

(** Modelled from the spec: [readDir(d)], the list-directory-entries
    call: one entry per file or directory directly in [d], in the order
    of enumeration. *)
Definition readDir (d : string) : Async (list FileEntry) := λ w,
  if bool_decide (d ∈ dirs w) then
    (w, Ok (map (λ p, mkFileEntry p (Str.after_last path.sep p)) (children d w)))
  else if bool_decide (d ∈ dom (files w))
       then (w, Throw (fs_error "ENOTDIR"))
       else (w, Throw (fs_error "ENOENT")).

End fs.


(** ** The Number type of JavaScript

    A Number is a double of IEEE 754: not-a-number, an infinity, or a
    finite double.  [finite negative m e] is the double of sign
    [negative] and of absolute value [m * 2 ^ e]; of the pairs [(m, e)]
    of one value the doubles are those with the largest [m] below
    [2 ^ 53] that [e >= -1074] allows, which [double] tests.  The
    texts of numbers are those of [Number::toString] and of the number
    literals of JSON. *)

Module Number.

Local Open Scope Z_scope.

Inductive Number : Type :=
| NaN
| Infinity (negative : bool)
| finite (negative : bool) (m e : Z).

(** [m * 2 ^ e] with 53 bits of mantissa, or fewer at the smallest
    exponent only. *)
Definition double (m e : Z) : bool :=
  (0 <=? m) && (m <? 2 ^ 53) && (-1074 <=? e) && (e <=? 971)
  && ((2 ^ 52 <=? m) || (e =? -1074)).

(** [Number::equal], the comparison of [===]: not-a-number equals
    nothing, and the two zeros are equal. *)
Definition equal (x y : Number) : bool :=
  match x, y with
  | NaN, _ | _, NaN => false
  | Infinity a, Infinity b => Bool.eqb a b
  | finite a m e, finite b m' e' =>
      (m =? m') && (e =? e') && ((m =? 0) || Bool.eqb a b)
  | _, _ => false
  end.

(** The double nearest to the fraction [num / den], of a numerator that
    is not negative and a denominator that is positive: the mantissa
    and the exponent, ties going to the even mantissa; [None] where the
    nearest is beyond the largest double, which rounds to an
    infinity. *)
Definition nearest (num den : Z) : option (Z * Z) :=
  let a := num * 2 ^ 1074 in
  let e := Z.max (Z.log2 (a / den) - 52) 0 in
  let d := den * 2 ^ e in
  let q := a / d in
  let r := a mod d in
  let m :=
    if 2 * r <? d then q
    else if d <? 2 * r then q + 1
    else if Z.even q then q else q + 1 in
  let '(m, e) := if m =? 2 ^ 53 then (2 ^ 52, e + 1) else (m, e) in
  if 2045 <? e then None else Some (m, e - 1074).

(** The decimal [c * 10 ^ q] as a fraction. *)
Definition decimal (c q : Z) : Z * Z :=
  if 0 <=? q then (c * 10 ^ q, 1) else (c, 10 ^ (- q)).

(** The Number value of the decimal [c * 10 ^ q] with the sign
    [negative]. *)
Definition of_decimal (negative : bool) (c q : Z) : Number :=
  let '(num, den) := decimal c q in
  match nearest num den with
  | Some (m, e) => finite negative m e
  | None => Infinity negative
  end.

(** The Number value of an integer. *)
Definition of_Z (z : Z) : Number := of_decimal (z <? 0) (Z.abs z) 0.

(** The decimal [c * 10 ^ q] without the zeros at the end of [c]. *)
Fixpoint strip_zeros (fuel : nat) (c q : Z) : Z * Z :=
  match fuel with
  | O => (c, q)
  | S fuel =>
      if (c mod 10 =? 0) && negb (c =? 0) then strip_zeros fuel (c / 10) (q + 1)
      else (c, q)
  end.

(** The Number value of the decimal [cq] is the double [m * 2 ^ e]. *)
Definition reads_as (m e : Z) (cq : Z * Z) : bool :=
  let '(num, den) := decimal (fst cq) (snd cq) in
  match nearest num den with
  | Some (m', e') => (m' =? m) && (e' =? e)
  | None => false
  end.

(** The digits of [Number::toString] for the double [m * 2 ^ e], which
    is [S / 10 ^ p]: the decimal with the fewest digits whose Number
    value is the double and, of two of these, the nearer to the double.
    The decimals with all but the last [j] digits of [S] are tried,
    cut below and above, for [j] going down; at [j = 0] the decimal is
    the double itself. *)
Fixpoint shortest (j : nat) (m e S p : Z) : Z * Z :=
  let t := 10 ^ Z.of_nat j in
  let lo := S / t in
  let q := Z.of_nat j - p in
  let below := strip_zeros (Z.to_nat (Z.log2 lo)) lo q in
  let above := strip_zeros (Z.to_nat (Z.log2 (lo + 1))) (lo + 1) q in
  match reads_as m e below, reads_as m e above with
  | true, true =>
      if 2 * S <? (2 * lo + 1) * t then below
      else if (2 * lo + 1) * t <? 2 * S then above
      else if Z.even lo then below else above
  | true, false => below
  | false, true => above
  | false, false =>
      match j with
      | O => below
      | S j => shortest j m e S p
      end
  end.

Definition zeros (n : nat) : string :=
  string_of_list_ascii (replicate n "0"%char).

(** The decimal digits of an integer that is not negative. *)
Definition digits (s : Z) : string := pretty (Z.to_N s).

(** [Number::toString], from the digits [ds] of the decimal and the
    place [n] of its decimal point: digits and zeros up to [10 ^ 21],
    the point inside the digits, the point after [0] and up to five
    zeros, and the exponent notation for the rest. *)
Definition format (ds : string) (n : Z) : string :=
  let k := Z.of_nat (String.length ds) in
  if (k <=? n) && (n <=? 21) then ds ++ zeros (Z.to_nat (n - k))
  else if (0 <? n) && (n <=? 21) then
    Str.take (Z.to_nat n) ds ++ "." ++ Str.drop (Z.to_nat n) ds
  else if (-6 <? n) && (n <=? 0) then
    "0." ++ zeros (Z.to_nat (- n)) ++ ds
  else
    let exponent :=
      (if 0 <=? n - 1 then "+" else "-") ++ digits (Z.abs (n - 1)) in
    match ds with
    | String d EmptyString => String d ("e" ++ exponent)
    | String d r => String d ("." ++ r ++ "e" ++ exponent)
    | EmptyString => EmptyString
    end.

Definition shortest_decimal (m e : Z) : Z * Z :=
  let p := Z.max (- e) 0 in
  let S := m * 5 ^ p * 2 ^ Z.max e 0 in
  shortest (String.length (digits S) - 1) m e S p.

(** [Number::toString(x)] in base ten. *)
Definition to_string (x : Number) : string :=
  match x with
  | NaN => "NaN"
  | Infinity negative => if negative then "-Infinity" else "Infinity"
  | finite negative m e =>
      if m =? 0 then "0"
      else
        let '(s, q) := shortest_decimal m e in
        (if negative then "-" else "")
        ++ format (digits s) (Z.of_nat (String.length (digits s)) + q)
  end.

(** The value of a decimal digit. *)
Definition digit (c : ascii) : option N :=
  let n := Ascii.nat_of_ascii c in
  if Nat.leb 48 n && Nat.leb n 57 then Some (N.of_nat (n - 48)) else None.

Definition is_digit (c : ascii) : bool := bool_decide (is_Some (digit c)).

(** The digits at the start of [s], and the text after them. *)
Fixpoint digits_prefix (s : string) : string * string :=
  match s with
  | String c r =>
      if is_digit c then
        let '(ds, rest) := digits_prefix r in (String c ds, rest)
      else (EmptyString, s)
  | EmptyString => (EmptyString, EmptyString)
  end.

(** The integer that the digits [ds] continue from [acc]. *)
Fixpoint decimal_value (acc : Z) (ds : string) : Z :=
  match ds with
  | String c r => decimal_value (10 * acc + Z.of_N (default 0%N (digit c))) r
  | EmptyString => acc
  end.

(** The fraction of a number literal: a point and one digit or more,
    or nothing. *)
Definition parse_fraction (s : string) : option (string * string) :=
  match s with
  | String c r =>
      if Ascii.eqb c "." then
        let '(ds, rest) := digits_prefix r in
        if String.eqb ds "" then None else Some (ds, rest)
      else Some (EmptyString, s)
  | EmptyString => Some (EmptyString, s)
  end.

(** The exponent of a number literal: [e] or [E], a sign or none, and
    one digit or more; or nothing. *)
Definition parse_exponent (s : string) : option (Z * string) :=
  match s with
  | String c r =>
      if Ascii.eqb c "e" || Ascii.eqb c "E" then
        let '(sign, r) :=
          match r with
          | String x t =>
              if Ascii.eqb x "+" then (1, t)
              else if Ascii.eqb x "-" then (-1, t)
              else (1, r)
          | EmptyString => (1, r)
          end in
        let '(ds, rest) := digits_prefix r in
        if String.eqb ds "" then None
        else Some (sign * decimal_value 0 ds, rest)
      else Some (0, s)
  | EmptyString => Some (0, s)
  end.

(** The number literal of JSON at the start of [s], after its sign: an
    integer without a leading zero, a fraction and an exponent; its
    Number value and the text after it. *)
Definition parse_number (negative : bool) (s : string)
  : option (Number * string) :=
  let '(int, r1) := digits_prefix s in
  match int with
  | EmptyString => None
  | String c more =>
      if Ascii.eqb c "0" && negb (String.eqb more "") then None
      else
        '(frac, r2) ← parse_fraction r1;
        '(exp, r3) ← parse_exponent r2;
        Some (of_decimal negative (decimal_value 0 (int ++ frac))
                (exp - Z.of_nat (String.length frac)),
              r3)
  end.

End Number.


(** ** [JSON]

    [JSON.stringify] and [JSON.parse] belong to the JavaScript runtime.
    They are modelled on the values below: a number is a Number of
    JavaScript, and a string is its UTF-8 bytes, so that the escapes
    [\u] of a pair of surrogates read as one character and the escape
    of a surrogate without its pair has no reading here. *)

Module JSON.

(** A value handed to [JSON.stringify] or produced by [JSON.parse];
    [jundefined] is JavaScript's [undefined], which no JSON text
    denotes.  An object lists its members in property order, which for
    an object of JavaScript is the order of [ahead] below: the keys that
    are array indices first. *)
Inductive Json : Type :=
| jundefined
| jnull
| jbool (b : bool)
| jnumber (x : Number.Number)
| jstring (s : string)
| jarray (items : list Json)
| jobject (members : list (string * Json)).

Definition empty_object : Json := jobject [].

Definition nl : string := String (Str.chr 10) "".
Definition dq : ascii := Str.chr 34.

Definition lower_hex (n : nat) : ascii :=
  if Nat.ltb n 10 then Str.chr (48 + n) else Str.chr (87 + n).

(** QuoteJSONString, one character: the quote, the backslash and the
    control characters are escaped. *)
Definition quote_char (c : ascii) : string :=
  let n := Ascii.nat_of_ascii c in
  if Nat.eqb n 34 then String "\" (String dq "") else
  if Nat.eqb n 92 then "\\" else
  if Nat.eqb n 8 then "\b" else
  if Nat.eqb n 12 then "\f" else
  if Nat.eqb n 10 then "\n" else
  if Nat.eqb n 13 then "\r" else
  if Nat.eqb n 9 then "\t" else
  if Nat.ltb n 32
  then "\u00" ++ String (lower_hex (n / 16)) (String (lower_hex (n mod 16)) "")
  else String c "".

Fixpoint quote_body (s : string) : string :=
  match s with
  | EmptyString => EmptyString
  | String c r => quote_char c ++ quote_body r
  end.

Definition quote (s : string) : string :=
  String dq (quote_body s) ++ String dq "".

(** The text of an array or object from the texts of its parts: on one
    line without a gap, and with one part per line, indented, with one. *)
Definition wrap (gap indent opening closing : string) (parts : list string)
  : string :=
  match parts with
  | [] => opening ++ closing
  | _ =>
      if String.eqb gap "" then
        opening ++ Str.concat_with "," parts ++ closing
      else
        opening ++ nl ++ (indent ++ gap)
          ++ Str.concat_with ("," ++ nl ++ (indent ++ gap)) parts
          ++ nl ++ indent ++ closing
  end.

(** SerializeJSONProperty with the gap [gap] at the indentation
    [indent]: [None] is [undefined].  A number that is not finite is
    written [null], and so is an [undefined] item of an array; a member
    of an object whose value is [undefined] is left out. *)
Fixpoint serialize (gap indent : string) (v : Json) : option string :=
  match v with
  | jundefined => None
  | jnull => Some "null"
  | jbool true => Some "true"
  | jbool false => Some "false"
  | jnumber x =>
      Some (match x with
            | Number.finite _ _ _ => Number.to_string x
            | _ => "null"
            end)
  | jstring s => Some (quote s)
  | jarray items =>
      Some (wrap gap indent "[" "]"
        (List.map
           (λ x, default "null" (serialize gap (indent ++ gap) x))
           items))
  | jobject members =>
      Some (wrap gap indent "{" "}"
        (List.flat_map
           (λ '(k, x),
              match serialize gap (indent ++ gap) x with
              | Some text =>
                  [quote k ++ (if String.eqb gap "" then ":" else ": ") ++ text]
              | None => []
              end)
           members))
  end.

(** [JSON.stringify(value, null, space)] for a numeric [space]. *)
Definition stringify (value : Json) (space : nat) : option string :=
  serialize (string_of_list_ascii (replicate (Nat.min space 10) " "%char))
    "" value.

(** [s] without the JSON white space at its start. *)
Fixpoint skip_ws (s : string) : string :=
  match s with
  | String c r =>
      let n := Ascii.nat_of_ascii c in
      if Nat.eqb n 32 || Nat.eqb n 9 || Nat.eqb n 10 || Nat.eqb n 13
      then skip_ws r else s
  | EmptyString => EmptyString
  end.

Definition hex_value (c : ascii) : option nat :=
  let n := Ascii.nat_of_ascii c in
  if Nat.leb 48 n && Nat.leb n 57 then Some (n - 48)
  else if Nat.leb 65 n && Nat.leb n 70 then Some (n - 55)
  else if Nat.leb 97 n && Nat.leb n 102 then Some (n - 87)
  else None.

(** The UTF-8 bytes of a code point of the basic plane; a surrogate
    has none. *)
Definition utf8_of_code (n : nat) : option string :=
  if Nat.ltb n 128 then Some (Str.utf8 [n])
  else if Nat.ltb n 2048 then Some (Str.utf8 [192 + n / 64; 128 + n mod 64])
  else if Nat.leb (216 * 256) n && Nat.ltb n (224 * 256) then None
  else Some (Str.utf8 [224 + n / 4096; 128 + (n / 64) mod 64; 128 + n mod 64]).

(** The UTF-8 bytes of the code point of a pair of surrogates. *)
Definition utf8_of_pair (high low : nat) : string :=
  let n := 64 * 1024 + (high mod 1024) * 1024 + low mod 1024 in
  Str.utf8 [240 + n / (64 * 4096); 128 + (n / 4096) mod 64;
            128 + (n / 64) mod 64; 128 + n mod 64].

(** The code unit of four hexadecimal digits. *)
Definition hex4 (a b c d : ascii) : option nat :=
  ha ← hex_value a; hb ← hex_value b; hc ← hex_value c; hd ← hex_value d;
  Some (((ha * 16 + hb) * 16 + hc) * 16 + hd).

(** The characters of a string literal after its opening quote, and
    the text after its closing quote. *)
Fixpoint parse_chars (s : string) : option (string * string) :=
  let continue (decoded : string) (r : option (string * string)) :=
    '(body, rest) ← r; Some (decoded ++ body, rest) in
  match s with
  | EmptyString => None
  | String "\" (String "u" (String a (String b (String c (String d r))))) =>
      n ← hex4 a b c d;
      if Nat.eqb (n / 1024) 54 then
        match r with
        | String "\" (String "u"
            (String a' (String b' (String c' (String d' r'))))) =>
            low ← hex4 a' b' c' d';
            if Nat.eqb (low / 1024) 55
            then continue (utf8_of_pair n low) (parse_chars r')
            else None
        | _ => None
        end
      else
        decoded ← utf8_of_code n;
        continue decoded (parse_chars r)
  | String "\" (String e r) =>
      decoded ← (if Ascii.eqb e dq then Some (String e "")
                 else if Ascii.eqb e "\" then Some "\"
                 else if Ascii.eqb e "/" then Some "/"
                 else if Ascii.eqb e "b" then Some (Str.utf8 [8])
                 else if Ascii.eqb e "f" then Some (Str.utf8 [12])
                 else if Ascii.eqb e "n" then Some (Str.utf8 [10])
                 else if Ascii.eqb e "r" then Some (Str.utf8 [13])
                 else if Ascii.eqb e "t" then Some (Str.utf8 [9])
                 else None);
      continue decoded (parse_chars r)
  | String c r =>
      if Ascii.eqb c dq then Some (EmptyString, r)
      else if Nat.ltb (Ascii.nat_of_ascii c) 32 then None
      else continue (String c "") (parse_chars r)
  end.

(** The array index that a property key is: the decimal, without a
    leading zero, of an integer below [2 ^ 32 - 1]. *)
Definition array_index (key : string) : option Z :=
  match Number.digits_prefix key with
  | (String c more, EmptyString) =>
      if Ascii.eqb c "0" && negb (String.eqb more "") then None
      else
        let i := Number.decimal_value 0 key in
        if (i <? 2 ^ 32 - 1)%Z then Some i else None
  | _ => None
  end.

(** The order of the own properties of an object: the array indices
    come first, in ascending order, and the other keys after them, in
    the order of their creation.  [ahead key k]: a new property [key]
    takes its place before the property [k]. *)
Definition ahead (key k : string) : bool :=
  match array_index key, array_index k with
  | Some i, Some j => (i <? j)%Z
  | Some _, None => true
  | None, _ => false
  end.

Fixpoint replace (key : string) (v : Json) (ps : list (string * Json))
  : list (string * Json) :=
  match ps with
  | [] => []
  | (k, x) :: r =>
      if String.eqb k key then (k, v) :: r else (k, x) :: replace key v r
  end.

Fixpoint insert (key : string) (v : Json) (ps : list (string * Json))
  : list (string * Json) :=
  match ps with
  | [] => [(key, v)]
  | (k, x) :: r =>
      if ahead key k then (key, v) :: ps else (k, x) :: insert key v r
  end.

(** Setting the property [key] of an object to [v]: a property that
    exists keeps its place and takes the value, a new one takes its
    place in the order of the properties. *)
Definition put (key : string) (v : Json) (ps : list (string * Json))
  : list (string * Json) :=
  if existsb (λ p, String.eqb (fst p) key) ps then replace key v ps
  else insert key v ps.

(** The object a parser builds from the members of a text, one
    property at a time. *)
Definition object_of (members : list (string * Json)) : Json :=
  jobject (fold_left (λ ps '(k, x), put k x ps) members []).

(** The value at the start of [s], and the text after it; [fuel]
    bounds the depth of the calls, and the length of the text is enough
    of it. *)
Fixpoint parse_value (fuel : nat) (s : string) : option (Json * string) :=
  match fuel with
  | O => None
  | S fuel =>
      match skip_ws s with
      | String "n" (String "u" (String "l" (String "l" r))) => Some (jnull, r)
      | String "t" (String "r" (String "u" (String "e" r))) =>
          Some (jbool true, r)
      | String "f" (String "a" (String "l" (String "s" (String "e" r)))) =>
          Some (jbool false, r)
      | String "[" r =>
          match skip_ws r with
          | String "]" rest => Some (jarray [], rest)
          | r' => '(items, rest) ← parse_items fuel r'; Some (jarray items, rest)
          end
      | String "{" r =>
          match skip_ws r with
          | String "}" rest => Some (jobject [], rest)
          | r' =>
              '(members, rest) ← parse_members fuel r';
              Some (object_of members, rest)
          end
      | String "-" r =>
          '(x, rest) ← Number.parse_number true r; Some (jnumber x, rest)
      | String c r =>
          if Ascii.eqb c dq
          then '(text, rest) ← parse_chars r; Some (jstring text, rest)
          else
            '(x, rest) ← Number.parse_number false (String c r);
            Some (jnumber x, rest)
      | EmptyString => None
      end
  end
with parse_items (fuel : nat) (s : string) : option (list Json * string) :=
  match fuel with
  | O => None
  | S fuel =>
      '(item, r) ← parse_value fuel s;
      match skip_ws r with
      | String "," r' =>
          '(items, rest) ← parse_items fuel r'; Some (item :: items, rest)
      | String "]" rest => Some ([item], rest)
      | _ => None
      end
  end
with parse_members (fuel : nat) (s : string)
  : option (list (string * Json) * string) :=
  match fuel with
  | O => None
  | S fuel =>
      match skip_ws s with
      | String c r =>
          if Ascii.eqb c dq then
            '(k, r1) ← parse_chars r;
            match skip_ws r1 with
            | String ":" r2 =>
                '(item, r3) ← parse_value fuel r2;
                match skip_ws r3 with
                | String "," r' =>
                    '(members, rest) ← parse_members fuel r';
                    Some ((k, item) :: members, rest)
                | String "}" rest => Some ([(k, item)], rest)
                | _ => None
                end
            | _ => None
            end
          else None
      | EmptyString => None
      end
  end.

Definition SyntaxError : Error :=
  {| message := "SyntaxError: not JSON"; code := None |}.

(** [JSON.parse(text)]: the value of the text, a [SyntaxError] when
    the text is no JSON document. *)
Definition parse (text : string) : Outcome Json :=
  match parse_value (S (String.length text)) text with
  | Some (v, rest) =>
      if String.eqb (skip_ws rest) "" then Ok v else Throw SyntaxError
  | None => Throw SyntaxError
  end.

End JSON.
Export JSON.


(** ** Expressions of the source *)

(** The value or the exception of a synchronous call. *)
Definition of_outcome {A : Type} (o : Outcome A) : Async A := λ w, (w, o).

(** [a || b]: [b] is evaluated only when [a] is falsy. *)
Definition js_or (a : Value) (b : Async Value) : Async Value :=
  if truthy a then mret a else b.

(** A Tauri command rejects a call whose path argument is no string. *)
Definition path_arg (v : Value) : Async string :=
  match v with
  | vstring s => mret s
  | _ => throw (new_Error "invalid args `path`")
  end.

(** ** [src/types.ts] *)

Record StorageOptions : Type := mkStorageOptions { dataPath : option string }.

Record WriteOptions : Type := mkWriteOptions {
  storage : StorageOptions;
  validate : option bool;
  prettyPrinting : option bool
}.

(** ** [src/utils.ts] *)

Module utils.

Definition getDefaultDataPath : Async string :=
  dir ← path.dataDir;
  mret (path.join dir "storage").

(** [directory] is [None] for a nil argument. *)
Definition setDataPath (directory : option string) : Async unit :=
  match directory with
  | None => λ w, (set_currentDataPath None w, Ok tt)
  | Some directory =>
      if negb (path.isAbsolute directory) then
        throw (new_Error "The user data path should be an absolute path")
      else
        λ w, (set_currentDataPath (Some (path.normalize directory)) w, Ok tt)
  end.

(** [return (new Promise((resolve) => resolve(currentDataPath)))
      || await (getDefaultDataPath());]
    The left operand of [||] is the promise object, not the path it
    fulfils with; the function's own promise then settles as that
    promise does. *)
Definition getDataPath : Async Value := λ w,
  (v ← js_or (vpromise (of_string_opt (currentDataPath w)))
             (d ← getDefaultDataPath; mret (vstring d));
   mret (settle v)) w.

(** [path.basename(key, '.json') + '.json'] *)
Definition keyFileName (key : string) : string :=
  path.basename key ".json" ++ ".json".

(** [encodeURIComponent(keyFileName).replace(/\*/g, '-').replace(/%20/g, ' ')] *)
Definition escapedFileName (key : string) : string :=
  Global.replace_pct20
    (Global.replace_star (Global.encodeURIComponent (keyFileName key))).

Definition getFileName (key : string) (options : StorageOptions)
  : Async string :=
  if negb (truthy (vstring key)) then throw (new_Error "Missing key")
  else if Str.trims_to_empty key then throw (new_Error "Invalid key")
  else
    dataPath ← js_or (of_string_opt (dataPath options)) getDataPath;
    if negb (truthy dataPath) then
      throw (new_Error "You must explicitly set a data path")
    else
      dir ← path_arg dataPath;
      mret (path.join dir (escapedFileName key)).

Definition getLockFileName (fileName : string) : string :=
  fileName ++ ".lock".

End utils.

(** ** The objects of a reduction

    [getMany] folds an [async] callback over the keys.  The accumulator
    the callback receives is an object on the heap: the object literal
    the reduction starts from, or the promise the previous call
    returned.  An object has its own properties; a promise has, besides,
    the state it settles in. *)

Module Heap.

Inductive Settled : Type :=
| fulfilled (value : nat)        (* with the object at this address *)
| rejected (reason : Error).

Record Object : Type := mkObject {
  props : list (string * Json);
  promise : option Settled
}.

Definition Heap : Type := list Object.

Definition alloc (o : Object) (h : Heap) : Heap * nat :=
  ((h ++ [o])%list, List.length h).

Definition own (key : string) (o : Object) : bool :=
  existsb (λ kv, String.eqb (fst kv) key) (props o).

(** [target[key] = v]: an own property, except that [__proto__] names
    the prototype and makes none. *)
Definition assign (target : nat) (key : string) (v : Json) (h : Heap) : Heap :=
  if String.eqb key "__proto__" then h
  else alter (λ o, mkObject (put key v (props o)) (promise o)) target h.

(** How a promise resolved with the object at [x] settles: as [x]
    does when [x] is a promise whose [then] is still the inherited
    method, and fulfilled with [x] itself otherwise. *)
Definition resolution (h : Heap) (x : nat) : Settled :=
  match h !! x with
  | Some o =>
      match promise o with
      | Some s => if own "then" o then fulfilled x else s
      | None => fulfilled x
      end
  | None => fulfilled x
  end.

Definition read (h : Heap) (x : nat) : Json :=
  match h !! x with
  | Some o => jobject (props o)
  | None => jundefined
  end.

End Heap.

(** ** The accumulators of [getAll]

    [getAll] folds an [async] callback over the names that [keys]
    found.  The callback has no [return]: the promise of a call fulfils
    with [undefined] once [get] has answered, or is rejected with what
    [get] threw.  The accumulator of a call is the object literal the
    reduction starts from, or the promise of the call before it. *)

Module Accumulator.

Inductive Kind : Type :=
| literal
| promise (settles : Outcome unit).

Record Object : Type := mkObject {
  props : list (string * Json);
  kind : Kind
}.

Definition own (key : string) (o : Object) : bool :=
  existsb (λ kv, String.eqb (fst kv) key) (props o).

(** [target[key] = v]: an own property, except that [__proto__] names
    the prototype and makes none. *)
Definition assign (target : nat) (key : string) (v : Json) (h : list Object)
  : list Object :=
  if String.eqb key "__proto__" then h
  else alter (λ o, mkObject (put key v (props o)) (kind o)) target h.

(** What an [async] function that returns the object at [x] fulfils
    with: a promise whose [then] is still the inherited method is
    followed, any other object is the value itself. *)
Definition result (h : list Object) (x : nat) : Outcome Json :=
  match h !! x with
  | Some o =>
      match kind o with
      | promise settles =>
          if own "then" o then Ok (jobject (props o))
          else match settles with
               | Ok _ => Ok jundefined
               | Throw e => Throw e
               end
      | literal => Ok (jobject (props o))
      end
  | None => Ok jundefined
  end.

End Accumulator.

(** ** [src/storage.ts] *)

Module storage.
Import utils.

Definition sleep (time : nat) : Async unit := λ w,
  (record (ev_sleep time) w, Ok tt).

(** [readFile(fileName, times = 0)] *)
Equations readFile (fileName : string) (times : nat) (w : World)
  : World * Outcome string by wf (10 - times) lt :=
readFile fileName times w with fs.readTextFile fileName w := {
  | (w1, Ok text) => (w1, Ok text)
  | (w1, Throw error) with has_code error "ENOENT" := {
      | true => (w1, Ok (default "" (stringify empty_object 0)))
      | false with has_code error "EPERM", lt_dec times 10 := {
          | true, left _ =>
              readFile fileName (times + 1) (fst (sleep 1000 w1))
          | _, _ => (w1, Throw error) } } }.
Next Obligation. lia. Qed.

Definition get (key : string) (options : StorageOptions) : Async Json :=
  fileName ← getFileName key {| dataPath := dataPath options |};
  _ ← fs.createDir (path.dirname fileName);
  parsed ← (text ← readFile fileName 0; of_outcome (JSON.parse text));
  mret parsed.

(** One call of the callback of [getMany]:
    [async function(prev, key) { prev[key] = await get(key, options); return prev }].
    The call returns a new promise.  When [get] succeeds the value is
    stored as a property of [prev] and the promise is resolved with
    [prev]; when [get] fails the promise is rejected. *)
Definition getMany_callback (options : StorageOptions)
  (st : World * Heap.Heap * nat) (key : string) : World * Heap.Heap * nat :=
  let '(w, h, prev) := st in
  match get key options w with
  | (w1, Ok v) =>
      let h1 := Heap.assign prev key v h in
      let '(h2, p) :=
        Heap.alloc (Heap.mkObject [] (Some (Heap.resolution h1 prev))) h1 in
      (w1, h2, p)
  | (w1, Throw e) =>
      let '(h2, p) :=
        Heap.alloc (Heap.mkObject [] (Some (Heap.rejected e))) h in
      (w1, h2, p)
  end.

(** [return keys.reduce(async function(prev, key) {...}, {})]: the
    reduction starts from the object literal at address 0, and the
    promise of [getMany] is resolved with what the reduction returns.
    The calls of [get] are taken in the order of the keys. *)
Definition getMany (keys : list string) (options : StorageOptions)
  : Async Json := λ w,
  let '(w1, h, acc) :=
    fold_left (getMany_callback options) keys
      (w, [Heap.mkObject [] None], 0) in
  match Heap.resolution h acc with
  | Heap.fulfilled x => (w1, Ok (Heap.read h x))
  | Heap.rejected e => (w1, Throw e)
  end.

Definition set (key : string) (json : Json) (options : WriteOptions)
  : Async unit :=
  fileName ← getFileName key {| dataPath := dataPath (storage options) |};
  let data :=
    stringify json (if default false (prettyPrinting options) then 2 else 0) in
  match data with
  | None => throw (new_Error "Invalid JSON data")
  | Some data =>
      if String.eqb data "" then throw (new_Error "Invalid JSON data")
      else
        _ ← fs.createDir (path.dirname fileName);
        fs.writeFile data fileName
  end.

Definition has (key : string) (options : StorageOptions) : Async bool :=
  filename ← getFileName key options;
  try_catch
    (_ ← readFile filename 0; mret true)
    (λ e, if has_code e "ENOENT" then mret false else throw e).

(** The callback of [keys.filter] is [async]: what [filter] tests is
    the promise it returns, not the boolean that promise fulfils
    with. *)
Definition keys (options : StorageOptions) : Async (list string) :=
  userDataPath ← js_or (of_string_opt (dataPath options)) getDataPath;
  dir ← path_arg userDataPath;
  _ ← fs.createDir dir;
  keys ← fs.readDir dir;
  let jsonFiles :=
    List.filter
      (λ key, truthy
         (vpromise (vbool (String.eqb (path.extname (fs.name key)) ".json"))))
      keys in
  mret (map fs.name jsonFiles).

Definition remove (key : string) (options : StorageOptions) : Async unit :=
  filename ← getFileName key options;
  fs.removeFile filename.

Definition clear (options : StorageOptions) : Async unit :=
  userData ← js_or (of_string_opt (dataPath options)) getDataPath;
  dir ← path_arg userData;
  let jsonFiles := path.join dir "*.json" in
  fs.removeDir jsonFiles.

(** One call of the callback of [getAll]:
    [async (prev, key) => { prev[key] = await get(key, options) }].
    The call returns a new promise, which nothing resolves with a
    value. *)
Definition getAll_callback (options : StorageOptions)
  (st : World * list Accumulator.Object * nat) (key : string)
  : World * list Accumulator.Object * nat :=
  let '(w, h, prev) := st in
  match get key options w with
  | (w1, Ok v) =>
      (w1,
       (Accumulator.assign prev key v h
          ++ [Accumulator.mkObject [] (Accumulator.promise (Ok tt))])%list,
       List.length h)
  | (w1, Throw e) =>
      (w1,
       (h ++ [Accumulator.mkObject [] (Accumulator.promise (Throw e))])%list,
       List.length h)
  end.

(** [const found = await keys(options);
     return found.reduce(async (prev, key) => {...}, {})]: the
    reduction starts from the object literal at address 0, and the
    calls of [get] are taken in the order of the names. *)
Definition getAll (options : StorageOptions) : Async Json :=
  found ← keys options;
  ((λ w,
     let '(w1, h, acc) :=
       fold_left (getAll_callback options) found
         (w, [Accumulator.mkObject [] Accumulator.literal], 0) in
     (w1, Accumulator.result h acc)) : Async Json).

End storage.


Import utils storage.

(** * Properties *)

Local Open Scope nat_scope.
Local Open Scope list_scope.

(** ** Vocabulary of the statements *)

(** The text [JSON.stringify({})] that [readFile] answers for a missing
    file. *)
Definition empty_text : string := "{}".

(** What a call of [readFile] that made [n] retries adds to the log,
    latest event first: a read, and before it [n] times a read followed
    by a sleep of one second. *)
Definition attempts (n : nat) (fileName : string) : list Event :=
  ev_read fileName :: concat (replicate n [ev_sleep 1000; ev_read fileName]).

Arguments attempts : simpl never.

(** The number of read attempts in a log. *)
Definition reads (l : list Event) : nat :=
  length (List.filter (λ e, match e with ev_read _ => true | _ => false end) l).

(** The events a computation added to the log of the world it ran from. *)
Definition added {A : Type} (m : Async A) (w : World) : list Event :=
  take (length (log (fst (m w))) - length (log w)) (log (fst (m w))).

(** The world after [n] failed attempts, each followed by its sleep. *)
Definition retried (n : nat) (fileName : string) (rest : list string)
  (w : World) : World :=
  mkWorld (files w) (dirs w) rest
    (concat (replicate n [ev_sleep 1000; ev_read fileName]) ++ log w)
    (currentDataPath w) (platformDataDir w).

(** A data directory with one stored document. *)
Definition disk : World :=
  mkWorld {[ "/data/a.json"%string := "{}"%string ]}
    {[ "/data"%string; "/"%string ]} [] [] None "/home/u/.local/share".

(** One call reads the file at most ten times. *)
Definition within_ten_attempts (fileName : string) (w : World) : Prop :=
  reads (added (readFile fileName 0) w) ≤ 10.

Definition fresh : World := mkWorld ∅ ∅ [] [] None "/home/u/.local/share".

Definition in_data : StorageOptions := {| dataPath := Some "/data"%string |}.

Definition write_in_data : WriteOptions :=
  {| storage := in_data; validate := None; prettyPrinting := None |}.

Definition dark : Json := jobject [("theme"%string, jstring "dark")].
Definition light : Json := jobject [("theme"%string, jstring "light")].

(** The document
    [{"theme": "dark", "volume": 0.5, "sizes": [12, 1e21, -3.25, -0]}]. *)
Definition settings : Json :=
  jobject
    [("theme"%string, jstring "dark");
     ("volume"%string, jnumber (Number.of_decimal false 5 (-1)));
     ("sizes"%string,
      jarray [jnumber (Number.of_Z 12);
              jnumber (Number.of_decimal false 1 21);
              jnumber (Number.of_decimal true 325 (-2));
              jnumber (Number.finite true 0 (-1074))])].

(** The world after [set("a", dark)] and [set("b", light)] into [/data]. *)
Definition two_keys : World :=
  fst ((_ ← set "a" dark write_in_data; set "b" light write_in_data) fresh).

(** [two_keys] with a file in [/data] that is no document of the store. *)
Definition with_notes : World :=
  fst (fs.writeFile "shopping list" "/data/notes.txt" two_keys).

(** The escaping of [getFileName], from the key's file name to the name
    on disk. *)
Definition escaped (s : string) : string :=
  Global.replace_pct20 (Global.replace_star (Global.encodeURIComponent s)).


(** A valid key: not empty, and not made of white space only. *)
Definition valid_key (key : string) : Prop :=
  key ≠ ""%string ∧ Str.trims_to_empty key = false.

(** A directory that is given: the empty string counts as absent. *)
Definition given (o : option string) : option string :=
  match o with
  | Some d => if String.eqb d "" then None else Some d
  | None => None
  end.

(** The data directory of a call: the [dataPath] of its options, or
    else the current override. *)
Definition directory_of (options : StorageOptions) (w : World)
  : option string :=
  match given (dataPath options) with
  | Some d => Some d
  | None => given (currentDataPath w)
  end.

(** The file of a key in a data directory. *)
Definition file_of (d key : string) : string :=
  path.join d (escapedFileName key).

(** Nothing exists at the path [f]: no file and no directory. *)
Definition nothing_at (f : string) (w : World) : Prop :=
  files w !! f = None ∧ f ∉ dirs w.

(** The directory [d] exists or can be made: no regular file stands in
    the place of [d] or of one of its ancestors. *)
Definition can_be_directory (d : string) (w : World) : Prop :=
  ∀ p, p ∈ fs.lineage (String.length d) d → files w !! p = None.

(** The reads of [w] meet at most ten permission errors, and no other
    injected fault. *)
Definition transient_faults (n : nat) (w : World) : Prop :=
  n ≤ 10 ∧ faults w = replicate n "EPERM"%string.

(** The keys of an object of JavaScript, in the order of its
    properties: no key comes ahead of a key before it. *)
Fixpoint ordered (keys : list string) : bool :=
  match keys with
  | [] => true
  | k :: r => forallb (λ k', negb (ahead k' k)) r && ordered r
  end.

(** A JSON value: no [undefined] in it, every number a finite double,
    and every object with the members of an object of JavaScript, each
    key once and in the order of the properties. *)
Fixpoint proper (v : Json) : bool :=
  match v with
  | jundefined => false
  | jnumber (Number.finite _ m e) => Number.double m e
  | jnumber _ => false
  | jarray items => forallb proper items
  | jobject members =>
      bool_decide (NoDup (map fst members))
      && ordered (map fst members)
      && forallb (λ '(_, x), proper x) members
  | _ => true
  end.

(** [x] with the sign of a zero left out: a text of JSON has one zero
    only. *)
Definition positive_zero (x : Number.Number) : Number.Number :=
  match x with
  | Number.finite _ 0 e => Number.finite false 0 e
  | _ => x
  end.

(** [v] with [0] in the place of every [-0]. *)
Fixpoint positive_zeros (v : Json) : Json :=
  match v with
  | jnumber x => jnumber (positive_zero x)
  | jarray items => jarray (map positive_zeros items)
  | jobject members =>
      jobject (map (λ '(k, x), (k, positive_zeros x)) members)
  | _ => v
  end.

(** Deep equality of two values: the same structure, the same members
    in the same order, and leaves that are equal for [===]. *)
Inductive deep_equal : Json → Json → Prop :=
| equal_undefined : deep_equal jundefined jundefined
| equal_null : deep_equal jnull jnull
| equal_bool (b : bool) : deep_equal (jbool b) (jbool b)
| equal_number (x y : Number.Number) :
    Number.equal x y = true → deep_equal (jnumber x) (jnumber y)
| equal_string (s : string) : deep_equal (jstring s) (jstring s)
| equal_array (a b : list Json) :
    Forall2 deep_equal a b → deep_equal (jarray a) (jarray b)
| equal_object (a b : list (string * Json)) :
    Forall2 (λ p q, fst p = fst q ∧ deep_equal (snd p) (snd q)) a b →
    deep_equal (jobject a) (jobject b).

(** Only JSON white space. *)
Definition white (s : string) : Prop := skip_ws s = ""%string.

(** A character a JSON text can start with, as far as the parser of
    arrays and objects needs to know. *)
Definition opener (c : ascii) : bool :=
  let n := Ascii.nat_of_ascii c in
  negb (Nat.eqb n 32 || Nat.eqb n 9 || Nat.eqb n 10 || Nat.eqb n 13)
  && negb (Ascii.eqb c "]") && negb (Ascii.eqb c "}").

Section Json_induction.
Variable P : Json → Prop.
Hypothesis P_undefined : P jundefined.
Hypothesis P_null : P jnull.
Hypothesis P_bool : ∀ b, P (jbool b).
Hypothesis P_number : ∀ n, P (jnumber n).
Hypothesis P_string : ∀ s, P (jstring s).
Hypothesis P_array : ∀ items, Forall P items → P (jarray items).
Hypothesis P_object :
  ∀ members, Forall (λ kv, P (snd kv)) members → P (jobject members).

Fixpoint Json_nested_ind (v : Json) : P v :=
  match v with
  | jundefined => P_undefined
  | jnull => P_null
  | jbool b => P_bool b
  | jnumber n => P_number n
  | jstring s => P_string s
  | jarray items =>
      P_array items
        ((fix all (l : list Json) : Forall P l :=
            match l with
            | [] => @List.Forall_nil _ P
            | x :: r => @List.Forall_cons _ P x r (Json_nested_ind x) (all r)
            end) items)
  | jobject members =>
      P_object members
        ((fix all (l : list (string * Json)) : Forall (λ kv, P (snd kv)) l :=
            match l with
            | [] => @List.Forall_nil _ (λ kv, P (snd kv))
            | (k, x) :: r =>
                @List.Forall_cons _ (λ kv, P (snd kv)) (k, x) r
                  (Json_nested_ind x) (all r)
            end) members)
  end.
End Json_induction.

(** The text of an item of an array. *)
Definition item_text (gap inner : string) (x : Json) : string :=
  default "null"%string (serialize gap inner x).

(** The texts of the members of an object. *)
Definition member_texts (gap inner : string) (members : list (string * Json))
  : list string :=
  flat_map
    (λ '(k, x),
       match serialize gap inner x with
       | Some text =>
           [quote k
            +:+ (if String.eqb gap "" then ":"%string else ": "%string)
            +:+ text]
       | None => []
       end) members.

(** No character that could continue a number stands at the head of
    [rest]. *)
Definition delimited (rest : string) : bool :=
  match rest with
  | String x _ =>
      negb (Number.is_digit x || Ascii.eqb x "."
            || Ascii.eqb x "e" || Ascii.eqb x "E")
  | EmptyString => true
  end.

(** What the parser must give back for the text of [v]: [v] itself,
    but for the sign of a zero, with any text [rest] after it left
    unread. *)
Definition reads_back (v : Json) : Prop :=
  ∀ gap indent text fuel rest,
    white gap → white indent →
    serialize gap indent v = Some text →
    String.length text < fuel →
    delimited rest = true →
    parse_value fuel (text +:+ rest) = Some (positive_zeros v, rest).

(** No digit stands at the head of [rest]. *)
Definition no_digit_ahead (rest : string) : bool :=
  match rest with
  | String x _ => negb (Number.is_digit x)
  | EmptyString => true
  end.

(** The characters of [s] all pass the test [A]. *)
Fixpoint all_chars (A : ascii → bool) (s : string) : bool :=
  match s with
  | EmptyString => true
  | String c r => A c && all_chars A r
  end.

(** The bytes a file name can hold after the escaping of
    [getFileName]: the characters [encodeURIComponent] leaves alone
    other than [*], the [%] of an escape, and the space. *)
Definition name_byte (c : ascii) : bool :=
  Global.unreserved c && negb (Ascii.eqb c "*")
  || Ascii.eqb c "%" || Ascii.eqb c " ".

(** The characters that Windows reserves in file names. *)
Definition windows_reserved : list ascii :=
  ["<"; ">"; ":"; JSON.dq; "/"; "\"; "|"; "?"; "*"]%char.

(** Neither [*] nor [-] occurs in [s]. *)
Definition star_free (s : string) : bool :=
  all_chars (λ c, negb (Ascii.eqb c "*") && negb (Ascii.eqb c "-")) s.

(** A segment of a path that names a file or a directory: it holds no
    separator and is neither empty nor [.] nor [..]. *)
Definition segment (e : string) : Prop :=
  Str.mem path.sep e = false
  ∧ e ≠ ""%string ∧ e ≠ "."%string ∧ e ≠ ".."%string.



(** The world [w'] has the documents and the override of [w]: what
    lies between them wrote no file, deleted none, and left
    [currentDataPath] alone. *)
Definition same_documents (w w' : World) : Prop :=
  files w' = files w ∧ currentDataPath w' = currentDataPath w.

(** The worlds [m] leaves are related by [R] to the worlds it ran
    from, whether it answers or throws. *)
Definition preserves {A : Type} (R : World → World → Prop) (m : Async A)
  : Prop :=
  ∀ w, R w (fst (m w)).

(** The world [w'] has the override of [w]. *)
Definition same_override (w w' : World) : Prop :=
  currentDataPath w' = currentDataPath w.

(** The heap of a reduction of [getMany], and its accumulator: no
    object has more than one property, and the accumulator has none. *)
Definition one_property_each (h : Heap.Heap) (acc : nat) : Prop :=
  Forall (λ o, length (Heap.props o) ≤ 1) h
  ∧ ∃ o, h !! acc = Some o ∧ Heap.props o = [].

(** ** The read loop *)

Lemma readFile_step (fileName : string) (times : nat) (w : World) :
  readFile fileName times w =
  match fs.readTextFile fileName w with
  | (w1, Ok text) => (w1, Ok text)
  | (w1, Throw error) =>
      if has_code error "ENOENT" then (w1, Ok empty_text)
      else if has_code error "EPERM" && Nat.ltb times 10
           then readFile fileName (times + 1) (fst (sleep 1000 w1))
           else (w1, Throw error)
  end.
Proof.
  simp readFile.
  destruct (fs.readTextFile fileName w) as [w1 [text|error]]; simpl; [done|].
  destruct (has_code error "ENOENT") eqn:E1; simpl; [reflexivity|].
  destruct (has_code error "EPERM") eqn:E2; simp readFile;
    destruct (lt_dec times 10) as [Hlt|Hge]; simp readFile; simpl.
  - apply Nat.ltb_lt in Hlt. by rewrite Hlt.
  - apply Nat.ltb_nlt in Hge. by rewrite Hge.
  - done.
  - done.
Qed.

(** Induction on the retries that are left. *)
Lemma readFile_ind (P : nat → World → Prop) :
  (∀ times w,
     (times < 10 → ∀ w', P (times + 1) w') → P times w) →
  ∀ times w, P times w.
Proof.
  intros step times w.
  remember (10 - times) as k eqn:Hk.
  revert times w Hk. induction k as [|k IH]; intros times w Hk.
  - apply step. intros Hlt. lia.
  - apply step. intros _ w'. apply IH. lia.
Qed.

Lemma readTextFile_log (fileName : string) (w : World) :
  log (fst (fs.readTextFile fileName w)) = ev_read fileName :: log w.
Proof.
  unfold fs.readTextFile. simpl.
  destruct (faults w); simpl; [|done].
  destruct (files w !! fileName); simpl; [done|].
  by case_bool_decide.
Qed.

Lemma attempts_S (n : nat) (fileName : string) :
  attempts (S n) fileName
  = attempts n fileName ++ [ev_sleep 1000; ev_read fileName].
Proof.
  unfold attempts. induction n as [|n IH]; [done|].
  change (replicate (S (S n)) ?x) with (x :: replicate (S n) x).
  rewrite concat_cons. rewrite (app_comm_cons _ _ (ev_read fileName)).
  simpl in IH |- *. injection IH as IH. by rewrite IH.
Qed.

(** Every call of [readFile] makes some [n] retries, each after a sleep
    of one second, and at most [10 - times] of them. *)
Lemma readFile_log (fileName : string) (times : nat) (w : World) :
  ∃ n, times + n ≤ Nat.max times 10
       ∧ log (fst (readFile fileName times w)) = attempts n fileName ++ log w.
Proof.
  revert times w. apply (readFile_ind (λ times w, ∃ n, _ ∧ _)).
  intros times w IH. rewrite readFile_step.
  pose proof (readTextFile_log fileName w) as Hlog.
  destruct (fs.readTextFile fileName w) as [w1 [text|error]]; simpl in Hlog.
  { exists 0. split; [lia|]. simpl. by rewrite Hlog. }
  destruct (has_code error "ENOENT").
  { exists 0. split; [lia|]. simpl. by rewrite Hlog. }
  destruct (has_code error "EPERM"); cbn [andb].
  2:{ exists 0. split; [lia|]. simpl. by rewrite Hlog. }
  destruct (Nat.ltb_spec times 10) as [Hlt|Hge].
  2:{ exists 0. split; [lia|]. simpl. by rewrite Hlog. }
  destruct (IH Hlt (record (ev_sleep 1000) w1)) as (n & Hn & Hl).
  exists (S n). split; [lia|].
  change (fst (sleep 1000 w1)) with (record (ev_sleep 1000) w1).
  rewrite Hl, attempts_S, <- app_assoc. simpl. by rewrite Hlog.
Qed.

(** [readFile] turns a not-found error into the text of the empty
    object, so it never fails with that code. *)
Lemma readFile_never_ENOENT (fileName : string) (times : nat) (w w' : World)
  (e : Error) :
  readFile fileName times w = (w', Throw e) → has_code e "ENOENT" = false.
Proof.
  revert times w.
  apply (readFile_ind (λ times w, readFile fileName times w = _ → _)).
  intros times w IH. rewrite readFile_step.
  destruct (fs.readTextFile fileName w) as [w1 [text|error]]; [done|].
  destruct (has_code error "ENOENT") eqn:E1; [done|].
  destruct (has_code error "EPERM"); simpl.
  2:{ intros [= <- <-]. done. }
  destruct (Nat.ltb_spec times 10) as [Hlt|Hge].
  - apply IH. done.
  - intros [= <- <-]. done.
Qed.

Lemma world_eta (w : World) :
  mkWorld (files w) (dirs w) (faults w) (log w) (currentDataPath w)
    (platformDataDir w) = w.
Proof. by destruct w. Qed.

Lemma concat_replicate_snoc {A : Type} (n : nat) (x l : list A) :
  concat (replicate n x) ++ x ++ l = concat (replicate (S n) x) ++ l.
Proof.
  induction n as [|n IH]; simpl.
  - by rewrite app_nil_r.
  - rewrite <- !app_assoc. f_equal. rewrite IH. simpl. by rewrite <- app_assoc.
Qed.

(** [n] permission errors in a row cost [n] retries, as long as the
    counter stays within ten. *)
Lemma readFile_EPERM_prefix (n : nat) :
  ∀ (fileName : string) (times : nat) (rest : list string) (w : World),
    times + n ≤ 10 →
    faults w = replicate n "EPERM"%string ++ rest →
    readFile fileName times w
    = readFile fileName (times + n) (retried n fileName rest w).
Proof.
  induction n as [|n IH]; intros fileName times rest w Hle Hf.
  - simpl in Hf. unfold retried. simpl. rewrite <- Hf, world_eta.
    by rewrite Nat.add_0_r.
  - rewrite readFile_step. unfold fs.readTextFile. simpl.
    rewrite Hf. simpl.
    destruct (Nat.ltb_spec times 10) as [_|Hge]; [|lia].
    rewrite (IH fileName (times + 1) rest); [|lia|done].
    replace (times + 1 + n) with (times + S n) by lia.
    f_equal. unfold retried. simpl. f_equal.
    apply (concat_replicate_snoc n [ev_sleep 1000; ev_read fileName]).
Qed.

(** The last attempt of a call: no retry follows it, because the error,
    if any, is no permission error or the counter has reached ten. *)
Lemma readFile_last (fileName : string) (times : nat) (w : World) :
  (times < 10 → head (faults w) ≠ Some "EPERM"%string) →
  readFile fileName times w =
  match fs.readTextFile fileName w with
  | (w1, Ok text) => (w1, Ok text)
  | (w1, Throw error) =>
      if has_code error "ENOENT" then (w1, Ok empty_text)
      else (w1, Throw error)
  end.
Proof.
  intros Hlast. rewrite readFile_step.
  unfold fs.readTextFile. simpl.
  destruct (faults w) as [|c rest] eqn:Hf; simpl.
  - destruct (files w !! fileName); [done|]. by case_bool_decide.
  - unfold has_code. simpl.
    destruct (String.eqb c "ENOENT"); [done|].
    destruct (String.eqb_spec c "EPERM") as [->|Hne]; [|done].
    destruct (Nat.ltb_spec times 10) as [Hlt|Hge]; [|done].
    by destruct (Hlast Hlt).
Qed.

Lemma added_app {A : Type} (m : Async A) (w : World) (l : list Event) :
  log (fst (m w)) = l ++ log w → added m w = l.
Proof.
  intros H. unfold added. rewrite H, length_app.
  replace (length l + length (log w) - length (log w)) with (length l) by lia.
  by rewrite take_app_length.
Qed.

(** After [n] permission errors, within the ten retries, the error of
    another code ends the call: not-found gives the text of the empty
    object, and any other code is thrown; the call made [n] retries. *)
Lemma readFile_after_retries (fileName : string) (w : World) (n : nat)
  (c : string) (rest : list string) :
  n ≤ 10 →
  faults w = replicate n "EPERM"%string ++ c :: rest →
  c ≠ "EPERM"%string →
  snd (readFile fileName 0 w)
  = (if String.eqb c "ENOENT" then Ok empty_text else Throw (fs_error c))
  ∧ log (fst (readFile fileName 0 w)) = attempts n fileName ++ log w.
Proof.
  intros Hn Hf Hc.
  assert (readFile fileName 0 w
          = readFile fileName n (retried n fileName (c :: rest) w)) as Hrun
    by (apply (readFile_EPERM_prefix n fileName 0); [lia|done]).
  rewrite (readFile_last fileName n) in Hrun by (simpl; by intros _ [= ->]).
  unfold fs.readTextFile, has_code in Hrun. simpl in Hrun.
  rewrite Hrun. by destruct (String.eqb c "ENOENT").
Qed.

(** C10 (as stated, refuted): with ten permission errors pending, the
    call does not stop at ten attempts: it reads an eleventh time, and
    that read succeeds. *)
Lemma readFile_eleventh_attempt :
  ¬ within_ten_attempts "/data/a.json" (set_faults (replicate 10 "EPERM"%string) disk)
  ∧ snd (readFile "/data/a.json" 0 (set_faults (replicate 10 "EPERM"%string) disk))
    = Ok "{}"%string.
Proof.
  split; [|by vm_compute].
  unfold within_ten_attempts.
  assert (reads (added (readFile "/data/a.json" 0)
                   (set_faults (replicate 10 "EPERM"%string) disk)) = 11) as ->
    by (by vm_compute).
  lia.
Qed.

(** C10 (amended): a read that fails with [EPERM] is retried after a
    sleep of one second, up to ten times, which makes up to eleven
    attempts.  Retries that meet no further error give the result of an
    undisturbed read; a permission error that persists through all
    eleven attempts is thrown to the caller; an error with any code
    other than [ENOENT] and [EPERM] is thrown by the attempt that meets
    it, the first one or one that follows retries for permission errors,
    and no retry follows it; a not-found error, at any attempt, ends
    the call with the text of the empty object. *)
Theorem readFile_retries_ten_times (fileName : string) (w : World) :
  (∃ n, n ≤ 10 ∧ added (readFile fileName 0) w = attempts n fileName)
  ∧ (∀ n, n ≤ 10 → faults w = replicate n "EPERM"%string →
       snd (readFile fileName 0 w) = snd (readFile fileName 0 (set_faults [] w))
       ∧ added (readFile fileName 0) w = attempts n fileName)
  ∧ (∀ rest, faults w = replicate 11 "EPERM"%string ++ rest →
       snd (readFile fileName 0 w) = Throw (fs_error "EPERM")
       ∧ added (readFile fileName 0) w = attempts 10 fileName)
  ∧ (∀ n c rest, n ≤ 10 →
       faults w = replicate n "EPERM"%string ++ c :: rest →
       c ≠ "ENOENT"%string → c ≠ "EPERM"%string →
       snd (readFile fileName 0 w) = Throw (fs_error c)
       ∧ added (readFile fileName 0) w = attempts n fileName)
  ∧ (∀ n rest, n ≤ 10 →
       faults w = replicate n "EPERM"%string ++ "ENOENT"%string :: rest →
       snd (readFile fileName 0 w) = Ok empty_text
       ∧ added (readFile fileName 0) w = attempts n fileName).
Proof.
  split; [|split; [|split; [|split]]].
  - destruct (readFile_log fileName 0 w) as (n & Hn & Hl).
    exists n. split; [simpl in Hn; lia|]. by apply added_app.
  - intros n Hn Hf.
    assert (readFile fileName 0 w
            = readFile fileName n (retried n fileName [] w)) as Hrun.
    { apply (readFile_EPERM_prefix n fileName 0 [] w); [lia|].
      by rewrite app_nil_r. }
    assert (added (readFile fileName 0) w = attempts n fileName) as Hadd.
    { apply added_app. rewrite Hrun, readFile_last by done.
      unfold fs.readTextFile. simpl.
      destruct (files w !! fileName); [done|]. by case_bool_decide. }
    split; [|done].
    rewrite Hrun, !readFile_last by done.
    unfold fs.readTextFile. simpl.
    destruct (files w !! fileName); [done|]. by case_bool_decide.
  - intros rest Hf.
    assert (readFile fileName 0 w
            = readFile fileName 10 (retried 10 fileName ("EPERM"%string :: rest) w))
      as Hrun.
    { apply (readFile_EPERM_prefix 10 fileName 0); [lia|].
      rewrite Hf. by rewrite (cons_middle "EPERM"%string), app_assoc. }
    rewrite Hrun. split.
    + rewrite readFile_last by lia. done.
    + apply added_app. rewrite Hrun, readFile_last by lia. done.
  - intros n c rest Hn Hf Hc1 Hc2.
    destruct (readFile_after_retries fileName w n c rest Hn Hf Hc2)
      as [Hout Hlog].
    split; [|by apply added_app].
    rewrite Hout. by destruct (String.eqb_spec c "ENOENT").
  - intros n rest Hn Hf.
    destruct (readFile_after_retries fileName w n "ENOENT" rest Hn Hf)
      as [Hout Hlog]; [done|].
    split; [done|by apply added_app].
Qed.

Lemma readFile_retries_ten_times_witness :
  snd (readFile "/data/a.json" 0 (set_faults (replicate 3 "EPERM"%string) disk))
  = Ok "{}"%string
  ∧ snd (readFile "/data/a.json" 0 (set_faults (replicate 11 "EPERM"%string) disk))
    = Throw (fs_error "EPERM")
  ∧ snd (readFile "/data/a.json" 0
           (set_faults ["EPERM"; "EPERM"; "EIO"]%string disk))
    = Throw (fs_error "EIO")
  ∧ added (readFile "/data/a.json" 0)
      (set_faults ["EPERM"; "EPERM"; "EIO"]%string disk)
    = attempts 2 "/data/a.json".
Proof.
  split; [|split].
  - pose proof (readFile_retries_ten_times "/data/a.json"
                  (set_faults (replicate 3 "EPERM"%string) disk)) as (_ & H & _).
    destruct (H 3) as [-> _]; [lia|reflexivity|]. by vm_compute.
  - pose proof (readFile_retries_ten_times "/data/a.json"
                  (set_faults (replicate 11 "EPERM"%string) disk))
      as (_ & _ & H & _).
    destruct (H []) as [-> _]; [reflexivity|]. done.
  - pose proof (readFile_retries_ten_times "/data/a.json"
                  (set_faults ["EPERM"; "EPERM"; "EIO"]%string disk))
      as (_ & _ & _ & H & _).
    apply (H 2 "EIO"%string []); [lia|reflexivity|done|done].
Defined.

(** ** The data directory *)

(** C3 (the code departs from the claim): [getDataPath] answers the
    override when there is one; without an override, and so after
    [setDataPath] cleared it, it answers [undefined] and not the default
    that [getDefaultDataPath] computes, and [getFileName] then fails
    for want of a data path. *)
Theorem getDataPath_without_override (w : World) :
  (∀ d, snd (getDataPath (set_currentDataPath (Some d) w)) = Ok (vstring d))
  ∧ snd (getDataPath (fst (setDataPath None w))) = Ok vundefined
  ∧ snd (getDefaultDataPath (fst (setDataPath None w)))
    = Ok (path.join (platformDataDir w) "storage")
  ∧ snd (getFileName "foo" {| dataPath := None |} (fst (setDataPath None w)))
    = Throw (new_Error "You must explicitly set a data path").
Proof. by repeat split. Qed.

(** ** [has], [remove], [keys], [clear], [getMany] *)

(** C4 (the code departs from the claim): [has] never answers [false].
    For a key without a file it answers [true], because [readFile] has
    already turned the not-found error into a text.  For a key with a
    file it answers [true], and an error of the read with another code
    is thrown again. *)
Theorem has_never_false :
  files fresh !! "/data/foo.json"%string = None
  ∧ snd (getFileName "foo" in_data fresh) = Ok "/data/foo.json"%string
  ∧ snd (has "foo" in_data fresh) = Ok true
  ∧ (∀ key options w, snd (has key options w) ≠ Ok false)
  ∧ snd (has "a" in_data two_keys) = Ok true
  ∧ snd (has "a" in_data (set_faults ["EIO"%string] two_keys))
    = Throw (fs_error "EIO").
Proof.
  split; [by vm_compute|]. split; [by vm_compute|]. split; [by vm_compute|].
  split; [|split; by vm_compute].
  intros key options w. unfold has.
  unfold mbind, Async_bind, try_catch.
  destruct (getFileName key options w) as [w1 [filename|e]]; [|done].
  destruct (readFile filename 0 w1) as [w2 [text|e]] eqn:Hread; [done|].
  by rewrite (readFile_never_ENOENT _ _ _ _ _ Hread).
Qed.

(** C5 (the code departs from the claim): [remove] of a key without a
    file is rejected with the not-found error of the delete call, so the
    second of two [remove] calls in a row fails. *)
Theorem remove_twice_throws :
  snd (remove "a" in_data two_keys) = Ok tt
  ∧ snd ((_ ← remove "a" in_data; remove "a" in_data) two_keys)
    = Throw (fs_error "ENOENT")
  ∧ snd (remove "foo" in_data fresh) = Throw (fs_error "ENOENT").
Proof. repeat split; by vm_compute. Qed.

(** C6 (the code departs from the claim): [keys] returns the name of
    every entry of the directory; an entry without the [.json]
    extension is not left out, because the test of the filter is on a
    promise and keeps every entry. *)
Theorem keys_lists_every_entry :
  snd (keys in_data two_keys) = Ok ["a.json"%string; "b.json"%string]
  ∧ snd (keys in_data with_notes)
    = Ok ["a.json"%string; "notes.txt"%string; "b.json"%string]
  ∧ path.extname "notes.txt" = ".txt"%string
  ∧ ∀ entries : list fs.FileEntry,
      List.filter
        (λ key, truthy
           (vpromise (vbool (String.eqb (path.extname (fs.name key)) ".json"))))
        entries = entries.
Proof.
  split; [by vm_compute|]. split; [by vm_compute|]. split; [by vm_compute|].
  intros entries. induction entries as [|e l IH]; [done|].
  simpl. f_equal. exact IH.
Qed.

(** C7 (the code departs from the claim): [clear] deletes no file.  It
    asks for the removal of a directory named [*.json]; on a store with
    documents the call is rejected, [keys] still lists them and [get]
    still returns what was stored. *)
Theorem clear_deletes_no_file :
  (∀ options w, files (fst (clear options w)) = files w)
  ∧ snd (clear in_data two_keys) = Throw (fs_error "ENOENT")
  ∧ snd ((_ ← try_catch (clear in_data) (λ _, mret tt); keys in_data) two_keys)
    = Ok ["a.json"%string; "b.json"%string]
  ∧ snd ((_ ← try_catch (clear in_data) (λ _, mret tt); get "a" in_data) two_keys)
    = Ok dark.
Proof.
  repeat split; try by vm_compute.
  intros options w. unfold clear, mbind, Async_bind.
  destruct (js_or _ _ w) as [w1 [v|e]] eqn:Hor.
  - assert (w1 = w) as ->.
    { unfold js_or in Hor. destruct (truthy _); [by injection Hor|].
      unfold getDataPath, mbind, Async_bind, js_or in Hor. simpl in Hor.
      by injection Hor. }
    destruct v; simpl; try done.
    unfold fs.removeDir. repeat case_bool_decide; try done.
    by destruct (fs.children _ w).
  - unfold js_or in Hor. destruct (truthy _); [done|].
    unfold getDataPath, mbind, Async_bind, js_or in Hor. by simpl in Hor.
Qed.

(** C8 (the code departs from the claim): the object [getMany] returns
    has an entry for the first key only. *)
Theorem getMany_first_key_only :
  snd (get "a" in_data two_keys) = Ok dark
  ∧ snd (get "b" in_data two_keys) = Ok light
  ∧ snd (getMany ["a"%string; "b"%string] in_data two_keys)
    = Ok (jobject [("a"%string, dark)])
  ∧ snd (getMany ["b"%string; "a"%string; "c"%string] in_data two_keys)
    = Ok (jobject [("b"%string, light)]).
Proof. repeat split; by vm_compute. Qed.

(** ** File names *)

Lemma string_app_cons (a : ascii) (r t : string) :
  String a r +:+ t = String a (r +:+ t).
Proof. reflexivity. Qed.

Lemma string_app_nil (t : string) : "" +:+ t = t.
Proof. reflexivity. Qed.

Lemma string_app_length (s t : string) :
  String.length (s +:+ t) = String.length s + String.length t.
Proof. induction s as [|a r IH]; simpl; [done|]. by rewrite IH. Qed.

Lemma mem_app (c : ascii) (s t : string) :
  Str.mem c (s +:+ t) = Str.mem c s || Str.mem c t.
Proof.
  induction s as [|a r IH]; simpl; [done|].
  destruct (Ascii.eqb a c); [done|]. by rewrite IH.
Qed.


Lemma strip_trailing_app (c : ascii) (s t : string) :
  Str.strip_trailing c t ≠ ""%string →
  Str.strip_trailing c (s +:+ t) = s +:+ Str.strip_trailing c t.
Proof.
  intros Ht. induction s as [|a r IH]; simpl; [done|].
  rewrite IH. destruct (r +:+ Str.strip_trailing c t) eqn:E.
  - destruct r; simpl in E; [by destruct Ht|done].
  - by rewrite string_app_cons, E.
Qed.

Lemma drop_suffix_unfold (ext s : string) :
  Str.drop_suffix ext s =
  if String.eqb s ext then ""%string
  else match s with
       | EmptyString => ""%string
       | String a r => String a (Str.drop_suffix ext r)
       end.
Proof. by destruct s. Qed.

Lemma ends_with_unfold (ext s : string) :
  Str.ends_with ext s =
  if String.eqb s ext then true
  else match s with
       | EmptyString => false
       | String _ r => Str.ends_with ext r
       end.
Proof. by destruct s. Qed.



Lemma encodeURIComponent_app (s t : string) :
  Global.encodeURIComponent (s +:+ t)
  = Global.encodeURIComponent s +:+ Global.encodeURIComponent t.
Proof.
  induction s as [|a r IH]; [done|].
  rewrite string_app_cons. cbn [Global.encodeURIComponent].
  rewrite IH. destruct (Global.unreserved a); [done|].
  unfold Global.percent. by rewrite !string_app_cons.
Qed.

Lemma replace_star_app (s t : string) :
  Global.replace_star (s +:+ t)
  = Global.replace_star s +:+ Global.replace_star t.
Proof.
  induction s as [|a r IH]; [done|].
  rewrite string_app_cons. cbn [Global.replace_star].
  by rewrite IH, string_app_cons.
Qed.

(** [replace_pct20], one character at a time. *)
Lemma replace_pct20_unfold (c : ascii) (r : string) :
  Global.replace_pct20 (String c r) =
  match r with
  | String c2 (String c3 r') =>
      if Ascii.eqb c "%" && Ascii.eqb c2 "2" && Ascii.eqb c3 "0"
      then String " " (Global.replace_pct20 r')
      else String c (Global.replace_pct20 r)
  | _ => String c (Global.replace_pct20 r)
  end.
Proof.
  destruct (Ascii.eqb_spec c "%") as [->|Hc].
  - destruct r as [|c2 [|c3 r']]; [done| |].
    + by destruct c2 as [[] [] [] [] [] [] [] []].
    + destruct (Ascii.eqb_spec c2 "2") as [->|Hc2].
      * destruct (Ascii.eqb_spec c3 "0") as [->|Hc3]; [done|].
        destruct c3 as [[] [] [] [] [] [] [] []]; done.
      * destruct c2 as [[] [] [] [] [] [] [] []]; done.
  - destruct r as [|c2 [|c3 r']];
      destruct c as [[] [] [] [] [] [] [] []]; done.
Qed.

Lemma replace_pct20_json (s : string) :
  Global.replace_pct20 (s +:+ ".json")
  = Global.replace_pct20 s +:+ ".json".
Proof.
  remember (String.length s) as n eqn:Hn.
  assert (String.length s ≤ n) as Hle by lia. clear Hn.
  revert s Hle. induction n as [|n IH]; intros s Hle.
  - destruct s; [done|]. simpl in Hle. lia.
  - destruct s as [|c r]; [done|].
    simpl in Hle. rewrite string_app_cons, !replace_pct20_unfold.
    destruct r as [|c2 [|c3 r']].
    + rewrite !string_app_nil. cbn. by rewrite andb_false_r.
    + rewrite (IH (String c2 "")) by (simpl in *; lia).
      rewrite !string_app_cons, !string_app_nil. cbn.
      by rewrite andb_false_r.
    + rewrite !string_app_cons.
      destruct (Ascii.eqb c "%" && Ascii.eqb c2 "2" && Ascii.eqb c3 "0").
      * rewrite IH by (simpl in *; lia). done.
      * rewrite <- !string_app_cons, IH by (simpl in *; lia). done.
Qed.

Lemma escaped_json (s : string) : escaped (s +:+ ".json") = escaped s +:+ ".json".
Proof.
  unfold escaped.
  rewrite encodeURIComponent_app, replace_star_app.
  apply replace_pct20_json.
Qed.


(** ** Paths of stored documents *)

Lemma mem_percent (c : ascii) : Str.mem "/" (Global.percent c) = false.
Proof. by destruct c as [[] [] [] [] [] [] [] []]. Qed.

Lemma mem_encodeURIComponent (s : string) :
  Str.mem "/" (Global.encodeURIComponent s) = false.
Proof.
  induction s as [|a r IH]; [done|].
  cbn [Global.encodeURIComponent]. rewrite mem_app, IH, orb_false_r.
  destruct (Global.unreserved a) eqn:Hu; [|apply mem_percent].
  simpl. destruct (Ascii.eqb_spec a "/") as [->|_]; [|done].
  by vm_compute in Hu.
Qed.

Lemma mem_replace_star (s : string) :
  Str.mem "/" s = false → Str.mem "/" (Global.replace_star s) = false.
Proof.
  induction s as [|a r IH]; [done|]. simpl.
  destruct (Ascii.eqb_spec a "/") as [->|Ha]; [done|]. intros Hr.
  rewrite (IH Hr). destruct (Ascii.eqb_spec a "*") as [->|_]; [done|].
  by destruct (Ascii.eqb_spec a "/").
Qed.

Lemma mem_replace_pct20 (s : string) :
  Str.mem "/" s = false → Str.mem "/" (Global.replace_pct20 s) = false.
Proof.
  remember (String.length s) as n eqn:Hn.
  assert (String.length s ≤ n) as Hle by lia. clear Hn.
  revert s Hle. induction n as [|n IH]; intros s Hle Hs.
  - destruct s; [done|]. simpl in Hle. lia.
  - destruct s as [|c r]; [done|].
    simpl in Hle, Hs. destruct (Ascii.eqb c "/") eqn:Hc; [done|].
    rewrite replace_pct20_unfold.
    assert (Str.mem "/" (String c (Global.replace_pct20 r)) = false) as Hkeep.
    { simpl. rewrite Hc. apply IH; [lia|done]. }
    destruct r as [|c2 [|c3 r']]; [done|done|].
    destruct (Ascii.eqb c "%" && Ascii.eqb c2 "2" && Ascii.eqb c3 "0"); [|done].
    simpl. apply IH; [simpl in Hle; lia|].
    simpl in Hs. destruct (Ascii.eqb c2 "/"); [done|].
    by destruct (Ascii.eqb c3 "/").
Qed.

Lemma mem_escaped (s : string) : Str.mem "/" (escaped s) = false.
Proof.
  unfold escaped.
  apply mem_replace_pct20, mem_replace_star, mem_encodeURIComponent.
Qed.

Lemma split_nonempty (c : ascii) (s : string) : Str.split c s ≠ [].
Proof.
  induction s as [|a r IH]; simpl; [done|].
  destruct (Ascii.eqb a c); [done|]. by destruct (Str.split c r).
Qed.

Lemma split_without (c : ascii) (s : string) :
  Str.mem c s = false → Str.split c s = [s].
Proof.
  induction s as [|a r IH]; simpl; [done|].
  destruct (Ascii.eqb a c); [done|]. intros Hr. by rewrite (IH Hr).
Qed.

Lemma split_app (c : ascii) (d e : string) :
  Str.split c (d +:+ String c e) = Str.split c d ++ Str.split c e.
Proof.
  induction d as [|a r IH].
  - rewrite string_app_nil. simpl. by rewrite Ascii.eqb_refl.
  - rewrite string_app_cons. simpl.
    destruct (Ascii.eqb a c); [by rewrite IH|].
    rewrite IH. pose proof (split_nonempty c r).
    by destruct (Str.split c r).
Qed.

(** A segment that names a file or directory, not [.] or [..], stays
    where it stands when it is the last one. *)
Lemma resolve_last (absolute : bool) (segs stack : list string) (e : string) :
  e ≠ ""%string → e ≠ "."%string → e ≠ ".."%string →
  path.resolve absolute stack (segs ++ [e])
  = e :: path.resolve absolute stack segs.
Proof.
  intros H1 H2 H3. revert stack.
  induction segs as [|seg rest IH]; intros stack; simpl.
  - destruct (String.eqb_spec e ""); [done|].
    destruct (String.eqb_spec e "."); [done|].
    by destruct (String.eqb_spec e "..").
  - destruct (String.eqb seg "" || String.eqb seg "."); [apply IH|].
    destruct (String.eqb seg ".."); [|apply IH].
    destruct stack as [|top below]; [destruct absolute; apply IH|].
    destruct (String.eqb top ".."); apply IH.
Qed.

Lemma concat_with_last (sep : string) (l : list string) (e : string) :
  String.length e ≤ String.length (Str.concat_with sep (l ++ [e])).
Proof.
  induction l as [|x l IH]; [done|].
  change ((x :: l) ++ [e]) with (x :: (l ++ [e])).
  destruct (l ++ [e]) as [|y ys] eqn:E; [by destruct l|].
  change (Str.concat_with sep (x :: y :: ys))
    with (x +:+ sep +:+ Str.concat_with sep (y :: ys)).
  rewrite !string_app_length. lia.
Qed.

(** The path of a file in a directory is at least as long as the name
    of the file. *)
Lemma join_length (d e : string) :
  d ≠ ""%string → Str.mem "/" e = false →
  e ≠ ""%string → e ≠ "."%string → e ≠ ".."%string →
  String.length e ≤ String.length (path.join d e).
Proof.
  intros Hd Hmem H1 H2 H3. unfold path.join.
  destruct (String.eqb_spec d ""); [done|].
  destruct (String.eqb_spec e ""); [done|].
  unfold path.normalize.
  change (d +:+ "/" +:+ e) with (d +:+ String path.sep e).
  rewrite split_app, (split_without path.sep e Hmem).
  rewrite resolve_last by done.
  change (rev (e :: ?l)) with (rev l ++ [e]).
  pose proof (concat_with_last "/" (rev (path.resolve
    (path.isAbsolute (d +:+ String path.sep e)) [] (Str.split path.sep d))) e)
    as Hlen.
  destruct (path.isAbsolute _).
  - rewrite string_app_length. simpl. lia.
  - destruct (String.eqb_spec (Str.concat_with "/"
      (rev (path.resolve false [] (Str.split path.sep d)) ++ [e])) "")
      as [Heq|_]; [|done].
    rewrite Heq in Hlen. destruct e; [done|]. simpl in Hlen. lia.
Qed.

Lemma strip_trailing_length (c : ascii) (s : string) :
  String.length (Str.strip_trailing c s) ≤ String.length s.
Proof.
  induction s as [|a r IH]; simpl; [done|].
  destruct (Str.strip_trailing c r); simpl in *; [|lia].
  destruct (Ascii.eqb a c); simpl; lia.
Qed.

Lemma before_last_length (c : ascii) (s d : string) :
  Str.before_last c s = Some d → String.length d < String.length s.
Proof.
  revert d. induction s as [|a r IH]; intros d; simpl; [done|].
  destruct (Str.before_last c r) as [p|].
  - intros [= <-]. simpl. specialize (IH p eq_refl). lia.
  - destruct (Ascii.eqb a c); [|done]. intros [= <-]. simpl. lia.
Qed.

Lemma dirname_length (p : string) :
  String.length (path.dirname p) ≤ Nat.max 1 (String.length p)
  ∧ (2 ≤ String.length p → String.length (path.dirname p) < String.length p).
Proof.
  unfold path.dirname.
  pose proof (strip_trailing_length path.sep p) as Hq.
  destruct (Str.strip_trailing path.sep p) as [|a q] eqn:Eq.
  - destruct (String.eqb p ""); simpl; lia.
  - destruct (Str.before_last path.sep (String a q)) as [d|] eqn:Ed.
    + apply before_last_length in Ed.
      pose proof (strip_trailing_length path.sep d) as Hd.
      destruct (Str.strip_trailing path.sep d); simpl in *; lia.
    + simpl in *. lia.
Qed.

Lemma lineage_length (fuel : nat) (d y : string) :
  y ∈ fs.lineage fuel d → String.length y ≤ Nat.max 1 (String.length d).
Proof.
  revert d. induction fuel as [|fuel IH]; intros d; simpl.
  - intros ->%list_elem_of_singleton. lia.
  - destruct (String.eqb (path.dirname d) d).
    + intros ->%list_elem_of_singleton. lia.
    + intros [->|Hin]%elem_of_cons; [lia|].
      apply IH in Hin. pose proof (dirname_length d) as [Hd _]. lia.
Qed.

(** A path of two characters or more is not among the directories that
    lead to it. *)
Lemma lineage_dirname (fuel : nat) (p : string) :
  2 ≤ String.length p → p ∉ fs.lineage fuel (path.dirname p).
Proof.
  intros Hp Hin. apply lineage_length in Hin.
  pose proof (dirname_length p) as [_ Hd]. specialize (Hd Hp). lia.
Qed.

(** What [getFileName] answers when it answers: the escaped file name
    of the key in a data directory, which is the directory of the
    options or else the current one.  The world is left as it was. *)
Lemma getFileName_Ok (key : string) (options : StorageOptions)
  (w w' : World) (f : string) :
  getFileName key options w = (w', Ok f) →
  w' = w ∧ ∃ d, d ≠ ""%string ∧ f = path.join d (escapedFileName key).
Proof.
  unfold getFileName.
  destruct (truthy (vstring key)); [|done]. simpl.
  destruct (Str.trims_to_empty key); [done|].
  unfold mbind, Async_bind, js_or.
  destruct (truthy (of_string_opt (dataPath options))) eqn:Ht.
  - simpl. rewrite Ht. simpl.
    destruct (dataPath options) as [d|]; [|done]. simpl in *.
    intros [= <- <-]. split; [done|]. exists d. split; [|done].
    intros ->. done.
  - unfold getDataPath, mbind, Async_bind, js_or. simpl.
    destruct (currentDataPath w) as [d|]; simpl; [|done].
    destruct (String.eqb_spec d ""); simpl; [done|].
    intros [= <- <-]. split; [done|]. by exists d.
Qed.

Lemma escapedFileName_json (key : string) :
  ∃ stem, escapedFileName key = stem +:+ ".json".
Proof.
  exists (escaped (path.basename key ".json")).
  unfold escapedFileName, keyFileName. apply escaped_json.
Qed.

(** The file of a key is not one of the directories [createDir]
    makes for it. *)
Lemma getFileName_not_lineage (key : string) (options : StorageOptions)
  (w w' : World) (f : string) (fuel : nat) :
  getFileName key options w = (w', Ok f) →
  f ∉ fs.lineage fuel (path.dirname f).
Proof.
  intros (_ & d & Hd & ->)%getFileName_Ok.
  apply lineage_dirname.
  destruct (escapedFileName_json key) as [stem Hstem].
  assert (5 ≤ String.length (escapedFileName key)) as Hlen.
  { rewrite Hstem, string_app_length. simpl. lia. }
  pose proof (join_length d (escapedFileName key) Hd (mem_escaped _)) as Hjoin.
  assert (String.length (escapedFileName key)
          ≤ String.length (path.join d (escapedFileName key))); [|lia].
  apply Hjoin; intros Heq; rewrite Heq in Hlen; simpl in Hlen; lia.
Qed.

(** ** The JSON codec *)

Lemma string_app_assoc (a b c : string) : (a +:+ b) +:+ c = a +:+ (b +:+ c).
Proof. induction a as [|x a IH]; [done|]. by rewrite !string_app_cons, IH. Qed.

(** One character of a string literal: what [quote_char] writes for it,
    [parse_chars] reads back as it. *)
Lemma parse_chars_quote_char (c : ascii) (X : string) :
  parse_chars (quote_char c +:+ X)
  = '(body, rest) ← parse_chars X; Some (String c body, rest).
Proof.
  destruct c as [[] [] [] [] [] [] [] []]; reflexivity.
Qed.

Lemma parse_chars_quote_body (s rest : string) :
  parse_chars (quote_body s +:+ String dq rest) = Some (s, rest).
Proof.
  induction s as [|c r IH].
  - reflexivity.
  - cbn [quote_body]. rewrite string_app_assoc, parse_chars_quote_char, IH.
    reflexivity.
Qed.

Lemma string_app_nil_r (s : string) : s +:+ "" = s.
Proof. induction s as [|a r IH]; [done|]. by rewrite string_app_cons, IH. Qed.

Lemma all_chars_app (A : ascii → bool) (s t : string) :
  all_chars A (s +:+ t) = all_chars A s && all_chars A t.
Proof.
  induction s as [|a r IH]; [done|].
  rewrite string_app_cons. simpl. by rewrite IH, andb_assoc.
Qed.

Lemma pretty_N_go_app (x : N) (s t : string) :
  pretty_N_go x s +:+ t = pretty_N_go x (s +:+ t).
Proof.
  revert s. induction (N.lt_wf_0 x) as [x _ IH]; intros s.
  destruct (decide (x = 0)%N) as [->|Hx]; [by rewrite !pretty_N_go_0|].
  rewrite (pretty_N_go_step x s), (pretty_N_go_step x (s +:+ t)) by lia.
  rewrite IH by (apply N.div_lt; lia). reflexivity.
Qed.

(** *** Numbers: the rounding of a decimal, and the digits written *)

Section numbers.
Import Number.
Local Open Scope Z_scope.

Lemma digit_pretty_N_char (d : N) :
  (d < 10)%N → digit (pretty_N_char d) = Some d.
Proof.
  intros Hd.
  assert (d = 0 ∨ d = 1 ∨ d = 2 ∨ d = 3 ∨ d = 4 ∨ d = 5 ∨ d = 6 ∨ d = 7
          ∨ d = 8 ∨ d = 9)%N as Hcases by lia.
  repeat (destruct Hcases as [->|Hcases]; [reflexivity|]). by subst.
Qed.

Lemma pretty_N_go_head (x : N) (s : string) :
  (0 < x)%N →
  ∃ c r d, pretty_N_go x s = String c r ∧ digit c = Some d ∧ d ≠ 0%N.
Proof.
  revert s. induction (N.lt_wf_0 x) as [x _ IH]; intros s Hx.
  rewrite pretty_N_go_step by done.
  destruct (decide (x `div` 10 = 0)%N) as [Hz|Hnz].
  - rewrite Hz, pretty_N_go_0.
    assert (x < 10)%N as Hlt.
    { pose proof (N.div_mod x 10) as H1. pose proof (N.mod_lt x 10) as H2. lia. }
    exists (pretty_N_char (x `mod` 10)), s, x.
    rewrite N.mod_small by done.
    split; [done|]. split; [by apply digit_pretty_N_char|lia].
  - apply IH; [apply N.div_lt; lia|]. by apply N.neq_0_lt_0.
Qed.

Lemma double_bounds (m e : Z) :
  double m e = true →
  0 ≤ m < 2 ^ 53 ∧ -1074 ≤ e ≤ 971 ∧ (m < 2 ^ 52 → e = -1074).
Proof.
  unfold double. intros H.
  apply andb_prop in H as [H H5]. apply andb_prop in H as [H H4].
  apply andb_prop in H as [H H3]. apply andb_prop in H as [H1 H2].
  split; [lia|]. split; [lia|].
  intros Hm. apply orb_prop in H5 as [H5|H5]; lia.
Qed.

(** A fraction that is a double is the double nearest to it. *)
Lemma nearest_exact (num den m e : Z) :
  0 < den → 0 < m < 2 ^ 53 → 0 ≤ e ≤ 2045 → (m < 2 ^ 52 → e = 0) →
  num * 2 ^ 1074 = m * 2 ^ e * den →
  nearest num den = Some (m, e - 1074).
Proof.
  intros Hden Hm He Hsub Heq. unfold nearest. rewrite Heq.
  rewrite Z.div_mul by lia.
  assert (Z.max (Z.log2 (m * 2 ^ e) - 52) 0 = e) as ->.
  { rewrite Z.log2_mul_pow2 by lia.
    destruct (Z_lt_le_dec m (2 ^ 52)) as [Hlt|Hge].
    - rewrite (Hsub Hlt).
      assert (Z.log2 m < 52) by (apply Z.log2_lt_pow2; lia). lia.
    - assert (52 ≤ Z.log2 m) by (apply Z.log2_le_pow2; lia).
      assert (Z.log2 m < 53) by (apply Z.log2_lt_pow2; lia). lia. }
  assert (0 < 2 ^ e) as Hpow by (apply Z.pow_pos_nonneg; lia).
  assert (0 < den * 2 ^ e) as Hd by lia.
  replace (m * 2 ^ e * den) with (m * (den * 2 ^ e)) by lia.
  rewrite Z.div_mul, Z.mod_mul by lia.
  change (2 * 0) with 0.
  destruct (Z.ltb_spec 0 (den * 2 ^ e)); [|lia].
  destruct (Z.eqb_spec m (2 ^ 53)); [lia|].
  destruct (Z.ltb_spec 2045 e); [lia|]. done.
Qed.

Lemma nearest_zero (den : Z) : 0 < den → nearest 0 den = Some (0, -1074).
Proof.
  intros Hden. unfold nearest. rewrite Z.mul_0_l, Z.div_0_l by lia.
  change (Z.max (Z.log2 0 - 52) 0) with 0. change (2 ^ 0) with 1.
  rewrite Z.mul_1_r, Z.div_0_l, Z.mod_0_l by lia. change (2 * 0) with 0.
  destruct (Z.ltb_spec 0 den); [|lia]. done.
Qed.

Lemma decimal_den (c q : Z) : 0 < snd (decimal c q).
Proof.
  unfold decimal. destruct (Z.leb_spec 0 q); simpl; [lia|].
  apply Z.pow_pos_nonneg; lia.
Qed.

Lemma decimal_zero (q : Z) : fst (decimal 0 q) = 0.
Proof. unfold decimal. by destruct (0 <=? q). Qed.

Lemma decimal_tenth (c q M A : Z) :
  fst (decimal (10 * c) q) * A = M * snd (decimal (10 * c) q) →
  fst (decimal c (q + 1)) * A = M * snd (decimal c (q + 1)).
Proof.
  unfold decimal.
  destruct (Z.leb_spec 0 q) as [Hq|Hq].
  - destruct (Z.leb_spec 0 (q + 1)) as [_|Hq1]; [|lia]. cbn [fst snd].
    rewrite Z.pow_add_r by lia. change (10 ^ 1) with 10. intros H. lia.
  - destruct (Z.leb_spec 0 (q + 1)) as [Hq1|Hq1]; cbn [fst snd].
    + replace q with (-1) by lia. change (-1 + 1) with 0.
      change (10 ^ 0) with 1. change (10 ^ (- -1)) with 10. lia.
    + replace (- q) with (- (q + 1) + 1) by lia.
      rewrite Z.pow_add_r by lia. change (10 ^ 1) with 10. intros H. lia.
Qed.

Lemma strip_zeros_exact (fuel : nat) (c q M A : Z) :
  fst (decimal c q) * A = M * snd (decimal c q) →
  let '(s, q') := strip_zeros fuel c q in
  fst (decimal s q') * A = M * snd (decimal s q').
Proof.
  revert c q. induction fuel as [|fuel IH]; intros c q H; [done|].
  cbn [strip_zeros].
  destruct (Z.eqb_spec (c mod 10) 0) as [Hmod|]; [|done].
  destruct (Z.eqb_spec c 0); [done|]. cbn [andb negb].
  apply IH. apply decimal_tenth.
  replace (10 * (c / 10)) with c; [done|].
  pose proof (Z.div_mod c 10). lia.
Qed.

Lemma strip_zeros_nonneg (fuel : nat) (c q : Z) :
  0 ≤ c → 0 ≤ fst (strip_zeros fuel c q).
Proof.
  revert c q. induction fuel as [|fuel IH]; intros c q H; [done|].
  cbn [strip_zeros]. destruct (_ && _); [|done].
  apply IH. apply Z.div_pos; lia.
Qed.

Lemma reads_as_exact (m e c q : Z) :
  double m e = true → 0 < m →
  fst (decimal c q) * 2 ^ 1074 = m * 2 ^ (e + 1074) * snd (decimal c q) →
  reads_as m e (c, q) = true.
Proof.
  intros Hd Hm H. apply double_bounds in Hd as (Hm' & He & Hsub).
  unfold reads_as. cbn [fst snd].
  pose proof (decimal_den c q) as Hden.
  destruct (decimal c q) as [num den]. cbn [fst snd] in *.
  rewrite (nearest_exact num den m (e + 1074)) by first [lia | exact H].
  replace (e + 1074 - 1074) with e by lia.
  by rewrite !Z.eqb_refl.
Qed.

Lemma reads_as_sound (m e c q : Z) :
  reads_as m e (c, q) = true →
  ∀ negative, of_decimal negative c q = finite negative m e.
Proof.
  unfold reads_as, of_decimal. cbn [fst snd].
  destruct (decimal c q) as [num den].
  destruct (nearest num den) as [[m' e']|]; [|done].
  intros H negative. apply andb_prop in H as [H1 H2].
  apply Z.eqb_eq in H1, H2. by subst.
Qed.

Lemma reads_as_positive (m e c q : Z) :
  0 < m → 0 ≤ c → reads_as m e (c, q) = true → 0 < c.
Proof.
  intros Hm Hc H. destruct (Z.eq_dec c 0) as [->|]; [|lia].
  unfold reads_as in H. cbn [fst snd] in H.
  pose proof (decimal_den 0 q) as Hden. pose proof (decimal_zero q) as Hnum.
  destruct (decimal 0 q) as [num den]. cbn [fst snd] in *. subst num.
  rewrite nearest_zero in H by done.
  apply andb_prop in H as [H _]. apply Z.eqb_eq in H. lia.
Qed.

(** The decimal that has all the digits of the double reads as it. *)
Lemma scaled_exact (m e : Z) :
  let p := Z.max (- e) 0 in
  let S := m * 5 ^ p * 2 ^ Z.max e 0 in
  -1074 ≤ e →
  fst (decimal S (- p)) * 2 ^ 1074 = m * 2 ^ (e + 1074) * snd (decimal S (- p)).
Proof.
  intros p S He. unfold S, p, decimal.
  destruct (Z_lt_le_dec e 0) as [Hneg|Hpos].
  - rewrite (Z.max_l (- e) 0), (Z.max_r e 0) by lia.
    destruct (Z.leb_spec 0 (- - e)); [lia|]. cbn [fst snd].
    change (2 ^ 0) with 1. rewrite Z.opp_involutive.
    replace 1074 with ((e + 1074) + - e) at 1 by lia.
    rewrite Z.pow_add_r by lia.
    change 10 with (2 * 5). rewrite Z.pow_mul_l. lia.
  - rewrite (Z.max_r (- e) 0), (Z.max_l e 0) by lia.
    change (- 0) with 0. cbn [Z.leb Z.compare fst snd].
    change (5 ^ 0) with 1. change (10 ^ 0) with 1.
    rewrite Z.pow_add_r by lia. lia.
Qed.

Lemma shortest_reads (m e S p : Z) :
  0 ≤ S →
  (∀ fuel, reads_as m e (strip_zeros fuel S (- p)) = true) →
  ∀ j, reads_as m e (shortest j m e S p) = true
       ∧ 0 ≤ fst (shortest j m e S p).
Proof.
  intros HS Hall j. induction j as [|j IH].
  - cbn [shortest]. change (10 ^ Z.of_nat 0) with 1.
    rewrite Z.div_1_r. change (Z.of_nat 0 - p) with (- p).
    rewrite Hall.
    destruct (reads_as m e (strip_zeros _ (S + 1) _)) eqn:Hhi.
    + repeat destruct (_ <? _); try destruct (Z.even _);
        (split; [done|apply strip_zeros_nonneg; lia]).
    + split; [done|by apply strip_zeros_nonneg].
  - cbn [shortest].
    assert (0 ≤ S / 10 ^ Z.of_nat (Datatypes.S j)) as Hlo.
    { apply Z.div_pos; [done|]. apply Z.pow_pos_nonneg; lia. }
    destruct (reads_as m e (strip_zeros _ (S / _) _)) eqn:Hlow;
      destruct (reads_as m e (strip_zeros _ (S / _ + 1) _)) eqn:Hhi.
    + repeat destruct (_ <? _); try destruct (Z.even _);
        (split; [done|apply strip_zeros_nonneg; lia]).
    + split; [done|by apply strip_zeros_nonneg].
    + split; [done|apply strip_zeros_nonneg; lia].
    + exact IH.
Qed.

(** The digits written for a double read as the double. *)
Lemma shortest_decimal_reads (m e : Z) :
  double m e = true → 0 < m →
  reads_as m e (shortest_decimal m e) = true
  ∧ 0 < fst (shortest_decimal m e).
Proof.
  intros Hd Hm. unfold shortest_decimal.
  set (p := Z.max (- e) 0). set (S := m * 5 ^ p * 2 ^ Z.max e 0).
  assert (0 ≤ S) as HS.
  { unfold S. apply Z.mul_nonneg_nonneg; [apply Z.mul_nonneg_nonneg|]; try lia;
      apply Z.pow_nonneg; lia. }
  assert (∀ fuel, reads_as m e (strip_zeros fuel S (- p)) = true) as Hall.
  { intros fuel.
    pose proof (strip_zeros_exact fuel S (- p) (m * 2 ^ (e + 1074)) (2 ^ 1074))
      as Hstrip.
    destruct (strip_zeros fuel S (- p)) as [s q].
    apply reads_as_exact; [done|done|]. apply Hstrip.
    apply (scaled_exact m e). apply double_bounds in Hd. lia. }
  destruct (shortest_reads m e S p HS Hall (String.length (digits S) - 1))
    as [Hreads Hpos].
  split; [done|].
  destruct (shortest _ m e S p) as [s q]. cbn [fst] in *.
  by apply (reads_as_positive m e s q).
Qed.

Lemma is_digit_digit (c : ascii) (d : N) : digit c = Some d → is_digit c = true.
Proof. intros H. unfold is_digit. rewrite H. by apply bool_decide_eq_true_2. Qed.

Lemma delimited_no_digit (rest : string) :
  delimited rest = true → no_digit_ahead rest = true.
Proof.
  destruct rest as [|x r]; [done|]. cbn [delimited no_digit_ahead].
  by destruct (is_digit x).
Qed.

Lemma digits_prefix_app (ds rest : string) :
  all_chars is_digit ds = true → no_digit_ahead rest = true →
  digits_prefix (ds +:+ rest) = (ds, rest).
Proof.
  intros Hds Hrest. induction ds as [|c r IH].
  - rewrite string_app_nil. destruct rest as [|x t]; [done|].
    cbn [digits_prefix no_digit_ahead] in *. by destruct (is_digit x).
  - cbn [all_chars] in Hds. apply andb_prop in Hds as [Hc Hr].
    rewrite string_app_cons. cbn [digits_prefix]. by rewrite Hc, IH.
Qed.

Lemma decimal_value_app (acc : Z) (a b : string) :
  decimal_value acc (a +:+ b) = decimal_value (decimal_value acc a) b.
Proof.
  revert acc. induction a as [|c r IH]; intros acc; [done|].
  rewrite string_app_cons. cbn [decimal_value]. by rewrite IH.
Qed.

Lemma all_chars_pretty_N_go (x : N) (s : string) :
  all_chars is_digit s = true → all_chars is_digit (pretty_N_go x s) = true.
Proof.
  revert s. induction (N.lt_wf_0 x) as [x _ IH]; intros s Hs.
  destruct (decide (x = 0)%N) as [->|Hx]; [by rewrite pretty_N_go_0|].
  rewrite pretty_N_go_step by lia. apply IH; [apply N.div_lt; lia|].
  cbn [all_chars]. rewrite Hs, andb_true_r.
  apply (is_digit_digit _ (x `mod` 10)%N), digit_pretty_N_char, N.mod_lt. lia.
Qed.

Lemma decimal_value_pretty_N_go (x : N) :
  ∃ M : Z, ∀ acc s,
    decimal_value acc (pretty_N_go x s) = decimal_value (acc * M + Z.of_N x) s.
Proof.
  induction (N.lt_wf_0 x) as [x _ IH].
  destruct (decide (x = 0)%N) as [->|Hx].
  - exists 1. intros acc s. rewrite pretty_N_go_0. f_equal. lia.
  - destruct (IH (x `div` 10)%N) as [M HM]; [apply N.div_lt; lia|].
    exists (10 * M). intros acc s.
    rewrite pretty_N_go_step by lia. rewrite HM. cbn [decimal_value].
    rewrite digit_pretty_N_char by (apply N.mod_lt; lia). cbn [default].
    f_equal. pose proof (N.div_mod x 10 ltac:(lia)) as Hdm. unfold id. lia.
Qed.

Lemma digits_all (v : Z) : all_chars is_digit (digits v) = true.
Proof.
  unfold digits, pretty, pretty_N. destruct (decide _); [done|].
  by apply all_chars_pretty_N_go.
Qed.

Lemma digits_value (v : Z) : 0 ≤ v → decimal_value 0 (digits v) = v.
Proof.
  intros Hv. unfold digits, pretty, pretty_N.
  destruct (decide (Z.to_N v = 0%N)) as [Hz|Hnz].
  { change (decimal_value 0 "0") with 0. lia. }
  destruct (decimal_value_pretty_N_go (Z.to_N v)) as [M HM].
  rewrite HM. cbn [decimal_value]. lia.
Qed.

Lemma digits_head (v : Z) :
  ∃ c r, digits v = String c r ∧ is_digit c = true
         ∧ (0 < v → Ascii.eqb c "0" = false).
Proof.
  unfold digits, pretty, pretty_N.
  destruct (decide (Z.to_N v = 0%N)) as [Hz|Hnz].
  - exists "0"%char, "". split; [done|]. split; [done|]. lia.
  - destruct (pretty_N_go_head (Z.to_N v) "") as (c & r & d & -> & Hd & Hd0);
      [lia|].
    exists c, r. split; [done|]. split; [by apply (is_digit_digit c d)|].
    intros _. destruct (Ascii.eqb_spec c "0") as [->|]; [|done].
    by injection Hd as <-.
Qed.

Lemma zeros_S (n : nat) : zeros (S n) = String "0" (zeros n).
Proof. reflexivity. Qed.

Lemma zeros_all (n : nat) : all_chars is_digit (zeros n) = true.
Proof. induction n as [|n IH]; [done|]. by rewrite zeros_S. Qed.

Lemma zeros_length (n : nat) : String.length (zeros n) = n.
Proof. induction n as [|n IH]; [done|]. rewrite zeros_S. cbn. by rewrite IH. Qed.

Lemma decimal_value_zeros (acc : Z) (n : nat) :
  decimal_value acc (zeros n) = acc * 10 ^ Z.of_nat n.
Proof.
  revert acc. induction n as [|n IH]; intros acc.
  - cbn. lia.
  - rewrite zeros_S. cbn [decimal_value]. rewrite IH.
    change (Z.of_N (default 0%N (digit "0"))) with 0.
    rewrite Nat2Z.inj_succ, Z.pow_succ_r by lia. lia.
Qed.

Lemma take_drop (n : nat) (s : string) : Str.take n s +:+ Str.drop n s = s.
Proof.
  revert s. induction n as [|n IH]; intros [|c r]; try done.
  cbn [Str.take Str.drop]. by rewrite string_app_cons, IH.
Qed.

Lemma all_chars_split (A : ascii → bool) (n : nat) (s : string) :
  all_chars A s = true →
  all_chars A (Str.take n s) = true ∧ all_chars A (Str.drop n s) = true.
Proof.
  intros H. rewrite <- (take_drop n s), all_chars_app in H.
  by apply andb_prop in H.
Qed.

Lemma parse_fraction_none (rest : string) :
  delimited rest = true → parse_fraction rest = Some (EmptyString, rest).
Proof.
  destruct rest as [|x r]; [done|]. cbn [delimited parse_fraction].
  destruct (Ascii.eqb x "."); [|done].
  by rewrite !orb_true_r.
Qed.

Lemma parse_fraction_some (ds rest : string) :
  all_chars is_digit ds = true → ds ≠ EmptyString →
  no_digit_ahead rest = true →
  parse_fraction (String "." (ds +:+ rest)) = Some (ds, rest).
Proof.
  intros Hds Hne Hrest. cbn [parse_fraction].
  change (Ascii.eqb "." ".") with true. cbv iota.
  rewrite digits_prefix_app by done. by destruct ds.
Qed.

Lemma parse_exponent_none (rest : string) :
  delimited rest = true → parse_exponent rest = Some (0, rest).
Proof.
  destruct rest as [|x r]; [done|]. cbn [delimited parse_exponent].
  destruct (Ascii.eqb x "e" || Ascii.eqb x "E") eqn:He; [|done].
  intros H. apply negb_true_iff in H.
  rewrite <- !orb_assoc in H. apply orb_false_elim in H as [_ H].
  apply orb_false_elim in H as [_ H]. congruence.
Qed.

Lemma parse_exponent_some (x : Z) (rest : string) :
  no_digit_ahead rest = true →
  parse_exponent
    (String "e" (((if 0 <=? x then "+" else "-") +:+ digits (Z.abs x)) +:+ rest))
  = Some (x, rest).
Proof.
  intros Hrest. cbn [parse_exponent]. change (Ascii.eqb "e" "e") with true.
  cbn [orb]. cbv iota.
  destruct (digits_head (Z.abs x)) as (c & r & Hhead & _ & _).
  destruct (Z.leb_spec 0 x) as [Hx|Hx].
  - rewrite string_app_assoc, string_app_cons, string_app_nil.
    change (Ascii.eqb "+" "+") with true. cbv iota.
    rewrite digits_prefix_app by (done || apply digits_all).
    rewrite Hhead at 1. cbn [String.eqb]. rewrite digits_value by lia.
    f_equal. f_equal. lia.
  - rewrite string_app_assoc, string_app_cons, string_app_nil.
    change (Ascii.eqb "-" "+") with false. change (Ascii.eqb "-" "-") with true.
    cbv iota.
    rewrite digits_prefix_app by (done || apply digits_all).
    rewrite Hhead at 1. cbn [String.eqb]. rewrite digits_value by lia.
    f_equal. f_equal. lia.
Qed.

(** A number literal in its parts: the digits of the integer, then a
    fraction and an exponent. *)
Lemma parse_number_parts (negative : bool) (c : ascii) (more frac : string)
  (exp : Z) (r1 r2 r3 : string) :
  all_chars is_digit (String c more) = true →
  (Ascii.eqb c "0" = true → more = EmptyString) →
  no_digit_ahead r1 = true →
  parse_fraction r1 = Some (frac, r2) →
  parse_exponent r2 = Some (exp, r3) →
  parse_number negative (String c more +:+ r1)
  = Some (of_decimal negative (decimal_value 0 (String c more +:+ frac))
            (exp - Z.of_nat (String.length frac)), r3).
Proof.
  intros Hint Hzero Hr1 Hfrac Hexp. unfold parse_number.
  rewrite digits_prefix_app by done.
  assert (Ascii.eqb c "0" && negb (String.eqb more "") = false) as ->.
  { destruct (Ascii.eqb c "0"); [|done]. by rewrite Hzero. }
  rewrite Hfrac. cbn [mbind option_bind]. rewrite Hexp. done.
Qed.

Lemma of_decimal_zeros (negative : bool) (s q : Z) :
  0 ≤ q → of_decimal negative (s * 10 ^ q) 0 = of_decimal negative s q.
Proof.
  intros Hq. unfold of_decimal, decimal.
  destruct (Z.leb_spec 0 q); [|lia]. cbn [Z.leb Z.compare].
  change (10 ^ 0) with 1. by rewrite Z.mul_1_r.
Qed.


Lemma drop_length (n : nat) (s : string) :
  String.length (Str.drop n s) = (String.length s - n)%nat.
Proof. revert s. induction n as [|n IH]; intros [|c r]; cbn; try done. Qed.

(** The text written for the digits [String c r] and the exponent [q]
    reads as the decimal of these digits and this exponent. *)
Lemma parse_number_written (negative : bool) (c : ascii) (r : string) (q : Z)
  (rest : string) :
  all_chars is_digit (String c r) = true → Ascii.eqb c "0" = false →
  delimited rest = true →
  parse_number negative
    (format (String c r) (Z.of_nat (String.length (String c r)) + q) +:+ rest)
  = Some (of_decimal negative (decimal_value 0 (String c r)) q, rest).
Proof.
  intros Hall Hc0 Hrest.
  pose proof (delimited_no_digit rest Hrest) as Hnd.
  assert (all_chars is_digit (String c EmptyString) = true) as Hc.
  { cbn [all_chars] in Hall |- *. apply andb_prop in Hall as [-> _]. done. }
  assert (all_chars is_digit r = true) as Hr.
  { cbn [all_chars] in Hall. by apply andb_prop in Hall as [_ ->]. }
  set (k := Z.of_nat (String.length (String c r))).
  assert (k = 1 + Z.of_nat (String.length r)) as Hk.
  { unfold k. cbn [String.length]. lia. }
  set (n := k + q). unfold format. fold k.
  destruct ((k <=? n) && (n <=? 21)) eqn:HA.
  { apply andb_prop in HA as [HA _]. apply Z.leb_le in HA.
    rewrite string_app_assoc, string_app_cons.
    replace (String c (r +:+ zeros (Z.to_nat (n - k)) +:+ rest))
      with (String c (r +:+ zeros (Z.to_nat (n - k))) +:+ rest)
      by (by rewrite string_app_cons, string_app_assoc).
    rewrite (parse_number_parts negative c _ "" 0 rest rest rest);
      [| |congruence|done|by apply parse_fraction_none
       |by apply parse_exponent_none].
    - rewrite string_app_nil_r, <- string_app_cons.
      rewrite decimal_value_app, decimal_value_zeros.
      rewrite Z2Nat.id by lia. replace (n - k) with q by lia.
      change (0 - Z.of_nat (String.length "")) with 0.
      by rewrite of_decimal_zeros by lia.
    - rewrite <- string_app_cons, all_chars_app, Hall. apply zeros_all. }
  destruct ((0 <? n) && (n <=? 21)) eqn:HB.
  { apply andb_prop in HB as [HB HB']. apply Z.ltb_lt in HB.
    rewrite HB', andb_true_r in HA. apply Z.leb_gt in HA.
    destruct (Z.to_nat n) as [|n'] eqn:Hn; [lia|].
    cbn [Str.take Str.drop].
    destruct (all_chars_split is_digit n' r Hr) as [Htake Hdrop].
    rewrite !string_app_assoc, !string_app_cons, string_app_nil.
    rewrite <- (string_app_cons c (Str.take n' r)).
    rewrite (parse_number_parts negative c _ (Str.drop n' r) 0 _ rest rest);
      [| |congruence|done| |by apply parse_exponent_none].
    - rewrite string_app_cons, take_drop. f_equal. f_equal. f_equal.
      rewrite drop_length. lia.
    - cbn [all_chars] in Hc |- *. apply andb_prop in Hc as [-> _]. done.
    - apply parse_fraction_some; [done| |done].
      intros Hempty. pose proof (drop_length n' r) as Hlen.
      rewrite Hempty in Hlen. cbn [String.length] in Hlen. lia. }
  destruct ((-6 <? n) && (n <=? 0)) eqn:HC.
  { apply andb_prop in HC as [_ HC]. apply Z.leb_le in HC.
    change (("0." +:+ ?X) +:+ ?Y) with (String "0" "" +:+ String "." (X +:+ Y)).
    rewrite (parse_number_parts negative "0" "" (zeros (Z.to_nat (- n)) +:+ String c r)
               0 _ rest rest);
      [|done|done|done| |by apply parse_exponent_none].
    - rewrite string_app_cons, string_app_nil.
      change (decimal_value 0 (String "0" ?X)) with (decimal_value 0 X).
      rewrite decimal_value_app, decimal_value_zeros, Z.mul_0_l.
      f_equal. f_equal. f_equal.
      rewrite string_app_length, zeros_length. fold k. lia.
    - apply parse_fraction_some; [|by destruct (zeros _)|done].
      by rewrite all_chars_app, zeros_all. }
  assert (n - 1 - Z.of_nat (String.length r) = q) as Hq by lia.
  destruct r as [|c2 r2].
  - change (String c ("e" +:+ ?X) +:+ ?Y)
      with (String c "" +:+ String "e" (X +:+ Y)).
    rewrite (parse_number_parts negative c "" "" (n - 1) _
               (String "e" (((if 0 <=? n - 1 then "+" else "-")
                              +:+ digits (Z.abs (n - 1))) +:+ rest)) rest);
      [|done|congruence|done|reflexivity|by apply parse_exponent_some].
    f_equal. f_equal. f_equal. cbn [String.length] in *. lia.
  - change (String c ("." +:+ ?R +:+ "e" +:+ ?X) +:+ ?Y)
      with (String c "" +:+ String "." ((R +:+ String "e" X) +:+ Y)).
    rewrite (string_app_assoc (String c2 r2)).
    change (String "e" ?X +:+ ?Y) with (String "e" (X +:+ Y)).
    rewrite (parse_number_parts negative c "" (String c2 r2) (n - 1) _
               (String "e" (((if 0 <=? n - 1 then "+" else "-")
                              +:+ digits (Z.abs (n - 1))) +:+ rest)) rest);
      [|done|congruence|done| |by apply parse_exponent_some].
    + rewrite Hq. reflexivity.
    + by apply parse_fraction_some.
Qed.

(** The text written for the digits of [s] and the exponent [q] reads
    as the decimal [s * 10 ^ q]. *)
Lemma parse_number_format (negative : bool) (s q : Z) (rest : string) :
  0 < s → delimited rest = true →
  parse_number negative
    (format (digits s) (Z.of_nat (String.length (digits s)) + q) +:+ rest)
  = Some (of_decimal negative s q, rest).
Proof.
  intros Hs Hrest.
  pose proof (digits_all s) as Hall.
  pose proof (digits_value s ltac:(lia)) as Hvalue.
  destruct (digits_head s) as (c & r & Hds & _ & Hc0).
  rewrite Hds in *.
  by rewrite parse_number_written, Hvalue by auto.
Qed.


End numbers.

Lemma skip_ws_white (w X : string) : white w → skip_ws (w +:+ X) = skip_ws X.
Proof.
  unfold white. induction w as [|c r IH]; [done|].
  rewrite string_app_cons. cbn [skip_ws].
  destruct (_ || _); [exact IH|done].
Qed.

Lemma white_app (a b : string) : white a → white b → white (a +:+ b).
Proof. intros Ha Hb. unfold white. by rewrite skip_ws_white. Qed.

Lemma white_nl : white nl.
Proof. reflexivity. Qed.

Lemma white_spaces (n : nat) :
  white (string_of_list_ascii (replicate n " "%char)).
Proof. induction n as [|n IH]; [done|]. exact IH. Qed.

Lemma skip_ws_opener (c : ascii) (X : string) :
  opener c = true → skip_ws (String c X) = String c X.
Proof.
  unfold opener. cbn [skip_ws]. by destruct (_ || _).
Qed.

Lemma parse_value_skip (fuel : nat) (s s' : string) :
  skip_ws s = skip_ws s' → parse_value fuel s = parse_value fuel s'.
Proof. intros H. destruct fuel; [done|]. simpl. by rewrite H. Qed.

Lemma parse_items_skip (fuel : nat) (s s' : string) :
  skip_ws s = skip_ws s' → parse_items fuel s = parse_items fuel s'.
Proof.
  intros H. destruct fuel; [done|].
  cbn [parse_items]. by rewrite (parse_value_skip fuel s s' H).
Qed.

Lemma parse_members_skip (fuel : nat) (s s' : string) :
  skip_ws s = skip_ws s' → parse_members fuel s = parse_members fuel s'.
Proof. intros H. destruct fuel; [done|]. simpl. by rewrite H. Qed.

Lemma delimited_white (w : string) (c : ascii) (X : string) :
  white w → delimited (String c X) = true → delimited (w +:+ String c X) = true.
Proof.
  destruct w as [|a r]; [done|]. unfold white. rewrite string_app_cons.
  cbn [skip_ws delimited]. intros Hw _.
  destruct a as [[] [] [] [] [] [] [] []]; try done.
Qed.

Lemma opener_digit (c : ascii) : Number.is_digit c = true → opener c = true.
Proof. destruct c as [[] [] [] [] [] [] [] []]; done. Qed.

Lemma parse_value_digit (fuel : nat) (c : ascii) (X : string) :
  Number.is_digit c = true →
  parse_value (S fuel) (String c X)
  = '(x, rest) ← Number.parse_number false (String c X);
    Some (jnumber x, rest).
Proof. destruct c as [[] [] [] [] [] [] [] []]; done. Qed.

(** The text of a number starts with a digit. *)
Lemma format_head (c : ascii) (r : string) (n : Z) :
  ∃ t, Number.format (String c r) n = String c t
       ∨ Number.format (String c r) n = String "0" t.
Proof.
  unfold Number.format.
  destruct (_ && _); [eexists; by left|].
  destruct ((0 <? n)%Z && (n <=? 21)%Z) eqn:HB.
  { apply andb_prop in HB as [HB _]. apply Z.ltb_lt in HB.
    destruct (Z.to_nat n) as [|n'] eqn:Hn; [lia|]. eexists. by left. }
  destruct ((-6 <? n)%Z && (n <=? 0)%Z); [eexists; by right|].
  destruct r; eexists; by left.
Qed.

Lemma to_string_head (negative : bool) (m e : Z) :
  ∃ c t, Number.to_string (Number.finite negative m e) = String c t
         ∧ opener c = true.
Proof.
  unfold Number.to_string. destruct (m =? 0)%Z; [by eexists _, _|].
  destruct (Number.shortest_decimal m e) as [s q].
  destruct negative; [by eexists _, _|].
  destruct (digits_head s) as (c & r & -> & Hc & _).
  destruct (format_head c r (Z.of_nat (String.length (String c r)) + q))
    as [t [Ht|Ht]]; rewrite string_app_nil, Ht.
  - exists c, t. split; [done|]. by apply opener_digit.
  - by eexists _, _.
Qed.

Lemma parse_value_array (fuel : nat) (X J : string) (c : ascii) :
  skip_ws X = String c J → opener c = true →
  parse_value (S fuel) (String "[" X)
  = '(items, rest) ← parse_items fuel (String c J); Some (jarray items, rest).
Proof.
  intros HX Hc. cbn [parse_value skip_ws]. simpl. rewrite HX.
  destruct c as [[] [] [] [] [] [] [] []]; done.
Qed.

Lemma parse_value_object (fuel : nat) (X J : string) (c : ascii) :
  skip_ws X = String c J → opener c = true →
  parse_value (S fuel) (String "{" X)
  = '(members, rest) ← parse_members fuel (String c J);
    Some (object_of members, rest).
Proof.
  intros HX Hc. cbn [parse_value skip_ws]. simpl. rewrite HX.
  destruct c as [[] [] [] [] [] [] [] []]; done.
Qed.

Lemma serialize_proper (gap indent : string) (v : Json) :
  proper v = true → is_Some (serialize gap indent v).
Proof. destruct v as [| |[]| | | |]; by eauto. Qed.

(** The text of an array or object that has parts. *)
Lemma wrap_parts (gap indent : string) (o c : ascii) (part : string)
  (parts : list string) :
  ∃ lead trail,
    wrap gap indent (String o "") (String c "") (part :: parts)
    = String o (lead +:+ Str.concat_with ("," +:+ lead) (part :: parts)
                +:+ trail +:+ String c "")
    ∧ (white gap → white indent → white lead ∧ white trail).
Proof.
  unfold wrap. destruct (String.eqb gap "").
  - exists ""%string, ""%string. split; [|done].
    by rewrite !string_app_cons, !string_app_nil.
  - exists (nl +:+ (indent +:+ gap)), (nl +:+ indent). split.
    + rewrite !string_app_cons, !string_app_nil, !string_app_assoc. done.
    + intros Hg Hi. split; apply white_app; try done; by apply white_app.
Qed.

Lemma serialize_head (gap indent : string) (v : Json) (text : string) :
  serialize gap indent v = Some text →
  ∃ c t, text = String c t ∧ opener c = true.
Proof.
  destruct v as [| |[]|n|s|items|members]; simpl; try done.
  - intros [= <-]. by eexists _, _.
  - intros [= <-]. by eexists _, _.
  - intros [= <-]. by eexists _, _.
  - intros [= <-]. destruct n as [| |negative m e]; [by eexists _, _..|].
    apply to_string_head.
  - intros [= <-]. by eexists _, _.
  - intros [= <-].
    destruct (map _ items) as [|part parts]; [by eexists _, _|].
    destruct (wrap_parts gap indent "[" "]" part parts) as (l & t & -> & _).
    by eexists _, _.
  - intros [= <-].
    destruct (flat_map _ members) as [|part parts]; [by eexists _, _|].
    destruct (wrap_parts gap indent "{" "}" part parts) as (l & t & -> & _).
    by eexists _, _.
Qed.

Lemma concat_with_cons2 (sep x y : string) (l : list string) :
  Str.concat_with sep (x :: y :: l) = x +:+ sep +:+ Str.concat_with sep (y :: l).
Proof. reflexivity. Qed.

Lemma concat_with_single (sep x : string) : Str.concat_with sep [x] = x.
Proof. reflexivity. Qed.

Lemma concat_with_head (sep : string) (c : ascii) (t : string)
  (l : list string) :
  ∃ J, Str.concat_with sep (String c t :: l) = String c J.
Proof. destruct l; by eexists. Qed.

Lemma delimited_comma (X : string) : delimited (String "," X) = true.
Proof. reflexivity. Qed.

Section items.
Context (gap inner lead trail rest : string).
Hypothesis (Hgap : white gap) (Hinner : white inner).
Hypothesis (Hlead : white lead) (Htrail : white trail).

Lemma parse_items_joined (items : list Json) :
  Forall reads_back items → forallb proper items = true → items ≠ [] →
  ∀ fuel,
    String.length
      (Str.concat_with ("," +:+ lead) (map (item_text gap inner) items)) + 1
    < fuel →
    parse_items fuel
      (Str.concat_with ("," +:+ lead) (map (item_text gap inner) items)
       +:+ trail +:+ String "]" rest)
    = Some (map positive_zeros items, rest).
Proof.
  induction items as [|x items IH]; [done|].
  intros Hall Hproper _ fuel Hfuel.
  apply Forall_cons in Hall as [Hx Hall].
  simpl in Hproper. apply andb_prop in Hproper as [Hpx Hproper].
  destruct (serialize_proper gap inner x Hpx) as [t Ht].
  assert (item_text gap inner x = t) as Htx by (unfold item_text; by rewrite Ht).
  destruct fuel as [|fuel]; [lia|].
  destruct items as [|y items].
  - simpl in *. rewrite Htx in *. cbn [parse_items].
    rewrite (Hx gap inner t fuel (trail +:+ String "]" rest) Hgap Hinner Ht);
      [|lia|by apply delimited_white].
    cbn [mbind option_bind]. rewrite skip_ws_white by done. done.
  - cbn [map] in Hfuel |- *. rewrite concat_with_cons2 in Hfuel |- *.
    rewrite Htx in Hfuel |- *.
    rewrite !string_app_assoc. rewrite !string_app_length in Hfuel.
    cbn [parse_items].
    rewrite (Hx gap inner t fuel _ Hgap Hinner Ht);
      [|lia|by rewrite string_app_cons].
    cbn [mbind option_bind]. rewrite string_app_cons, string_app_nil.
    cbn [skip_ws]. simpl.
    rewrite (parse_items_skip fuel _
      (Str.concat_with ("," +:+ lead) (map (item_text gap inner) (y :: items))
       +:+ trail +:+ String "]" rest)) by (by rewrite skip_ws_white).
    rewrite IH; [done|done|done|done|].
    change (String.length ",") with 1 in Hfuel. cbn [map]. lia.
Qed.
End items.

Lemma quote_app (k X : string) :
  quote k +:+ X = String dq (quote_body k +:+ String dq X).
Proof.
  unfold quote. by rewrite string_app_assoc, !string_app_cons, string_app_nil.
Qed.

Lemma parse_members_key (fuel : nat) (X : string) :
  parse_members (S fuel) (String dq X)
  = '(k, r1) ← parse_chars X;
    match skip_ws r1 with
    | String ":" r2 =>
        '(item, r3) ← parse_value fuel r2;
        match skip_ws r3 with
        | String "," r' =>
            '(members, rest) ← parse_members fuel r';
            Some ((k, item) :: members, rest)
        | String "}" rest => Some ([(k, item)], rest)
        | _ => None
        end
    | _ => None
    end.
Proof. reflexivity. Qed.

Section members.
Context (gap inner lead trail rest : string).
Hypothesis (Hgap : white gap) (Hinner : white inner).
Hypothesis (Hlead : white lead) (Htrail : white trail).

Lemma parse_members_joined (members : list (string * Json)) :
  Forall (λ kv, reads_back (snd kv)) members →
  forallb (λ '(_, x), proper x) members = true → members ≠ [] →
  ∀ fuel,
    String.length
      (Str.concat_with ("," +:+ lead) (member_texts gap inner members)) + 1
    < fuel →
    parse_members fuel
      (Str.concat_with ("," +:+ lead) (member_texts gap inner members)
       +:+ trail +:+ String "}" rest)
    = Some (map (λ '(k, x), (k, positive_zeros x)) members, rest).
Proof.
  set (colon := if String.eqb gap "" then ":"%string else ": "%string).
  assert (∃ sp, colon = String ":" sp ∧ white sp) as (sp & Hcolon & Hsp).
  { unfold colon. destruct (String.eqb gap ""); by eexists. }
  induction members as [|[k x] members IH]; [done|].
  intros Hall Hproper _ fuel Hfuel.
  apply Forall_cons in Hall as [Hx Hall]. simpl in Hx.
  simpl in Hproper. apply andb_prop in Hproper as [Hpx Hproper].
  destruct (serialize_proper gap inner x Hpx) as [t Ht].
  assert (member_texts gap inner ((k, x) :: members)
          = (quote k +:+ colon +:+ t) :: member_texts gap inner members)
    as Hparts.
  { unfold member_texts. fold colon. simpl. by rewrite Ht. }
  rewrite Hparts in Hfuel |- *. clear Hparts.
  destruct fuel as [|fuel]; [lia|].
  assert (∀ R, delimited R = true →
            String.length t < fuel →
            parse_members (S fuel) ((quote k +:+ colon +:+ t) +:+ R)
            = match skip_ws R with
              | String "," r' =>
                  '(members, rest) ← parse_members fuel r';
                  Some ((k, positive_zeros x) :: members, rest)
              | String "}" rest => Some ([(k, positive_zeros x)], rest)
              | _ => None
              end) as Hstep.
  { intros R HR Hlen. rewrite Hcolon.
    rewrite !string_app_assoc, quote_app, parse_members_key.
    rewrite parse_chars_quote_body. cbn [mbind option_bind].
    rewrite string_app_cons. cbn [skip_ws]. simpl.
    rewrite (parse_value_skip fuel _ (t +:+ R))
      by (by rewrite skip_ws_white).
    rewrite (Hx gap inner t fuel R Hgap Hinner Ht Hlen HR). done. }
  destruct members as [|[k' y] members].
  - change (member_texts gap inner []) with (@nil string) in Hfuel |- *.
    rewrite concat_with_single in Hfuel |- *.
    rewrite !string_app_length in Hfuel.
    rewrite Hstep; [|by apply delimited_white|lia].
    rewrite skip_ws_white by done. done.
  - assert (∃ part, member_texts gap inner ((k', y) :: members)
                    = part :: member_texts gap inner members)
      as [part Hpart].
    { simpl in Hproper. apply andb_prop in Hproper as [Hpy _].
      destruct (serialize_proper gap inner y Hpy) as [t' Ht'].
      eexists. unfold member_texts. fold colon. simpl. by rewrite Ht'. }
    specialize (IH Hall Hproper ltac:(done) fuel).
    rewrite Hpart in Hfuel, IH |- *. rewrite concat_with_cons2 in Hfuel |- *.
    rewrite !string_app_length in Hfuel.
    change (String.length ",") with 1 in Hfuel.
    rewrite (string_app_assoc (quote k +:+ colon +:+ t)).
    rewrite Hstep; [|by rewrite !string_app_assoc, string_app_cons|lia].
    rewrite !string_app_assoc, string_app_cons, string_app_nil.
    cbn [skip_ws]. simpl.
    rewrite (parse_members_skip fuel _
      (Str.concat_with ("," +:+ lead) (part :: member_texts gap inner members)
       +:+ trail +:+ String "}" rest)) by (by rewrite skip_ws_white).
    rewrite IH; [done|]. lia.
Qed.
End members.

Lemma put_fresh (key : string) (v : Json) (ps : list (string * Json)) :
  key ∉ map fst ps →
  forallb (λ k, negb (ahead key k)) (map fst ps) = true →
  put key v ps = ps ++ [(key, v)].
Proof.
  intros Hin Hlast. unfold put.
  assert (existsb (λ p, String.eqb (fst p) key) ps = false) as ->.
  { clear Hlast. induction ps as [|[k x] ps IH]; [done|]. simpl in Hin |- *.
    apply not_elem_of_cons in Hin as [Hne Hin].
    destruct (String.eqb_spec k key) as [->|_]; [done|]. by apply IH. }
  clear Hin. induction ps as [|[k x] ps IH]; [done|].
  simpl in Hlast |- *. apply andb_prop in Hlast as [Hk Hlast].
  apply negb_true_iff in Hk. by rewrite Hk, IH.
Qed.

(** The keys after a key of an ordered list do not come ahead of it. *)
Lemma ordered_middle (l1 l2 : list string) (k : string) :
  ordered (l1 ++ k :: l2) = true →
  forallb (λ a, negb (ahead k a)) l1 = true.
Proof.
  induction l1 as [|a l1 IH]; [done|]. simpl.
  intros [Ha Hrest]%andb_prop. rewrite forallb_app in Ha.
  apply andb_prop in Ha as [_ Ha]. simpl in Ha.
  apply andb_prop in Ha as [-> _]. by apply IH.
Qed.

Lemma fold_put_NoDup (members acc : list (string * Json)) :
  NoDup (map fst (acc ++ members)) →
  ordered (map fst (acc ++ members)) = true →
  fold_left (λ ps '(k, x), put k x ps) members acc = acc ++ members.
Proof.
  revert acc. induction members as [|[k x] members IH]; intros acc Hnd Hord.
  - by rewrite app_nil_r.
  - simpl. rewrite put_fresh.
    + rewrite IH; rewrite <- app_assoc; done.
    + rewrite map_app in Hnd. apply NoDup_app in Hnd as (_ & Hdisj & _).
      intros Hin. apply (Hdisj k Hin). simpl. by left.
    + rewrite map_app in Hord. by apply ordered_middle in Hord.
Qed.

(** A text whose members have keys that differ, in the order of the
    properties, gives the object with just these members. *)
Lemma object_of_NoDup (members : list (string * Json)) :
  NoDup (map fst members) → ordered (map fst members) = true →
  object_of members = jobject members.
Proof.
  intros Hnd Hord. unfold object_of. by rewrite (fold_put_NoDup members []).
Qed.

Lemma keys_positive_zeros (members : list (string * Json)) :
  map fst (map (λ '(k, x), (k, positive_zeros x)) members) = map fst members.
Proof. induction members as [|[k x] l IH]; [done|]. simpl. by rewrite IH. Qed.

(** What is written for a finite double reads as the double, but for
    the sign of a zero. *)
Lemma parse_value_to_string (fuel : nat) (negative : bool) (m e : Z)
  (rest : string) :
  Number.double m e = true → delimited rest = true →
  parse_value (S fuel) (Number.to_string (Number.finite negative m e) +:+ rest)
  = Some (jnumber (positive_zero (Number.finite negative m e)), rest).
Proof.
  intros Hd Hrest. pose proof (double_bounds m e Hd) as (Hm & He & Hsub).
  unfold Number.to_string. destruct (Z.eqb_spec m 0) as [->|Hm0].
  - rewrite Hsub by done. rewrite string_app_cons, string_app_nil.
    rewrite parse_value_digit by done.
    rewrite <- (string_app_nil rest) at 1. rewrite <- string_app_cons.
    rewrite (parse_number_parts false "0" "" "" 0 rest rest rest);
      [|done|done|by apply delimited_no_digit|by apply parse_fraction_none
       |by apply parse_exponent_none].
    by vm_compute.
  - assert (positive_zero (Number.finite negative m e)
            = Number.finite negative m e) as -> by (by destruct m).
    destruct (shortest_decimal_reads m e Hd ltac:(lia)) as [Hreads Hpos].
    destruct (Number.shortest_decimal m e) as [s q]. cbn [fst] in Hpos.
    pose proof (parse_number_format negative s q rest Hpos Hrest) as Hparse.
    rewrite (reads_as_sound m e s q Hreads) in Hparse.
    destruct negative.
    + rewrite string_app_assoc, string_app_cons, string_app_nil.
      change (parse_value (S fuel) (String "-" ?X))
        with ('(x, rest) ← Number.parse_number true X; Some (jnumber x, rest)).
      by rewrite Hparse.
    + rewrite string_app_nil.
      destruct (digits_head s) as (c & r & Hds & Hc & _).
      rewrite Hds in Hparse |- *.
      destruct (format_head c r (Z.of_nat (String.length (String c r)) + q))
        as [t [Ht|Ht]]; rewrite Ht in Hparse |- *;
        rewrite string_app_cons in Hparse |- *;
        rewrite parse_value_digit by done; by rewrite Hparse.
Qed.

(** The parser reads back what the serializer wrote for a JSON value. *)
Lemma proper_reads_back (v : Json) : proper v = true → reads_back v.
Proof.
  induction v as [| |b|n|s|items IH|members IH] using Json_nested_ind;
    intros Hproper gap indent text fuel rest Hgap Hindent Hser Hfuel Hrest;
    (destruct fuel as [|fuel]; [lia|]).
  - done.
  - injection Hser as <-. done.
  - destruct b; injection Hser as <-; done.
  - destruct n as [| |negative m e]; [done..|].
    injection Hser as <-. by apply parse_value_to_string.
  - injection Hser as <-. rewrite quote_app.
    change (parse_value (S fuel) (String dq ?X))
      with ('(text, rest) ← parse_chars X; Some (jstring text, rest)).
    by rewrite parse_chars_quote_body.
  - simpl in Hproper, Hser. injection Hser as <-.
    assert (Forall reads_back items) as Hall.
    { clear -IH Hproper. induction IH as [|x l Hx _ IHl]; [done|].
      simpl in Hproper. apply andb_prop in Hproper as [??].
      constructor; auto. }
    destruct items as [|x items]; [done|].
    cbn [map] in Hfuel |- *.
    destruct (wrap_parts gap indent "[" "]"
                (default "null"%string (serialize gap (indent +:+ gap) x))
                (map (λ x, default "null"%string (serialize gap (indent +:+ gap) x))
                   items))
      as (lead & trail & Hwrap & Hwhite).
    destruct (Hwhite Hgap Hindent) as [Hlead Htrail].
    rewrite Hwrap in Hfuel |- *. clear Hwrap Hwhite.
    pose proof (parse_items_joined gap (indent +:+ gap) lead trail rest
                  Hgap (white_app _ _ Hindent Hgap) Hlead Htrail
                  (x :: items) Hall Hproper ltac:(done) fuel) as Hitems.
    cbn [map] in Hitems. unfold item_text in Hitems.
    simpl in Hproper. apply andb_prop in Hproper as [Hpx Hproper].
    destruct (serialize_proper gap (indent +:+ gap) x Hpx) as [t Ht].
    destruct (serialize_head _ _ _ _ Ht) as (c & t' & -> & Hc).
    rewrite Ht in Hitems, Hfuel |- *.
    change (default "null"%string (Some (String c t'))) with (String c t') in *.
    destruct (concat_with_head ("," +:+ lead) c t'
                (map (λ x, default "null"%string (serialize gap (indent +:+ gap) x))
                   items)) as [J HJ].
    rewrite HJ in Hitems, Hfuel |- *.
    cbn [String.length] in Hfuel. rewrite !string_app_length in Hfuel.
    cbn [String.length] in Hfuel, Hitems.
    rewrite string_app_cons, !string_app_assoc, !string_app_cons, !string_app_nil.
    rewrite (parse_value_array fuel _ (J +:+ trail +:+ String "]" rest) c).
    + rewrite !string_app_cons in Hitems. rewrite Hitems; [done|lia].
    + by rewrite skip_ws_white, skip_ws_opener.
    + exact Hc.
  - simpl in Hproper, Hser. injection Hser as <-.
    apply andb_prop in Hproper as [Hnodup Hproper].
    apply andb_prop in Hnodup as [Hnodup Hord].
    apply bool_decide_eq_true in Hnodup.
    rewrite <- keys_positive_zeros in Hnodup, Hord.
    apply object_of_NoDup in Hnodup; [|done]. clear Hord.
    assert (Forall (λ kv, reads_back (snd kv)) members) as Hall.
    { clear -IH Hproper. induction IH as [|[k x] l Hx _ IHl]; [done|].
      simpl in Hproper. apply andb_prop in Hproper as [??].
      constructor; auto. }
    destruct members as [|[k x] members]; [done|].
    assert (∃ t, serialize gap (indent +:+ gap) x = Some t) as [t Ht].
    { simpl in Hproper. apply andb_prop in Hproper as [Hpx _].
      by apply serialize_proper. }
    pose proof (λ lead trail Hlead Htrail,
                  parse_members_joined gap (indent +:+ gap) lead trail rest
                    Hgap (white_app _ _ Hindent Hgap) Hlead Htrail
                    ((k, x) :: members) Hall Hproper ltac:(done) fuel)
      as Hmembers.
    cbv beta zeta in Hmembers. unfold member_texts in Hmembers.
    set (parts := flat_map _ ((k, x) :: members)) in *.
    assert (∃ part rest_parts, parts = String dq part :: rest_parts)
      as (part & rest_parts & Hparts).
    { unfold parts. simpl. rewrite Ht. unfold quote.
      rewrite !string_app_cons. by eexists _, _. }
    clearbody parts. subst parts.
    destruct (wrap_parts gap indent "{" "}" (String dq part) rest_parts)
      as (lead & trail & Hwrap & Hwhite).
    destruct (Hwhite Hgap Hindent) as [Hlead Htrail].
    specialize (Hmembers lead trail Hlead Htrail).
    rewrite Hwrap in Hfuel |- *.
    destruct (concat_with_head ("," +:+ lead) dq part rest_parts) as [J HJ].
    rewrite HJ in Hmembers, Hfuel |- *.
    cbn [String.length] in Hfuel. rewrite !string_app_length in Hfuel.
    cbn [String.length] in Hfuel, Hmembers.
    rewrite string_app_cons, !string_app_assoc, !string_app_cons, !string_app_nil.
    rewrite (parse_value_object fuel _ (J +:+ trail +:+ String "}" rest) dq).
    + rewrite !string_app_cons in Hmembers. rewrite Hmembers; [|lia].
      cbn [mbind option_bind]. by rewrite Hnodup.
    + by rewrite skip_ws_white, skip_ws_opener.
    + done.
Qed.

(** [JSON.parse] reads back what [JSON.stringify] wrote for a JSON
    value, with any indentation: the value itself, but for the sign of
    a zero. *)
Lemma parse_stringify (v : Json) (space : nat) :
  proper v = true →
  ∃ text,
    stringify v space = Some text ∧ JSON.parse text = Ok (positive_zeros v).
Proof.
  intros Hv. unfold stringify.
  destruct (serialize_proper
              (string_of_list_ascii (replicate (Nat.min space 10) " "%char))
              "" v Hv) as [text Htext].
  exists text. split; [done|]. unfold JSON.parse.
  assert (white "") as Hempty by reflexivity.
  pose proof (proper_reads_back v Hv _ _ text (S (String.length text)) ""
                (white_spaces _) Hempty Htext ltac:(lia) eq_refl) as Hread.
  rewrite string_app_nil_r in Hread. by rewrite Hread.
Qed.

(** A value without its signs of zero is deep-equal to the value. *)
Lemma positive_zeros_deep_equal (v : Json) :
  proper v = true → deep_equal (positive_zeros v) v.
Proof.
  induction v as [| |b|x|s|items IH|members IH] using Json_nested_ind;
    intros Hproper; try by constructor.
  - constructor. destruct x as [| |negative m e]; [done..|].
    destruct m; simpl; rewrite ?Z.eqb_refl, ?Pos.eqb_refl; try done;
      by destruct negative.
  - simpl in Hproper |- *. constructor.
    induction IH as [|x l Hx _ IHl]; [constructor|].
    simpl in Hproper. apply andb_prop in Hproper as [??].
    constructor; auto.
  - simpl in Hproper |- *. apply andb_prop in Hproper as [_ Hproper].
    constructor.
    induction IH as [|[k x] l Hx _ IHl]; [constructor|].
    simpl in Hproper. apply andb_prop in Hproper as [??].
    constructor; auto.
Qed.

(** ** Reading and writing documents *)

Lemma no_file_in (l : list string) (w : World) :
  (∀ p, p ∈ l → files w !! p = None) →
  existsb (λ p, bool_decide (p ∈ dom (files w))) l = false.
Proof.
  induction l as [|x l IH]; intros H; simpl; [done|].
  rewrite IH by (intros p Hp; apply H; by right).
  rewrite bool_decide_eq_false_2; [done|].
  rewrite elem_of_dom, (H x) by left. by intros [? ?].
Qed.

Lemma lineage_head (fuel : nat) (d : string) : d ∈ fs.lineage fuel d.
Proof.
  destruct fuel; simpl; [by left|].
  destruct (String.eqb (path.dirname d) d); by left.
Qed.

Lemma createDir_Ok (d : string) (w : World) :
  can_be_directory d w →
  fs.createDir d w
  = (set_dirs (dirs w ∪ list_to_set (fs.lineage (String.length d) d)) w, Ok tt).
Proof. intros H. unfold fs.createDir. by rewrite (no_file_in _ _ H). Qed.

(** [getFileName] reads nothing of the world but [currentDataPath]. *)
Lemma getFileName_frame (key : string) (options : StorageOptions)
  (w w1 : World) (f : string) :
  currentDataPath w1 = currentDataPath w →
  getFileName key options w = (w, Ok f) →
  getFileName key options w1 = (w1, Ok f).
Proof.
  intros Hcur. unfold getFileName.
  destruct (truthy (vstring key)); [|done]. simpl.
  destruct (Str.trims_to_empty key); [done|].
  unfold mbind, Async_bind, js_or.
  destruct (truthy (of_string_opt (dataPath options))) eqn:Ht.
  - simpl. rewrite Ht. simpl.
    destruct (dataPath options) as [d|]; [|done]. simpl.
    by intros [= <-].
  - unfold getDataPath, mbind, Async_bind, js_or. simpl. rewrite Hcur.
    destruct (currentDataPath w) as [d|]; simpl; [|done].
    destruct (String.eqb d ""); simpl; [done|].
    by intros [= <-].
Qed.

(** A read that meets [n] permission errors and then none. *)
Lemma readFile_transient (fileName : string) (n : nat) (w : World) :
  transient_faults n w →
  snd (readFile fileName 0 w) =
  match files w !! fileName with
  | Some text => Ok text
  | None =>
      if bool_decide (fileName ∈ dirs w) then Throw (fs_error "EISDIR")
      else Ok empty_text
  end.
Proof.
  intros [Hn Hf].
  rewrite (readFile_EPERM_prefix n fileName 0 [] w) by (rewrite ?app_nil_r; done || lia).
  rewrite readFile_last by done.
  unfold fs.readTextFile. simpl.
  destruct (files w !! fileName); [done|]. by case_bool_decide.
Qed.

(** With a valid key and a data directory, [getFileName] answers the
    file of the key in that directory. *)
Lemma getFileName_resolves (key : string) (options : StorageOptions)
  (w : World) (d : string) :
  valid_key key → directory_of options w = Some d →
  getFileName key options w = (w, Ok (file_of d key)).
Proof.
  intros [Hkey Hblank] Hdir. unfold getFileName, file_of. simpl.
  destruct (String.eqb_spec key ""); [done|]. simpl. rewrite Hblank.
  unfold directory_of, given in Hdir.
  unfold mbind, Async_bind, js_or.
  destruct (dataPath options) as [dp|]; simpl.
  - destruct (String.eqb dp "") eqn:Hdp; simpl.
    + unfold getDataPath, mbind, Async_bind, js_or. simpl.
      destruct (currentDataPath w) as [cur|]; [|done]. simpl.
      destruct (String.eqb_spec cur ""); [done|]. simpl.
      by injection Hdir as ->.
    + injection Hdir as ->. simpl.
      by destruct (String.eqb_spec d "").
  - unfold getDataPath, mbind, Async_bind, js_or. simpl.
    destruct (currentDataPath w) as [cur|]; [|done]. simpl.
    destruct (String.eqb_spec cur ""); [done|]. simpl.
    by injection Hdir as ->.
Qed.

(** C2: for a valid key in a data directory, when nothing exists at the
    path of the key's file, [get] returns the empty object and raises
    no error; up to ten permission errors met by the read change
    nothing to that. *)
Theorem get_without_file (key : string) (options : StorageOptions)
  (w : World) (d : string) (n : nat) :
  valid_key key →
  directory_of options w = Some d →
  nothing_at (file_of d key) w →
  can_be_directory (path.dirname (file_of d key)) w →
  transient_faults n w →
  snd (get key options w) = Ok empty_object.
Proof.
  intros Hkey Hdir [Hnone Hnodir] Hcan Hfaults.
  pose proof (getFileName_resolves key options w d Hkey Hdir) as Hf.
  set (f := file_of d key) in *.
  unfold get, mbind, Async_bind.
  destruct options as [dp]. simpl. rewrite Hf.
  rewrite (createDir_Ok _ _ Hcan).
  pose proof (readFile_transient f n
    (set_dirs (dirs w ∪ list_to_set
       (fs.lineage (String.length (path.dirname f)) (path.dirname f))) w)
    Hfaults) as Hread.
  destruct (readFile f 0 _) as [w2 out]. simpl in Hread. subst out.
  rewrite Hnone. rewrite bool_decide_eq_false_2; [done|].
  rewrite elem_of_union, elem_of_list_to_set.
  intros [Hin|Hin]; [done|].
  by apply (getFileName_not_lineage _ _ _ _ _ _ Hf) in Hin.
Qed.

Lemma get_without_file_witness :
  snd (get "foo" in_data (set_faults ["EPERM"%string; "EPERM"%string] fresh))
  = Ok empty_object.
Proof.
  apply (get_without_file "foo" in_data _ "/data" 2).
  - split; [done|reflexivity].
  - reflexivity.
  - split; [reflexivity|]. by vm_compute.
  - intros p Hp. reflexivity.
  - split; [lia|reflexivity].
Defined.

(** C1: for a valid key in a data directory and a JSON document [json],
    whose numbers are any finite doubles, [set] stores the document and
    a following [get] of the key with the same data directory returns
    a value deep-equal to it: [json] itself, but that a zero comes back
    without its sign.  The path of the file must be free for a regular
    file, and the reads may meet up to ten permission errors. *)
Theorem set_then_get (key : string) (json : Json) (options : WriteOptions)
  (w : World) (d : string) (n : nat) :
  valid_key key →
  directory_of (storage options) w = Some d →
  proper json = true →
  file_of d key ∉ dirs w →
  can_be_directory (path.dirname (file_of d key)) w →
  transient_faults n w →
  ∃ w1, set key json options w = (w1, Ok tt)
        ∧ snd (get key (storage options) w1) = Ok (positive_zeros json)
        ∧ deep_equal (positive_zeros json) json.
Proof.
  intros Hkey Hdir Hproper Hnodir Hcan Hfaults.
  pose proof (getFileName_resolves key (storage options) w d Hkey Hdir) as Hf.
  set (f := file_of d key) in *.
  assert (f ∉ fs.lineage (String.length (path.dirname f)) (path.dirname f))
    as Hnl by apply (getFileName_not_lineage _ _ _ _ _ _ Hf).
  destruct (parse_stringify json
              (if default false (prettyPrinting options) then 2 else 0) Hproper)
    as (data & Hdata & Hparse).
  assert (String.eqb data "" = false) as Hne.
  { destruct (String.eqb_spec data "") as [->|]; [|done]. by vm_compute in Hparse. }
  set (line := fs.lineage (String.length (path.dirname f)) (path.dirname f)) in *.
  set (w1 := set_files (<[f:=data]> (files w))
               (set_dirs (dirs w ∪ list_to_set line) w)).
  exists w1. split; [|split; [|by apply positive_zeros_deep_equal]].
  - unfold set, mbind, Async_bind.
    destruct (storage options) as [dp]. simpl. rewrite Hf, Hdata, Hne.
    rewrite (createDir_Ok _ _ Hcan). fold line.
    unfold fs.writeFile. simpl.
    rewrite bool_decide_eq_false_2;
      [|rewrite elem_of_union, elem_of_list_to_set; by intros [|]].
    rewrite bool_decide_eq_true_2; [done|].
    pose proof (lineage_head (String.length (path.dirname f)) (path.dirname f)).
    rewrite elem_of_union, elem_of_list_to_set. by right.
  - assert (can_be_directory (path.dirname f) w1) as Hcan1.
    { intros p Hp. simpl. rewrite lookup_insert_ne; [by apply Hcan|].
      intros <-. done. }
    unfold get, mbind, Async_bind.
    destruct (storage options) as [dp]. simpl.
    rewrite (getFileName_frame _ _ w w1 f eq_refl Hf).
    rewrite (createDir_Ok _ _ Hcan1).
    pose proof (readFile_transient f n
      (set_dirs (dirs w1 ∪ list_to_set line) w1) Hfaults) as Hread.
    destruct (readFile f 0 _) as [w2 out]. simpl in Hread. subst out.
    rewrite lookup_insert_eq. simpl. unfold of_outcome.
    by rewrite Hparse.
Qed.

Lemma set_then_get_witness :
  ∃ w1,
    set "user-prefs" settings
      {| storage := in_data; validate := None; prettyPrinting := Some true |}
      (set_faults ["EPERM"%string] fresh) = (w1, Ok tt)
    ∧ snd (get "user-prefs" in_data w1) = Ok (positive_zeros settings)
    ∧ deep_equal (positive_zeros settings) settings.
Proof.
  apply (set_then_get "user-prefs" settings
           {| storage := in_data; validate := None; prettyPrinting := Some true |}
           (set_faults ["EPERM"%string] fresh) "/data" 1).
  - split; [done|reflexivity].
  - reflexivity.
  - by vm_compute.
  - by vm_compute.
  - intros p Hp. reflexivity.
  - split; [lia|reflexivity].
Defined.


(** * Further properties of the code *)

(** ** Names of files, for every key *)

Lemma getDataPath_Ok (w : World) :
  getDataPath w = (w, Ok (of_string_opt (currentDataPath w))).
Proof.
  unfold getDataPath, mbind, Async_bind, js_or. simpl.
  by destruct (currentDataPath w).
Qed.

(** The data directory of a call, as [options.dataPath || await
    getDataPath()] computes it: the directory when there is one, and a
    falsy value otherwise. *)
Lemma dataPath_or_current (options : StorageOptions) (w : World) :
  ∃ v, js_or (of_string_opt (dataPath options)) getDataPath w = (w, Ok v)
       ∧ match directory_of options w with
         | Some d => v = vstring d
         | None => truthy v = false
         end.
Proof.
  unfold js_or, directory_of, given.
  destruct (dataPath options) as [dp|]; simpl.
  - destruct (String.eqb_spec dp "") as [->|Hdp]; simpl; [|by eexists].
    rewrite getDataPath_Ok. eexists. split; [done|].
    destruct (currentDataPath w) as [cur|]; simpl; [|done].
    by destruct (String.eqb_spec cur "") as [->|].
  - rewrite getDataPath_Ok. eexists. split; [done|].
    destruct (currentDataPath w) as [cur|]; simpl; [|done].
    by destruct (String.eqb_spec cur "") as [->|].
Qed.

Lemma given_nonempty (o : option string) (d : string) :
  given o = Some d → d ≠ ""%string.
Proof.
  unfold given. destruct o as [x|]; [|done].
  destruct (String.eqb x "") eqn:E; [done|].
  intros [= <-]. intros ->. done.
Qed.

Lemma directory_of_nonempty (options : StorageOptions) (w : World)
  (d : string) :
  directory_of options w = Some d → d ≠ ""%string.
Proof.
  unfold directory_of.
  destruct (given (dataPath options)) as [x|] eqn:E.
  - intros [= <-]. by apply given_nonempty in E.
  - apply given_nonempty.
Qed.

Lemma getFileName_cases (key : string) (options : StorageOptions)
  (w : World) :
  getFileName key options w =
  (w,
   if String.eqb key "" then Throw (new_Error "Missing key")
   else if Str.trims_to_empty key then Throw (new_Error "Invalid key")
   else match directory_of options w with
        | Some d => Ok (file_of d key)
        | None => Throw (new_Error "You must explicitly set a data path")
        end).
Proof.
  unfold getFileName. simpl.
  destruct (String.eqb key ""); [done|]. simpl.
  destruct (Str.trims_to_empty key); [done|].
  unfold mbind, Async_bind.
  destruct (dataPath_or_current options w) as (v & -> & Hv).
  destruct (directory_of options w) as [d|] eqn:Hd.
  - subst v. simpl.
    pose proof (directory_of_nonempty _ _ _ Hd) as Hne.
    by destruct (String.eqb_spec d "").
  - by rewrite Hv.
Qed.

Lemma all_chars_mem (A : ascii → bool) (s : string) (c : ascii) :
  all_chars A s = true → Str.mem c s = true → A c = true.
Proof.
  induction s as [|a r IH]; simpl; [done|].
  intros [Ha Hr]%andb_true_iff.
  destruct (Ascii.eqb_spec a c) as [<-|_]; [done|]. by apply IH.
Qed.

Lemma all_chars_percent (c : ascii) :
  all_chars (λ x, Global.unreserved x || Ascii.eqb x "%") (Global.percent c)
  = true.
Proof. by destruct c as [[] [] [] [] [] [] [] []]. Qed.

Lemma all_chars_encodeURIComponent (s : string) :
  all_chars (λ x, Global.unreserved x || Ascii.eqb x "%")
    (Global.encodeURIComponent s) = true.
Proof.
  induction s as [|a r IH]; [done|].
  cbn [Global.encodeURIComponent]. rewrite all_chars_app, IH, andb_true_r.
  destruct (Global.unreserved a) eqn:Hu; [|apply all_chars_percent].
  simpl. by rewrite Hu.
Qed.

Lemma all_chars_replace_star (s : string) :
  all_chars (λ x, Global.unreserved x || Ascii.eqb x "%") s = true →
  all_chars name_byte (Global.replace_star s) = true.
Proof.
  induction s as [|a r IH]; [done|]. simpl.
  intros [Ha Hr]%andb_true_iff. rewrite (IH Hr), andb_true_r.
  unfold name_byte.
  destruct (Ascii.eqb_spec a "*") as [->|Hne]; [done|].
  destruct (Ascii.eqb_spec a "*"); [done|]. simpl.
  rewrite andb_true_r.
  destruct (Global.unreserved a); [done|]. simpl in *. by rewrite Ha.
Qed.

Lemma all_chars_replace_pct20 (s : string) :
  all_chars name_byte s = true →
  all_chars name_byte (Global.replace_pct20 s) = true.
Proof.
  remember (String.length s) as n eqn:Hn.
  assert (String.length s ≤ n) as Hle by lia. clear Hn.
  revert s Hle. induction n as [|n IH]; intros s Hle Hs.
  - destruct s; [done|]. simpl in Hle. lia.
  - destruct s as [|c r]; [done|].
    simpl in Hle, Hs. apply andb_true_iff in Hs as [Hc Hr].
    rewrite replace_pct20_unfold.
    assert (all_chars name_byte (String c (Global.replace_pct20 r)) = true)
      as Hkeep.
    { simpl. rewrite Hc. apply IH; [lia|done]. }
    destruct r as [|c2 [|c3 r']]; [done|done|].
    destruct (Ascii.eqb c "%" && Ascii.eqb c2 "2" && Ascii.eqb c3 "0"); [|done].
    simpl. apply IH; [simpl in Hle; lia|].
    simpl in Hr. apply andb_true_iff in Hr as [_ Hr].
    by apply andb_true_iff in Hr as [_ Hr].
Qed.

Lemma all_chars_escaped (s : string) : all_chars name_byte (escaped s) = true.
Proof.
  unfold escaped.
  apply all_chars_replace_pct20, all_chars_replace_star,
    all_chars_encodeURIComponent.
Qed.

(** X2: whatever the key, the name of its file is made of the
    characters [encodeURIComponent] leaves alone other than [*], of
    [%] and of spaces; so it holds none of the characters that Windows
    reserves in file names, which is what the escaping is for. *)
Theorem escapedFileName_alphabet (key : string) :
  all_chars name_byte (escapedFileName key) = true
  ∧ Forall (λ c, Str.mem c (escapedFileName key) = false) windows_reserved.
Proof.
  assert (all_chars name_byte (escapedFileName key) = true) as Hall
    by apply all_chars_escaped.
  split; [done|].
  assert (∀ c, name_byte c = false → Str.mem c (escapedFileName key) = false)
    as Hout.
  { intros c Hc. destruct (Str.mem c (escapedFileName key)) eqn:Hm; [|done].
    by rewrite (all_chars_mem _ _ _ Hall Hm) in Hc. }
  unfold windows_reserved. repeat constructor; by apply Hout.
Qed.

(** ** [*] and [-] in keys *)

Lemma replace_star_idem (s : string) :
  Global.replace_star (Global.replace_star s) = Global.replace_star s.
Proof.
  induction s as [|a r IH]; [done|]. simpl. rewrite IH.
  destruct (Ascii.eqb_spec a "*") as [->|Ha]; [done|].
  by destruct (Ascii.eqb_spec a "*").
Qed.

Lemma replace_star_char (a c : ascii) :
  c ≠ "*"%char → c ≠ "-"%char →
  Ascii.eqb (if Ascii.eqb a "*" then "-"%char else a) c = Ascii.eqb a c.
Proof.
  intros H1 H2. destruct (Ascii.eqb_spec a "*") as [->|Ha]; [|done].
  destruct (Ascii.eqb_spec "-" c); [done|]. by destruct (Ascii.eqb_spec "*" c).
Qed.

Lemma mem_replace_star_other (c : ascii) (s : string) :
  c ≠ "*"%char → c ≠ "-"%char →
  Str.mem c (Global.replace_star s) = Str.mem c s.
Proof.
  intros H1 H2. induction s as [|a r IH]; [done|]. simpl.
  by rewrite replace_star_char, IH.
Qed.

Lemma strip_trailing_replace_star (s : string) :
  Global.replace_star (Str.strip_trailing path.sep s)
  = Str.strip_trailing path.sep (Global.replace_star s).
Proof.
  induction s as [|a r IH]; [done|]. simpl. rewrite <- IH.
  destruct (Str.strip_trailing path.sep r) as [|b t] eqn:E; simpl.
  - rewrite replace_star_char by done.
    by destruct (Ascii.eqb a path.sep).
  - done.
Qed.

Lemma after_last_replace_star (s : string) :
  Global.replace_star (Str.after_last path.sep s)
  = Str.after_last path.sep (Global.replace_star s).
Proof.
  induction s as [|a r IH]; [done|]. simpl.
  rewrite mem_replace_star_other by done.
  destruct (Str.mem path.sep r); [done|].
  rewrite replace_star_char by done.
  by destruct (Ascii.eqb a path.sep).
Qed.

Lemma eqb_replace_star (t s : string) :
  star_free t = true →
  String.eqb (Global.replace_star s) t = String.eqb s t.
Proof.
  revert s. induction t as [|b t IH]; intros s Ht; [by destruct s|].
  destruct s as [|a r]; [done|]. simpl in *.
  apply andb_true_iff in Ht as [Hb Ht].
  apply andb_true_iff in Hb as [Hb1 Hb2].
  rewrite replace_star_char, IH; [done|done| |].
  - intros ->. done.
  - intros ->. done.
Qed.

Lemma drop_suffix_replace_star (ext s : string) :
  star_free ext = true →
  Global.replace_star (Str.drop_suffix ext s)
  = Str.drop_suffix ext (Global.replace_star s).
Proof.
  intros Hext. induction s as [|a r IH].
  - by destruct ext.
  - rewrite drop_suffix_unfold.
    rewrite (drop_suffix_unfold ext (Global.replace_star (String a r))).
    rewrite eqb_replace_star by done.
    destruct (String.eqb (String a r) ext); [done|].
    simpl. by rewrite IH.
Qed.

Lemma keyFileName_replace_star (key : string) :
  Global.replace_star (keyFileName key) = keyFileName (Global.replace_star key).
Proof.
  unfold keyFileName, path.basename.
  rewrite replace_star_app, drop_suffix_replace_star by done.
  by rewrite after_last_replace_star, strip_trailing_replace_star.
Qed.

Lemma replace_star_percent (c : ascii) :
  Global.replace_star (Global.percent c) = Global.percent c.
Proof. by destruct c as [[] [] [] [] [] [] [] []]. Qed.

Lemma encodeURIComponent_replace_star (s : string) :
  Global.encodeURIComponent (Global.replace_star s)
  = Global.replace_star (Global.encodeURIComponent s).
Proof.
  induction s as [|a r IH]; [done|].
  cbn [Global.replace_star Global.encodeURIComponent].
  rewrite replace_star_app, IH. f_equal.
  destruct (Ascii.eqb_spec a "*") as [->|Ha]; [done|].
  destruct (Global.unreserved a); [|by rewrite replace_star_percent].
  simpl. by rewrite (proj2 (Ascii.eqb_neq _ _) Ha).
Qed.

Lemma escaped_replace_star (s : string) :
  escaped (Global.replace_star s) = escaped s.
Proof.
  unfold escaped.
  by rewrite encodeURIComponent_replace_star, replace_star_idem.
Qed.

Lemma escapedFileName_replace_star (key : string) :
  escapedFileName (Global.replace_star key) = escapedFileName key.
Proof.
  change (escaped (keyFileName (Global.replace_star key))
          = escaped (keyFileName key)).
  by rewrite <- keyFileName_replace_star, escaped_replace_star.
Qed.

Lemma prefix_replace_star (p s : string) :
  star_free p = true →
  String.prefix p (Global.replace_star s) = String.prefix p s.
Proof.
  revert s. induction p as [|b p IH]; intros s Hp; [by destruct s|].
  destruct s as [|a r]; [done|]. simpl in *.
  apply andb_true_iff in Hp as [Hb Hp].
  apply andb_true_iff in Hb as [Hb1 Hb2].
  rewrite (IH r Hp).
  destruct (Ascii.eqb_spec a "*") as [->|Ha]; [|done].
  destruct (ascii_dec b "-") as [->|]; [done|].
  by destruct (ascii_dec b "*") as [->|].
Qed.

Lemma find_ext {A : Type} (f g : A → bool) (l : list A) :
  Forall (λ x, f x = g x) l → List.find f l = List.find g l.
Proof.
  induction 1 as [|x l Hx _ IH]; [done|]. simpl. by rewrite Hx, IH.
Qed.

Lemma blank_from_replace_star (s : string) (skip : nat) :
  Str.blank_from skip (Global.replace_star s) = Str.blank_from skip s.
Proof.
  revert skip. induction s as [|a r IH]; intros skip; [done|].
  cbn [Global.replace_star Str.blank_from].
  destruct skip as [|k]; [|apply IH].
  change (String (if Ascii.eqb a "*" then "-"%char else a)
            (Global.replace_star r))
    with (Global.replace_star (String a r)).
  rewrite (find_ext
             (λ p, String.prefix p (Global.replace_star (String a r)))
             (λ p, String.prefix p (String a r))).
  - destruct (List.find _ Str.white_space); [apply IH|done].
  - unfold Str.white_space.
    repeat constructor; by apply prefix_replace_star.
Qed.

Lemma getFileName_replace_star (key : string) (options : StorageOptions)
  (w : World) :
  getFileName (Global.replace_star key) options w = getFileName key options w.
Proof.
  rewrite !getFileName_cases. unfold file_of, Str.trims_to_empty.
  rewrite escapedFileName_replace_star, blank_from_replace_star.
  by rewrite (eqb_replace_star "" key).
Qed.

(** X3: [*] and [-] are one character to the store.  Two keys that
    differ only in that some [*] of the one is a [-] in the other are
    accepted or refused alike by [getFileName] and have the same file,
    so that each of [get] and [set] does for the one what it does for
    the other. *)
Theorem star_is_dash (key key' : string) :
  Global.replace_star key = Global.replace_star key' →
  ∀ options w,
    getFileName key options w = getFileName key' options w
    ∧ get key options w = get key' options w
    ∧ ∀ json woptions,
        set key json woptions w = set key' json woptions w.
Proof.
  intros Heq options w.
  assert (∀ o w, getFileName key o w = getFileName key' o w) as Hname.
  { intros o w'.
    rewrite <- (getFileName_replace_star key).
    rewrite <- (getFileName_replace_star key').
    by rewrite Heq. }
  split; [apply Hname|]. split.
  - unfold get, mbind, Async_bind. by rewrite Hname.
  - intros json woptions. unfold set, mbind, Async_bind. by rewrite Hname.
Qed.

Lemma star_is_dash_witness :
  getFileName "a*b" in_data fresh = getFileName "a-b" in_data fresh
  ∧ snd (getFileName "a*b" in_data fresh) = Ok "/data/a-b.json"%string.
Proof.
  split; [|reflexivity].
  apply (star_is_dash "a*b" "a-b" eq_refl in_data fresh).
Defined.

(** ** Where the file of a key lies *)

Lemma split_no_sep (c : ascii) (s : string) :
  Forall (λ x, Str.mem c x = false) (Str.split c s).
Proof.
  induction s as [|a r IH]; simpl; [by repeat constructor|].
  destruct (Ascii.eqb a c) eqn:Ha; [by constructor|].
  destruct (Str.split c r) as [|x xs].
  - repeat constructor. simpl. by rewrite Ha.
  - inversion IH as [|? ? Hx Hxs]; subst. constructor; [|done].
    simpl. by rewrite Ha.
Qed.

Lemma resolve_segments (absolute : bool) (segs stack : list string) :
  Forall (λ x, Str.mem path.sep x = false ∧ x ≠ ""%string) stack →
  Forall (λ x, Str.mem path.sep x = false) segs →
  Forall (λ x, Str.mem path.sep x = false ∧ x ≠ ""%string)
    (path.resolve absolute stack segs).
Proof.
  intros Hstack Hsegs. revert stack Hstack.
  induction Hsegs as [|seg rest Hseg _ IH]; intros stack Hstack; simpl; [done|].
  destruct (String.eqb_spec seg "") as [->|Hne]; simpl; [by apply IH|].
  destruct (String.eqb seg "."); [by apply IH|].
  assert (Forall (λ x, Str.mem path.sep x = false ∧ x ≠ ""%string)
            (seg :: stack)) as Hpush by (by constructor).
  destruct (String.eqb seg ".."); [|by apply IH].
  destruct stack as [|top below].
  - destruct absolute; apply IH; [done|by repeat constructor].
  - destruct (String.eqb top ".."); apply IH; [done|].
    by inversion Hstack.
Qed.

Lemma strip_trailing_without (c : ascii) (s : string) :
  Str.mem c s = false → Str.strip_trailing c s = s.
Proof.
  induction s as [|a r IH]; simpl; [done|].
  destruct (Ascii.eqb a c); [done|]. intros Hr. rewrite (IH Hr).
  by destruct r.
Qed.

Lemma after_last_without (c : ascii) (s : string) :
  Str.mem c s = false → Str.after_last c s = s.
Proof.
  destruct s as [|a r]; simpl; [done|].
  destruct (Ascii.eqb a c); [done|]. by intros ->.
Qed.

Lemma before_last_without (c : ascii) (s : string) :
  Str.mem c s = false → Str.before_last c s = None.
Proof.
  induction s as [|a r IH]; simpl; [done|].
  destruct (Ascii.eqb a c); [done|]. intros Hr. by rewrite (IH Hr).
Qed.

Lemma before_last_app (c : ascii) (x e : string) :
  Str.mem c e = false → Str.before_last c (x +:+ String c e) = Some x.
Proof.
  intros He. induction x as [|a r IH].
  - rewrite string_app_nil. simpl.
    by rewrite (before_last_without c e He), Ascii.eqb_refl.
  - rewrite string_app_cons. simpl. by rewrite IH.
Qed.

Lemma after_last_sep_app (c : ascii) (x e : string) :
  Str.mem c e = false → Str.after_last c (x +:+ String c e) = e.
Proof.
  intros He. induction x as [|a r IH].
  - rewrite string_app_nil. simpl. by rewrite He, Ascii.eqb_refl.
  - rewrite string_app_cons. simpl.
    rewrite mem_app. simpl. by rewrite Ascii.eqb_refl, orb_true_r.
Qed.

Lemma concat_with_snoc (sep : string) (l : list string) (e : string) :
  l ≠ [] →
  Str.concat_with sep (l ++ [e]) = Str.concat_with sep l +:+ sep +:+ e.
Proof.
  induction l as [|x l IH]; [done|]. intros _.
  destruct l as [|y ys]; [done|].
  change ((x :: y :: ys) ++ [e]) with (x :: (y :: ys) ++ [e]).
  change ((y :: ys) ++ [e]) with (y :: (ys ++ [e])) at 1.
  change (Str.concat_with sep (x :: y :: (ys ++ [e])))
    with (x +:+ sep +:+ Str.concat_with sep (y :: (ys ++ [e]))).
  change (y :: (ys ++ [e])) with ((y :: ys) ++ [e]).
  rewrite IH by done.
  change (Str.concat_with sep (x :: y :: ys))
    with (x +:+ sep +:+ Str.concat_with sep (y :: ys)).
  by rewrite !string_app_assoc.
Qed.

(** Segments joined by separators make a path that is not empty and
    does not end with a separator. *)
Lemma concat_with_segments (l : list string) :
  l ≠ [] →
  Forall (λ x, Str.mem path.sep x = false ∧ x ≠ ""%string) l →
  Str.strip_trailing path.sep (Str.concat_with "/" l) = Str.concat_with "/" l
  ∧ Str.concat_with "/" l ≠ ""%string.
Proof.
  intros Hl Hall. induction Hall as [|x l [Hx Hne] Hrest IH]; [done|].
  destruct l as [|y ys].
  - simpl. split; [by apply strip_trailing_without|done].
  - destruct (IH ltac:(done)) as [Hstrip Hnonempty].
    change (Str.concat_with "/" (x :: y :: ys))
      with (x +:+ "/" +:+ Str.concat_with "/" (y :: ys)).
    split.
    + rewrite strip_trailing_app.
      * f_equal. rewrite strip_trailing_app; [by rewrite Hstrip|].
        by rewrite Hstrip.
      * rewrite strip_trailing_app; [|by rewrite Hstrip].
        rewrite Hstrip. done.
    + destruct x; [done|]. done.
Qed.

Lemma prefix_nil (s : string) : String.prefix "" s = true.
Proof. by destruct s. Qed.

Lemma prefix_cons (a b : ascii) (s t : string) :
  String.prefix (String a s) (String b t)
  = if ascii_dec a b then String.prefix s t else false.
Proof. reflexivity. Qed.

Lemma isAbsolute_app (d t : string) :
  d ≠ ""%string → path.isAbsolute (d +:+ t) = path.isAbsolute d.
Proof.
  destruct d as [|a r]; [done|]. intros _.
  unfold path.isAbsolute. rewrite string_app_cons, !prefix_cons.
  destruct (ascii_dec "/" a); [|done]. by rewrite !prefix_nil.
Qed.

(** The path of a file named [e] in the directory [d]: the normalised
    directory, a separator, and the name. *)
Lemma join_shape (d e : string) :
  d ≠ ""%string → segment e →
  path.join d e
  = match rev (path.resolve (path.isAbsolute d) [] (Str.split path.sep d)) with
    | [] => (if path.isAbsolute d then "/" else "") +:+ e
    | _ => path.normalize d +:+ String path.sep e
    end.
Proof.
  intros Hd (Hmem & H1 & H2 & H3). unfold path.join.
  destruct (String.eqb_spec d ""); [done|].
  destruct (String.eqb_spec e ""); [done|].
  unfold path.normalize.
  change (d +:+ "/" +:+ e) with (d +:+ String path.sep e).
  rewrite isAbsolute_app by done.
  rewrite split_app, (split_without path.sep e Hmem).
  rewrite resolve_last by done.
  change (rev (e :: ?l)) with (rev l ++ [e]).
  pose proof (resolve_segments (path.isAbsolute d) (Str.split path.sep d) []
                ltac:(constructor) (split_no_sep _ _)) as Hsegs.
  apply Forall_rev in Hsegs.
  destruct (rev (path.resolve (path.isAbsolute d) [] (Str.split path.sep d)))
    as [|x l] eqn:E.
  - simpl. destruct (path.isAbsolute d); [done|].
    by destruct (String.eqb_spec e "").
  - rewrite concat_with_snoc by done.
    destruct (concat_with_segments (x :: l) ltac:(done) Hsegs) as [_ Hne].
    destruct (path.isAbsolute d).
    + by rewrite !string_app_assoc.
    + destruct (String.eqb_spec (Str.concat_with "/" (x :: l)) ""); [done|].
      destruct (String.eqb_spec
                  (Str.concat_with "/" (x :: l) +:+ "/" +:+ e) "")
        as [Heq|_]; [|done].
      apply (f_equal String.length) in Heq.
      rewrite !string_app_length in Heq. simpl in Heq. lia.
Qed.

(** A normalised path does not end with a separator, unless it is the
    root. *)
Lemma normalize_strip (d : string) :
  Str.strip_trailing path.sep (path.normalize d)
  = (if String.eqb (path.normalize d) "/" then "" else path.normalize d)%string.
Proof.
  unfold path.normalize.
  pose proof (resolve_segments (path.isAbsolute d) (Str.split path.sep d) []
                ltac:(constructor) (split_no_sep _ _)) as Hsegs.
  apply Forall_rev in Hsegs.
  destruct (rev (path.resolve (path.isAbsolute d) [] (Str.split path.sep d)))
    as [|x l] eqn:E.
  - simpl. by destruct (path.isAbsolute d).
  - destruct (concat_with_segments (x :: l) ltac:(done) Hsegs) as [Hstrip Hne].
    destruct (path.isAbsolute d).
    + rewrite strip_trailing_app by (by rewrite Hstrip).
      rewrite Hstrip.
      destruct (String.eqb_spec ("/" +:+ Str.concat_with "/" (x :: l)) "/")
        as [Heq|_]; [|done].
      injection Heq as Heq. done.
    + destruct (String.eqb_spec (Str.concat_with "/" (x :: l)) ""); [done|].
      rewrite Hstrip.
      destruct (String.eqb_spec (Str.concat_with "/" (x :: l)) "/")
        as [Heq|_]; [|done].
      rewrite Heq in Hstrip. done.
Qed.

Lemma strip_trailing_child (e : string) :
  Str.mem path.sep e = false → e ≠ ""%string →
  Str.strip_trailing path.sep (String path.sep e) = String path.sep e.
Proof.
  intros Hmem Hne. simpl. rewrite strip_trailing_without by done.
  by destruct e.
Qed.

(** The directory of a path that ends with a separator and a name. *)
Lemma dirname_app (x e : string) :
  Str.mem path.sep e = false → e ≠ ""%string →
  path.dirname (x +:+ String path.sep e)
  = match Str.strip_trailing path.sep x with
    | EmptyString => "/"%string
    | d => d
    end.
Proof.
  intros Hmem Hne. unfold path.dirname.
  rewrite strip_trailing_app; rewrite strip_trailing_child; try done.
  destruct (x +:+ String path.sep e) as [|a q] eqn:Eq.
  { destruct x; done. }
  rewrite <- Eq. by rewrite before_last_app.
Qed.

Lemma dirname_join (d e : string) :
  d ≠ ""%string → segment e →
  path.dirname (path.join d e) = path.normalize d
  ∧ Str.after_last path.sep (path.join d e) = e.
Proof.
  intros Hd He. rewrite (join_shape d e Hd He).
  destruct He as (Hmem & H1 & H2 & H3).
  pose proof (normalize_strip d) as Hstrip.
  unfold path.normalize in *.
  pose proof (resolve_segments (path.isAbsolute d) (Str.split path.sep d) []
                ltac:(constructor) (split_no_sep _ _)) as Hsegs.
  apply Forall_rev in Hsegs.
  destruct (rev (path.resolve (path.isAbsolute d) [] (Str.split path.sep d)))
    as [|x l] eqn:E.
  - simpl in *. destruct (path.isAbsolute d).
    + split; [apply (dirname_app "" e); done|].
      by apply (after_last_sep_app path.sep "" e).
    + rewrite string_app_nil. split; [|by apply after_last_without].
      unfold path.dirname. rewrite strip_trailing_without by done.
      destruct e as [|a r]; [done|].
      by rewrite before_last_without.
  - split; [|by apply after_last_sep_app].
    rewrite dirname_app by done.
    destruct (concat_with_segments (x :: l) ltac:(done) Hsegs) as [_ Hne].
    set (n := (if path.isAbsolute d then _ else _)) in *.
    rewrite Hstrip.
    destruct (String.eqb n "/") eqn:Hn.
    { apply String.eqb_eq in Hn. by rewrite Hn. }
    destruct n eqn:En; [|done].
    subst n. destruct (path.isAbsolute d); [done|].
    destruct (String.eqb_spec (Str.concat_with "/" (x :: l)) ""); done.
Qed.

Lemma escapedFileName_segment (key : string) : segment (escapedFileName key).
Proof.
  destruct (escapedFileName_json key) as [stem Hstem].
  assert (5 ≤ String.length (escapedFileName key)) as Hlen.
  { rewrite Hstem, string_app_length. simpl. lia. }
  split; [apply mem_escaped|].
  repeat split; intros Heq; rewrite Heq in Hlen; simpl in Hlen; lia.
Qed.

(** X4: the file that [getFileName] answers lies directly in the data
    directory, whatever the key: its directory is the normalised data
    directory and its name is the escaped file name of the key, which
    holds no separator.  A key with [..] or separators in it cannot
    name a file elsewhere. *)
Theorem getFileName_in_data_directory (key : string)
  (options : StorageOptions) (w : World) (f : string) :
  snd (getFileName key options w) = Ok f →
  ∃ d, directory_of options w = Some d
       ∧ path.dirname f = path.normalize d
       ∧ Str.after_last path.sep f = escapedFileName key
       ∧ Str.mem path.sep (escapedFileName key) = false.
Proof.
  rewrite getFileName_cases. simpl.
  destruct (String.eqb key ""); [done|].
  destruct (Str.trims_to_empty key); [done|].
  destruct (directory_of options w) as [d|] eqn:Hd; [|done].
  intros [= <-]. exists d. split; [done|].
  pose proof (directory_of_nonempty _ _ _ Hd) as Hne.
  destruct (dirname_join d (escapedFileName key) Hne
              (escapedFileName_segment key)) as [H1 H2].
  split; [done|]. split; [done|]. apply mem_escaped.
Qed.

Lemma getFileName_in_data_directory_witness :
  ∃ d, directory_of in_data fresh = Some d
       ∧ path.dirname "/data/passwd.json" = path.normalize d
       ∧ Str.after_last path.sep "/data/passwd.json"
         = escapedFileName "../../etc/passwd"
       ∧ Str.mem path.sep (escapedFileName "../../etc/passwd") = false.
Proof.
  apply (getFileName_in_data_directory "../../etc/passwd" in_data fresh).
  reflexivity.
Defined.

(** ** Which keys share a file *)

















(** ** What the operations read and write *)

Lemma file_of_dirname (d key : string) :
  d ≠ ""%string → path.dirname (file_of d key) = path.normalize d.
Proof.
  intros Hd.
  by destruct (dirname_join d (escapedFileName key) Hd
                 (escapedFileName_segment key)).
Qed.

(** The file of a key is none of the directories that lead to the data
    directory. *)
Lemma file_of_not_lineage (d key : string) (fuel : nat) :
  d ≠ ""%string → file_of d key ∉ fs.lineage fuel (path.normalize d).
Proof.
  intros Hd. rewrite <- (file_of_dirname d key Hd).
  apply lineage_dirname.
  destruct (escapedFileName_segment key) as (Hmem & H1 & H2 & H3).
  destruct (escapedFileName_json key) as [stem Hstem].
  pose proof (join_length d (escapedFileName key) Hd Hmem H1 H2 H3) as Hlen.
  unfold file_of. rewrite Hstem, string_app_length in Hlen.
  rewrite Hstem. simpl in Hlen. lia.
Qed.

(** [readFile] changes nothing on disk and leaves the override. *)
Lemma readFile_keeps (fileName : string) (times : nat) (w : World) :
  files (fst (readFile fileName times w)) = files w
  ∧ dirs (fst (readFile fileName times w)) = dirs w
  ∧ currentDataPath (fst (readFile fileName times w)) = currentDataPath w.
Proof.
  revert times w. apply (readFile_ind (λ times w, _ ∧ _ ∧ _)).
  intros times w IH. rewrite readFile_step.
  assert (files (fst (fs.readTextFile fileName w)) = files w
          ∧ dirs (fst (fs.readTextFile fileName w)) = dirs w
          ∧ currentDataPath (fst (fs.readTextFile fileName w))
            = currentDataPath w) as Hread.
  { unfold fs.readTextFile. simpl. destruct (faults w); simpl; [|done].
    destruct (files w !! fileName); simpl; [done|]. by case_bool_decide. }
  destruct (fs.readTextFile fileName w) as [w1 [text|error]]; simpl in Hread;
    [done|].
  destruct (has_code error "ENOENT"); [done|].
  destruct (has_code error "EPERM"); cbn [andb]; [|done].
  destruct (Nat.ltb_spec times 10) as [Hlt|Hge]; [|done].
  destruct (IH Hlt (fst (sleep 1000 w1))) as (H1 & H2 & H3).
  rewrite H1, H2, H3. done.
Qed.

Lemma stringify_defined (v : Json) (space : nat) :
  v ≠ jundefined →
  ∃ data, stringify v space = Some data ∧ String.eqb data "" = false.
Proof.
  intros Hv. unfold stringify.
  destruct (serialize _ "" v) as [data|] eqn:Hdata.
  - exists data. split; [done|].
    by destruct (serialize_head _ _ _ _ Hdata) as (c & t & -> & _).
  - by destruct v as [| |[]| | | |].
Qed.

(** What [set] does for a valid key in a data directory that exists or
    can be made. *)
Lemma set_stores (key : string) (json : Json) (options : WriteOptions)
  (w : World) (d : string) :
  valid_key key →
  directory_of (storage options) w = Some d →
  json ≠ jundefined →
  can_be_directory (path.normalize d) w →
  ∃ data,
    stringify json (if default false (prettyPrinting options) then 2 else 0)
    = Some data
    ∧ set key json options w
      = let w1 :=
          set_dirs (dirs w ∪ list_to_set
            (fs.lineage (String.length (path.normalize d)) (path.normalize d)))
            w in
        if bool_decide (file_of d key ∈ dirs w)
        then (w1, Throw (fs_error "EISDIR"))
        else (set_files (<[file_of d key := data]> (files w)) w1, Ok tt).
Proof.
  intros Hkey Hdir Hjson Hcan.
  pose proof (directory_of_nonempty _ _ _ Hdir) as Hd.
  destruct (stringify_defined json
              (if default false (prettyPrinting options) then 2 else 0) Hjson)
    as (data & Hdata & Hne).
  exists data. split; [done|].
  unfold set, mbind, Async_bind.
  destruct (storage options) as [dp] eqn:Hst. simpl.
  rewrite (getFileName_resolves key {| dataPath := dp |} w d Hkey Hdir).
  rewrite Hdata, Hne, file_of_dirname by done.
  rewrite (createDir_Ok _ _ Hcan).
  unfold fs.writeFile. simpl.
  rewrite file_of_dirname by done.
  assert (file_of d key ∈ dirs w ∪ list_to_set
            (fs.lineage (String.length (path.normalize d)) (path.normalize d))
          ↔ file_of d key ∈ dirs w) as Hin.
  { rewrite elem_of_union, elem_of_list_to_set. split; [|by left].
    intros [|Hl]; [done|]. by apply file_of_not_lineage in Hl. }
  destruct (decide (file_of d key ∈ dirs w)) as [Hdir'|Hdir'].
  - rewrite !bool_decide_eq_true_2; [done|done|by apply Hin].
  - rewrite (bool_decide_eq_false_2 (file_of d key ∈ dirs w)) by done.
    rewrite bool_decide_eq_false_2 by (by rewrite Hin).
    rewrite bool_decide_eq_true_2; [done|].
    rewrite elem_of_union, elem_of_list_to_set. right. apply lineage_head.
Qed.

(** What [get] answers for a valid key in a data directory that exists
    or can be made, when the read meets at most ten permission
    errors. *)
Lemma get_reads (key : string) (options : StorageOptions) (w : World)
  (d : string) (n : nat) :
  valid_key key →
  directory_of options w = Some d →
  can_be_directory (path.normalize d) w →
  transient_faults n w →
  snd (get key options w) =
  match files w !! file_of d key with
  | Some text => JSON.parse text
  | None =>
      if bool_decide (file_of d key ∈ dirs w) then Throw (fs_error "EISDIR")
      else Ok empty_object
  end.
Proof.
  intros Hkey Hdir Hcan Hfaults.
  pose proof (directory_of_nonempty _ _ _ Hdir) as Hd.
  unfold get, mbind, Async_bind.
  destruct options as [dp]. simpl.
  rewrite (getFileName_resolves key {| dataPath := dp |} w d Hkey Hdir).
  rewrite file_of_dirname by done.
  rewrite (createDir_Ok _ _ Hcan).
  pose proof (readFile_transient (file_of d key) n
    (set_dirs (dirs w ∪ list_to_set
       (fs.lineage (String.length (path.normalize d)) (path.normalize d))) w)
    Hfaults) as Hread.
  destruct (readFile (file_of d key) 0 _) as [w2 out]. simpl in Hread.
  subst out.
  destruct (files w !! file_of d key) as [text|]; simpl.
  { unfold of_outcome. by destruct (JSON.parse text). }
  assert (file_of d key ∈ dirs w ∪ list_to_set
            (fs.lineage (String.length (path.normalize d)) (path.normalize d))
          ↔ file_of d key ∈ dirs w) as Hin.
  { rewrite elem_of_union, elem_of_list_to_set. split; [|by left].
    intros [|Hl]; [done|]. by apply file_of_not_lineage in Hl. }
  destruct (decide (file_of d key ∈ dirs w)) as [Hdir'|Hdir'].
  - rewrite !bool_decide_eq_true_2; [done|done|by apply Hin].
  - rewrite (bool_decide_eq_false_2 (file_of d key ∈ dirs w)) by done.
    rewrite bool_decide_eq_false_2 by (by rewrite Hin). done.
Qed.

Lemma directory_of_frame (options : StorageOptions) (w w1 : World) :
  currentDataPath w1 = currentDataPath w →
  directory_of options w1 = directory_of options w.
Proof. intros H. unfold directory_of. by rewrite H. Qed.

Lemma can_be_directory_insert (d key data : string) (w w1 : World) :
  d ≠ ""%string →
  files w1 = <[file_of d key := data]> (files w) →
  can_be_directory (path.normalize d) w →
  can_be_directory (path.normalize d) w1.
Proof.
  intros Hd Hfiles Hcan p Hp.
  rewrite Hfiles, lookup_insert_ne; [by apply Hcan|].
  intros <-. by apply file_of_not_lineage in Hp.
Qed.

Lemma undefined_or_not (v : Json) : v = jundefined ∨ v ≠ jundefined.
Proof. destruct v; (by left) || (by right). Qed.

(** The world a call of [set] leaves, whether the call succeeds or
    not: at most the file of the key is written, at most the data
    directory and its ancestors are made. *)
Lemma set_world (key : string) (json : Json) (options : WriteOptions)
  (w : World) (d : string) :
  valid_key key →
  directory_of (storage options) w = Some d →
  can_be_directory (path.normalize d) w →
  (files (fst (set key json options w)) = files w
   ∨ ∃ data, files (fst (set key json options w))
             = <[file_of d key := data]> (files w))
  ∧ (dirs (fst (set key json options w)) = dirs w
     ∨ dirs (fst (set key json options w))
       = dirs w ∪ list_to_set
           (fs.lineage (String.length (path.normalize d)) (path.normalize d)))
  ∧ faults (fst (set key json options w)) = faults w
  ∧ currentDataPath (fst (set key json options w)) = currentDataPath w.
Proof.
  intros Hkey Hdir Hcan.
  destruct (undefined_or_not json) as [->|Hjson].
  - unfold set, mbind, Async_bind.
    destruct (storage options) as [dp] eqn:Hst. simpl.
    rewrite (getFileName_resolves key {| dataPath := dp |} w d Hkey Hdir).
    simpl. by repeat split; try left.
  - destruct (set_stores key json options w d Hkey Hdir Hjson Hcan)
      as (data & _ & ->).
    simpl. case_bool_decide; simpl.
    + by repeat split; [left|right|..].
    + repeat split; [right; by exists data|by right].
Qed.

(** What [set] leaves when it succeeds. *)
Lemma set_succeeds (key : string) (json : Json) (options : WriteOptions)
  (w : World) (d : string) :
  valid_key key →
  directory_of (storage options) w = Some d →
  json ≠ jundefined →
  file_of d key ∉ dirs w →
  can_be_directory (path.normalize d) w →
  ∃ data w1,
    stringify json (if default false (prettyPrinting options) then 2 else 0)
    = Some data
    ∧ set key json options w = (w1, Ok tt)
    ∧ files w1 = <[file_of d key := data]> (files w)
    ∧ dirs w1 = dirs w ∪ list_to_set
        (fs.lineage (String.length (path.normalize d)) (path.normalize d))
    ∧ faults w1 = faults w
    ∧ currentDataPath w1 = currentDataPath w.
Proof.
  intros Hkey Hdir Hjson Hnodir Hcan.
  destruct (set_stores key json options w d Hkey Hdir Hjson Hcan)
    as (data & Hdata & Hset).
  simpl in Hset. rewrite bool_decide_eq_false_2 in Hset by done.
  exists data. eexists. split; [done|]. split; [exact Hset|]. done.
Qed.

Lemma proper_defined (v : Json) : proper v = true → v ≠ jundefined.
Proof. by intros H ->. Qed.

Lemma not_in_dirs_after (d key : string) (w w1 : World) :
  d ≠ ""%string →
  dirs w1 = dirs w ∪ list_to_set
    (fs.lineage (String.length (path.normalize d)) (path.normalize d)) →
  file_of d key ∉ dirs w → file_of d key ∉ dirs w1.
Proof.
  intros Hd -> Hnodir. rewrite elem_of_union, elem_of_list_to_set.
  intros [|Hl]; [done|]. by apply file_of_not_lineage in Hl.
Qed.

(** X6: the last write wins.  After two calls of [set] for the same
    key, whatever the [prettyPrinting] of each, [get] returns the
    document of the second call, whose numbers are any finite doubles;
    a zero comes back without its sign. *)
Theorem last_write_wins (key : string) (v1 v2 : Json)
  (o1 o2 : WriteOptions) (w : World) (d : string) (n : nat) :
  valid_key key →
  directory_of (storage o1) w = Some d →
  storage o2 = storage o1 →
  v1 ≠ jundefined →
  proper v2 = true →
  file_of d key ∉ dirs w →
  can_be_directory (path.normalize d) w →
  transient_faults n w →
  snd ((_ ← set key v1 o1; _ ← set key v2 o2; get key (storage o1)) w)
  = Ok (positive_zeros v2).
Proof.
  intros Hkey Hdir Hopt Hv1 Hv2 Hnodir Hcan [Hn Hfaults].
  pose proof (directory_of_nonempty _ _ _ Hdir) as Hd.
  destruct (set_succeeds key v1 o1 w d Hkey Hdir Hv1 Hnodir Hcan)
    as (data1 & w1 & _ & Hset1 & Hfiles1 & Hdirs1 & Hfaults1 & Hcur1).
  assert (directory_of (storage o2) w1 = Some d) as Hdir1.
  { by rewrite Hopt, (directory_of_frame _ w w1 Hcur1). }
  destruct (set_succeeds key v2 o2 w1 d Hkey Hdir1 (proper_defined _ Hv2)
              (not_in_dirs_after d key w w1 Hd Hdirs1 Hnodir)
              (can_be_directory_insert d key data1 w w1 Hd Hfiles1 Hcan))
    as (data2 & w2 & Hdata2 & Hset2 & Hfiles2 & Hdirs2 & Hfaults2 & Hcur2).
  unfold mbind at 1 2, Async_bind. rewrite Hset1, Hset2.
  rewrite (get_reads key (storage o1) w2 d n Hkey).
  - rewrite Hfiles2, lookup_insert_eq.
    destruct (parse_stringify v2
                (if default false (prettyPrinting o2) then 2 else 0) Hv2)
      as (text & Htext & Hparse).
    rewrite Hdata2 in Htext. by injection Htext as ->.
  - rewrite <- Hopt. by rewrite (directory_of_frame _ w1 w2 Hcur2).
  - apply (can_be_directory_insert d key data2 w1 w2 Hd Hfiles2).
    by apply (can_be_directory_insert d key data1 w w1 Hd Hfiles1).
  - split; [done|]. by rewrite Hfaults2, Hfaults1.
Qed.

(** The directories that lead to [/data]. *)
Lemma lineage_data (p : string) :
  p ∈ fs.lineage (String.length (path.normalize "/data"))
        (path.normalize "/data") →
  p = "/data"%string ∨ p = "/"%string.
Proof.
  assert (fs.lineage (String.length (path.normalize "/data"))
            (path.normalize "/data") = ["/data"; "/"]%string) as ->
    by (by vm_compute).
  intros Hp. apply list_elem_of_In in Hp. simpl in Hp.
  destruct Hp as [<-|[<-|Hp]]; [by left|by right|done].
Qed.

Lemma last_write_wins_witness :
  snd ((_ ← set "theme" dark write_in_data;
        _ ← set "theme" settings
              {| storage := in_data; validate := None;
                 prettyPrinting := Some true |};
        get "theme" in_data) fresh)
  = Ok (positive_zeros settings).
Proof.
  apply (last_write_wins "theme" dark settings write_in_data _ fresh "/data" 0).
  - split; [done|reflexivity].
  - reflexivity.
  - reflexivity.
  - done.
  - by vm_compute.
  - by vm_compute.
  - intros p Hp. reflexivity.
  - split; [lia|reflexivity].
Defined.

(** X7: a call of [set] for one key, whether it succeeds or fails,
    changes nothing to what [get] returns for a key with another
    file. *)
Theorem set_leaves_other_keys (key other : string) (json : Json)
  (options : WriteOptions) (w : World) (d : string) (n : nat) :
  valid_key key → valid_key other →
  directory_of (storage options) w = Some d →
  file_of d other ≠ file_of d key →
  can_be_directory (path.normalize d) w →
  transient_faults n w →
  snd (get other (storage options) (fst (set key json options w)))
  = snd (get other (storage options) w).
Proof.
  intros Hkey Hother Hdir Hdiff Hcan [Hn Hfaults].
  pose proof (directory_of_nonempty _ _ _ Hdir) as Hd.
  destruct (set_world key json options w d Hkey Hdir Hcan)
    as (Hfiles & Hdirs & Hf & Hcur).
  set (w1 := fst (set key json options w)) in *.
  assert (can_be_directory (path.normalize d) w1) as Hcan1.
  { destruct Hfiles as [Hsame|[data Hins]].
    - intros p Hp. rewrite Hsame. by apply Hcan.
    - by apply (can_be_directory_insert d key data w w1). }
  rewrite (get_reads other (storage options) w1 d n Hother);
    [|by rewrite (directory_of_frame _ w w1 Hcur)|done
     |by split; [|rewrite Hf]].
  rewrite (get_reads other (storage options) w d n Hother Hdir Hcan)
    by done.
  assert (files w1 !! file_of d other = files w !! file_of d other) as ->.
  { destruct Hfiles as [->|[data ->]]; [done|]. by rewrite lookup_insert_ne. }
  assert (bool_decide (file_of d other ∈ dirs w1)
          = bool_decide (file_of d other ∈ dirs w)) as ->; [|done].
  apply bool_decide_ext.
  destruct Hdirs as [Hsame|Hmore]; rewrite ?Hsame, ?Hmore; [done|].
  rewrite elem_of_union, elem_of_list_to_set. split; [|by left].
  intros [|Hl]; [done|]. by apply file_of_not_lineage in Hl.
Qed.

Lemma set_leaves_other_keys_witness :
  snd (get "a" in_data (fst (set "c" light write_in_data two_keys)))
  = snd (get "a" in_data two_keys)
  ∧ snd (get "a" in_data two_keys) = Ok dark.
Proof.
  split; [|by vm_compute].
  apply (set_leaves_other_keys "c" "a" light write_in_data two_keys "/data" 0).
  - split; [done|reflexivity].
  - split; [done|reflexivity].
  - reflexivity.
  - done.
  - intros p [-> | ->]%lineage_data; reflexivity.
  - split; [lia|reflexivity].
Defined.

(** X8: a call of [remove] for one key, whether it succeeds or fails,
    changes nothing to what [get] returns for a key with another
    file. *)
Theorem remove_leaves_other_keys (key other : string)
  (options : StorageOptions) (w : World) (d : string) (n : nat) :
  valid_key key → valid_key other →
  directory_of options w = Some d →
  file_of d other ≠ file_of d key →
  can_be_directory (path.normalize d) w →
  transient_faults n w →
  snd (get other options (fst (remove key options w)))
  = snd (get other options w).
Proof.
  intros Hkey Hother Hdir Hdiff Hcan [Hn Hfaults].
  assert (∃ w1, fst (remove key options w) = w1
                ∧ (files w1 = files w
                   ∨ files w1 = delete (file_of d key) (files w))
                ∧ dirs w1 = dirs w ∧ faults w1 = faults w
                ∧ currentDataPath w1 = currentDataPath w)
    as (w1 & -> & Hfiles & Hdirs & Hf & Hcur).
  { unfold remove, mbind, Async_bind.
    rewrite (getFileName_resolves key options w d Hkey Hdir).
    unfold fs.removeFile. destruct (files w !! file_of d key).
    - eexists. split; [done|]. simpl. split; [by right|done].
    - case_bool_decide;
        (eexists; split; [done|]; simpl; split; [by left|done]). }
  assert (can_be_directory (path.normalize d) w1) as Hcan1.
  { intros p Hp. destruct Hfiles as [Hsame|Hdel].
    - rewrite Hsame. by apply Hcan.
    - rewrite Hdel. apply lookup_delete_None. right. by apply Hcan. }
  rewrite (get_reads other options w1 d n Hother);
    [|by rewrite (directory_of_frame _ w w1 Hcur)|done
     |by split; [|rewrite Hf]].
  rewrite (get_reads other options w d n Hother Hdir Hcan) by done.
  rewrite Hdirs.
  assert (files w1 !! file_of d other = files w !! file_of d other) as ->;
    [|done].
  destruct Hfiles as [Hsame|Hdel]; [by rewrite Hsame|].
  by rewrite Hdel, lookup_delete_ne.
Qed.

Lemma remove_leaves_other_keys_witness :
  snd (get "a" in_data (fst (remove "b" in_data two_keys)))
  = snd (get "a" in_data two_keys)
  ∧ snd (get "a" in_data two_keys) = Ok dark.
Proof.
  split; [|by vm_compute].
  apply (remove_leaves_other_keys "b" "a" in_data two_keys "/data" 0).
  - split; [done|reflexivity].
  - split; [done|reflexivity].
  - reflexivity.
  - done.
  - intros p [-> | ->]%lineage_data; reflexivity.
  - split; [lia|reflexivity].
Defined.

(** X9: [set] and then [remove] of a key succeed, leave no file for
    the key, and [get] of the key then returns the empty object. *)
Theorem set_remove_get (key : string) (json : Json) (options : WriteOptions)
  (w : World) (d : string) (n : nat) :
  valid_key key →
  directory_of (storage options) w = Some d →
  json ≠ jundefined →
  file_of d key ∉ dirs w →
  can_be_directory (path.normalize d) w →
  transient_faults n w →
  ∃ w2,
    (_ ← set key json options; remove key (storage options)) w = (w2, Ok tt)
    ∧ files w2 = delete (file_of d key) (files w)
    ∧ snd (get key (storage options) w2) = Ok empty_object.
Proof.
  intros Hkey Hdir Hjson Hnodir Hcan [Hn Hfaults].
  pose proof (directory_of_nonempty _ _ _ Hdir) as Hd.
  destruct (set_succeeds key json options w d Hkey Hdir Hjson Hnodir Hcan)
    as (data & w1 & _ & Hset & Hfiles1 & Hdirs1 & Hfaults1 & Hcur1).
  assert (directory_of (storage options) w1 = Some d) as Hdir1
    by (by rewrite (directory_of_frame _ w w1 Hcur1)).
  exists (set_files (delete (file_of d key) (files w1)) w1).
  assert (delete (file_of d key) (files w1) = delete (file_of d key) (files w))
    as Hdel by (by rewrite Hfiles1, delete_insert_eq).
  split; [|split; [done|]].
  - unfold mbind, Async_bind. rewrite Hset.
    unfold remove, mbind, Async_bind.
    rewrite (getFileName_resolves key _ w1 d Hkey Hdir1).
    unfold fs.removeFile. by rewrite Hfiles1, lookup_insert_eq.
  - rewrite (get_reads key (storage options) _ d n Hkey); [|done| |].
    + simpl. rewrite lookup_delete_eq.
      rewrite bool_decide_eq_false_2; [done|].
      by apply (not_in_dirs_after d key w w1).
    + intros p Hp. simpl. rewrite Hdel.
      apply lookup_delete_None. right. by apply Hcan.
    + split; [done|]. simpl. by rewrite Hfaults1.
Qed.

Lemma set_remove_get_witness :
  ∃ w2,
    (_ ← set "theme" dark write_in_data; remove "theme" in_data) fresh
    = (w2, Ok tt)
    ∧ files w2 = delete (file_of "/data" "theme") (files fresh)
    ∧ snd (get "theme" in_data w2) = Ok empty_object.
Proof.
  apply (set_remove_get "theme" dark write_in_data fresh "/data" 0).
  - split; [done|reflexivity].
  - reflexivity.
  - done.
  - by vm_compute.
  - intros p Hp. reflexivity.
  - split; [lia|reflexivity].
Defined.

(** X10: when the file of the key exists, [get] answers what
    [JSON.parse] makes of its text.  A file that holds no JSON
    document, an empty file for one, makes [get] fail with the error of
    the parser; it is not read as the empty object. *)
Theorem get_parses_the_file (key : string) (options : StorageOptions)
  (w : World) (d : string) (n : nat) (text : string) :
  valid_key key →
  directory_of options w = Some d →
  files w !! file_of d key = Some text →
  can_be_directory (path.normalize d) w →
  transient_faults n w →
  snd (get key options w) = JSON.parse text
  ∧ (text = ""%string → snd (get key options w) = Throw SyntaxError).
Proof.
  intros Hkey Hdir Hfile Hcan Hfaults.
  rewrite (get_reads key options w d n Hkey Hdir Hcan Hfaults), Hfile.
  split; [done|]. by intros ->.
Qed.

Lemma get_parses_the_file_witness :
  snd (get "a" in_data (set_files {[ "/data/a.json"%string := "{oops"%string ]}
                          disk))
  = Throw SyntaxError.
Proof.
  destruct (get_parses_the_file "a" in_data
              (set_files {[ "/data/a.json"%string := "{oops"%string ]} disk)
              "/data" 0 "{oops") as [-> _].
  - split; [done|reflexivity].
  - reflexivity.
  - reflexivity.
  - intros p [-> | ->]%lineage_data; reflexivity.
  - split; [lia|reflexivity].
  - reflexivity.
Defined.

Lemma createDir_throws (d : string) (w w' : World) (e : Error) :
  fs.createDir d w = (w', Throw e) → code e ≠ None.
Proof.
  unfold fs.createDir. destruct (existsb _ _); [|done].
  by intros [= <- <-].
Qed.

Lemma writeFile_throws (contents p : string) (w w' : World) (e : Error) :
  fs.writeFile contents p w = (w', Throw e) → code e ≠ None.
Proof.
  unfold fs.writeFile. repeat case_bool_decide; try done; by intros [= <- <-].
Qed.

(** X11: [set] refuses a value that has no JSON text, [undefined], with
    the error [Invalid JSON data] and before it touches the disk; it
    fails with that error for no other value. *)
Theorem set_rejects_undefined (key : string) (json : Json)
  (options : WriteOptions) (w : World) (d : string) :
  valid_key key →
  directory_of (storage options) w = Some d →
  (json = jundefined →
   set key json options w = (w, Throw (new_Error "Invalid JSON data")))
  ∧ (snd (set key json options w) = Throw (new_Error "Invalid JSON data") →
     json = jundefined).
Proof.
  intros Hkey Hdir.
  assert (∀ v, set key v options w =
    match stringify v (if default false (prettyPrinting options) then 2 else 0)
    with
    | None => (w, Throw (new_Error "Invalid JSON data"))
    | Some data =>
        if String.eqb data ""
        then (w, Throw (new_Error "Invalid JSON data"))
        else (_ ← fs.createDir (path.dirname (file_of d key));
              fs.writeFile data (file_of d key)) w
    end) as Hset.
  { intros v. unfold set. unfold mbind at 1, Async_bind at 1.
    destruct (storage options) as [dp] eqn:Hst. simpl.
    rewrite (getFileName_resolves key {| dataPath := dp |} w d Hkey Hdir).
    destruct (stringify v _) as [data|]; [|done].
    by destruct (String.eqb data ""). }
  split.
  - intros ->. by rewrite Hset.
  - destruct (undefined_or_not json) as [->|Hjson]; [done|].
    rewrite Hset.
    destruct (stringify_defined json
                (if default false (prettyPrinting options) then 2 else 0)
                Hjson) as (data & -> & ->).
    unfold mbind, Async_bind.
    destruct (fs.createDir _ w) as [w1 [[]|e]] eqn:Hmk; simpl.
    + destruct (fs.writeFile data _ w1) as [w2 [[]|e]] eqn:Hwr; simpl; [done|].
      intros [= ->]. by apply writeFile_throws in Hwr.
    + intros [= ->]. by apply createDir_throws in Hmk.
Qed.

Lemma set_rejects_undefined_witness :
  set "theme" jundefined write_in_data fresh
  = (fresh, Throw (new_Error "Invalid JSON data")).
Proof.
  destruct (set_rejects_undefined "theme" jundefined write_in_data fresh
              "/data") as [H _].
  - split; [done|reflexivity].
  - reflexivity.
  - by apply H.
Defined.

(** X12: [get] makes the data directory when it can be made, even for
    a key that has no file; [has] makes no directory. *)
Theorem get_makes_the_directory (key : string) (options : StorageOptions)
  (w : World) (d : string) :
  valid_key key →
  directory_of options w = Some d →
  can_be_directory (path.normalize d) w →
  path.normalize d ∈ dirs (fst (get key options w))
  ∧ dirs (fst (has key options w)) = dirs w.
Proof.
  intros Hkey Hdir Hcan.
  pose proof (directory_of_nonempty _ _ _ Hdir) as Hd.
  split.
  - unfold get, mbind, Async_bind. destruct options as [dp]. simpl.
    rewrite (getFileName_resolves key {| dataPath := dp |} w d Hkey Hdir).
    rewrite file_of_dirname by done. rewrite (createDir_Ok _ _ Hcan).
    pose proof (readFile_keeps (file_of d key) 0
      (set_dirs (dirs w ∪ list_to_set
         (fs.lineage (String.length (path.normalize d)) (path.normalize d))) w))
      as (_ & Hdirs & _).
    destruct (readFile (file_of d key) 0 _) as [w2 [text|e]]; simpl in *.
    + unfold of_outcome. destruct (JSON.parse text); simpl; rewrite Hdirs;
        rewrite elem_of_union, elem_of_list_to_set; right; apply lineage_head.
    + rewrite Hdirs, elem_of_union, elem_of_list_to_set. right.
      apply lineage_head.
  - unfold has, mbind, Async_bind, try_catch.
    rewrite (getFileName_resolves key options w d Hkey Hdir).
    pose proof (readFile_keeps (file_of d key) 0 w) as (_ & Hdirs & _).
    destruct (readFile (file_of d key) 0 w) as [w2 [text|e]]; simpl in *;
      [done|].
    by destruct (has_code e "ENOENT").
Qed.

Lemma get_makes_the_directory_witness :
  "/data"%string ∈ dirs (fst (get "theme" in_data fresh))
  ∧ dirs (fst (has "theme" in_data fresh)) = dirs fresh.
Proof.
  apply (get_makes_the_directory "theme" in_data fresh "/data").
  - split; [done|reflexivity].
  - reflexivity.
  - intros p Hp. reflexivity.
Defined.

(** ** What the operations leave alone *)

Section Frame.
Variable R : World → World → Prop.
Hypothesis R_refl : ∀ w, R w w.
Hypothesis R_trans : ∀ w1 w2 w3, R w1 w2 → R w2 w3 → R w1 w3.
Hypothesis R_record : ∀ e w, R w (record e w).
Hypothesis R_faults : ∀ l w, R w (set_faults l w).
Hypothesis R_dirs : ∀ d w, R w (set_dirs d w).

Lemma preserves_ret {A : Type} (a : A) : preserves R (mret a).
Proof. intros w. apply R_refl. Qed.

Lemma preserves_throw {A : Type} (e : Error) : preserves R (@throw A e).
Proof. intros w. apply R_refl. Qed.

Lemma preserves_bind {A B : Type} (m : Async A) (k : A → Async B) :
  preserves R m → (∀ a, preserves R (k a)) → preserves R (m ≫= k).
Proof.
  intros Hm Hk w. unfold mbind, Async_bind.
  specialize (Hm w). destruct (m w) as [w1 [a|e]]; simpl in *; [|done].
  apply (R_trans _ w1); [done|apply Hk].
Qed.

Lemma preserves_try_catch {A : Type} (m : Async A) (k : Error → Async A) :
  preserves R m → (∀ e, preserves R (k e)) → preserves R (try_catch m k).
Proof.
  intros Hm Hk w. unfold try_catch.
  specialize (Hm w). destruct (m w) as [w1 [a|e]]; simpl in *; [done|].
  apply (R_trans _ w1); [done|apply Hk].
Qed.

Lemma preserves_of_outcome {A : Type} (o : Outcome A) :
  preserves R (of_outcome o).
Proof. intros w. apply R_refl. Qed.

Lemma preserves_getFileName (key : string) (options : StorageOptions) :
  preserves R (getFileName key options).
Proof. intros w. rewrite getFileName_cases. apply R_refl. Qed.

Lemma preserves_dataPath (options : StorageOptions) :
  preserves R (js_or (of_string_opt (dataPath options)) getDataPath).
Proof.
  intros w. destruct (dataPath_or_current options w) as (v & -> & _).
  apply R_refl.
Qed.

Lemma preserves_path_arg (v : Value) : preserves R (path_arg v).
Proof. intros w. destruct v; apply R_refl. Qed.

Lemma preserves_createDir (d : string) : preserves R (fs.createDir d).
Proof.
  intros w. unfold fs.createDir.
  destruct (existsb _ _); simpl; [apply R_refl|apply R_dirs].
Qed.

Lemma preserves_readDir (d : string) : preserves R (fs.readDir d).
Proof.
  intros w. unfold fs.readDir. repeat case_bool_decide; apply R_refl.
Qed.

Lemma preserves_removeDir (p : string) : preserves R (fs.removeDir p).
Proof.
  intros w. unfold fs.removeDir. repeat case_bool_decide; try apply R_refl.
  destruct (fs.children p w); [apply R_dirs|apply R_refl].
Qed.

Lemma preserves_readTextFile (p : string) : preserves R (fs.readTextFile p).
Proof.
  intros w. unfold fs.readTextFile. simpl.
  destruct (faults w) as [|c rest]; simpl.
  - destruct (files w !! p); [apply R_record|].
    case_bool_decide; apply R_record.
  - apply (R_trans _ (record (ev_read p) w)); [apply R_record|].
    apply (R_faults rest (record (ev_read p) w)).
Qed.

Lemma preserves_readFile (fileName : string) (times : nat) :
  preserves R (readFile fileName times).
Proof.
  intros w. revert times w. apply (readFile_ind (λ times w, R w _)).
  intros times w IH. rewrite readFile_step.
  pose proof (preserves_readTextFile fileName w) as Hread.
  destruct (fs.readTextFile fileName w) as [w1 [text|error]]; simpl in Hread;
    [done|].
  destruct (has_code error "ENOENT"); [done|].
  destruct (has_code error "EPERM"); cbn [andb]; [|done].
  destruct (Nat.ltb_spec times 10) as [Hlt|Hge]; [|done].
  apply (R_trans _ w1); [done|].
  apply (R_trans _ (fst (sleep 1000 w1))); [apply R_record|].
  apply (IH Hlt).
Qed.

Lemma preserves_get (key : string) (options : StorageOptions) :
  preserves R (get key options).
Proof.
  unfold get.
  apply preserves_bind; [apply preserves_getFileName|]. intros fileName.
  apply preserves_bind; [apply preserves_createDir|]. intros _.
  apply preserves_bind; [|intros; apply preserves_ret].
  apply preserves_bind; [apply preserves_readFile|]. intros text.
  apply preserves_of_outcome.
Qed.

Lemma preserves_has (key : string) (options : StorageOptions) :
  preserves R (has key options).
Proof.
  unfold has.
  apply preserves_bind; [apply preserves_getFileName|]. intros fileName.
  apply preserves_try_catch.
  - apply preserves_bind; [apply preserves_readFile|].
    intros; apply preserves_ret.
  - intros e. destruct (has_code e "ENOENT");
      [apply preserves_ret|apply preserves_throw].
Qed.

Lemma preserves_keys (options : StorageOptions) : preserves R (keys options).
Proof.
  unfold keys.
  apply preserves_bind; [apply preserves_dataPath|]. intros v.
  apply preserves_bind; [apply preserves_path_arg|]. intros dir.
  apply preserves_bind; [apply preserves_createDir|]. intros _.
  apply preserves_bind; [apply preserves_readDir|]. intros entries.
  apply preserves_ret.
Qed.

Lemma preserves_clear (options : StorageOptions) : preserves R (clear options).
Proof.
  unfold clear.
  apply preserves_bind; [apply preserves_dataPath|]. intros v.
  apply preserves_bind; [apply preserves_path_arg|]. intros dir.
  apply preserves_removeDir.
Qed.

Lemma preserves_getMany (ks : list string) (options : StorageOptions) :
  preserves R (getMany ks options).
Proof.
  intros w. unfold getMany.
  assert (∀ st, R (fst (fst st))
                  (fst (fst (fold_left (getMany_callback options) ks st))))
    as Hfold.
  { induction ks as [|k ks IH]; intros st; simpl; [apply R_refl|].
    apply (R_trans _ (fst (fst (getMany_callback options st k)))); [|apply IH].
    destruct st as [[w0 h] prev]. simpl.
    pose proof (preserves_get k options w0) as Hget.
    by destruct (get k options w0) as [w1 [v|e]]. }
  specialize (Hfold (w, [Heap.mkObject [] None], 0)).
  destruct (fold_left _ ks _) as [[w1 h] acc]. simpl in Hfold.
  by destruct (Heap.resolution h acc).
Qed.

Lemma preserves_getAll (options : StorageOptions) :
  preserves R (getAll options).
Proof.
  unfold getAll.
  apply preserves_bind; [apply preserves_keys|]. intros found w.
  assert (∀ st, R (fst (fst st))
                  (fst (fst (fold_left (getAll_callback options) found st))))
    as Hfold.
  { induction found as [|k ks IH]; intros st; simpl; [apply R_refl|].
    apply (R_trans _ (fst (fst (getAll_callback options st k)))); [|apply IH].
    destruct st as [[w0 h] prev]. simpl.
    pose proof (preserves_get k options w0) as Hget.
    by destruct (get k options w0) as [w1 [v|e]]. }
  specialize (Hfold (w, [Accumulator.mkObject [] Accumulator.literal], 0)).
  by destruct (fold_left _ found _) as [[w1 h] acc].
Qed.

Hypothesis R_files : ∀ f w, R w (set_files f w).

Lemma preserves_set (key : string) (json : Json) (options : WriteOptions) :
  preserves R (set key json options).
Proof.
  unfold set.
  apply preserves_bind; [apply preserves_getFileName|]. intros fileName.
  destruct (stringify json _) as [data|]; [|apply preserves_throw].
  destruct (String.eqb data ""); [apply preserves_throw|].
  apply preserves_bind; [apply preserves_createDir|]. intros _ w.
  unfold fs.writeFile. repeat case_bool_decide; try apply R_refl.
  apply R_files.
Qed.

Lemma preserves_remove (key : string) (options : StorageOptions) :
  preserves R (remove key options).
Proof.
  unfold remove.
  apply preserves_bind; [apply preserves_getFileName|]. intros fileName w.
  unfold fs.removeFile. destruct (files w !! fileName); [apply R_files|].
  case_bool_decide; apply R_refl.
Qed.

End Frame.

Lemma same_documents_trans (w1 w2 w3 : World) :
  same_documents w1 w2 → same_documents w2 w3 → same_documents w1 w3.
Proof. intros [H1 H2] [H3 H4]. split; congruence. Qed.

(** X13: the operations that read, [get], [has], [keys], [getMany] and
    [getAll], write no file and delete none, whatever they answer. *)
Theorem reads_write_nothing (key : string) (ks : list string)
  (options : StorageOptions) (w : World) :
  files (fst (get key options w)) = files w
  ∧ files (fst (has key options w)) = files w
  ∧ files (fst (keys options w)) = files w
  ∧ files (fst (getMany ks options w)) = files w
  ∧ files (fst (getAll options w)) = files w.
Proof.
  assert (∀ A (m : Async A), preserves same_documents m →
            files (fst (m w)) = files w) as Hfiles.
  { intros A m Hm. apply (Hm w). }
  repeat split; apply Hfiles.
  - apply preserves_get; try done. apply same_documents_trans.
  - apply preserves_has; try done. apply same_documents_trans.
  - apply preserves_keys; try done. apply same_documents_trans.
  - apply preserves_getMany; try done. apply same_documents_trans.
  - apply preserves_getAll; try done. apply same_documents_trans.
Qed.

(** X14: no operation of the store changes the override of the data
    directory, whatever it answers; [setDataPath] alone does. *)
Theorem override_is_kept (key : string) (ks : list string) (json : Json)
  (options : StorageOptions) (woptions : WriteOptions) (w : World) :
  currentDataPath (fst (get key options w)) = currentDataPath w
  ∧ currentDataPath (fst (getMany ks options w)) = currentDataPath w
  ∧ currentDataPath (fst (getAll options w)) = currentDataPath w
  ∧ currentDataPath (fst (set key json woptions w)) = currentDataPath w
  ∧ currentDataPath (fst (has key options w)) = currentDataPath w
  ∧ currentDataPath (fst (keys options w)) = currentDataPath w
  ∧ currentDataPath (fst (remove key options w)) = currentDataPath w
  ∧ currentDataPath (fst (clear options w)) = currentDataPath w.
Proof.
  assert (∀ w1 w2 w3, same_override w1 w2 → same_override w2 w3 →
            same_override w1 w3) as Htrans.
  { unfold same_override. intros. congruence. }
  assert (∀ A (m : Async A), preserves same_override m →
            currentDataPath (fst (m w)) = currentDataPath w) as Hkept.
  { intros A m Hm. apply (Hm w). }
  repeat split; apply Hkept.
  - by apply preserves_get.
  - by apply preserves_getMany.
  - by apply preserves_getAll.
  - by apply preserves_set.
  - by apply preserves_has.
  - by apply preserves_keys.
  - by apply preserves_remove.
  - by apply preserves_clear.
Qed.

(** ** The reductions of [getMany] and [getAll] *)

Lemma heap_assign_length (target : nat) (key : string) (v : Json)
  (h : Heap.Heap) :
  length (Heap.assign target key v h) = length h.
Proof.
  unfold Heap.assign. destruct (String.eqb key "__proto__"); [done|].
  apply length_alter.
Qed.

Lemma getMany_callback_one_property (options : StorageOptions)
  (w : World) (h : Heap.Heap) (prev : nat) (key : string) :
  one_property_each h prev →
  one_property_each (snd (fst (getMany_callback options (w, h, prev) key)))
    (snd (getMany_callback options (w, h, prev) key)).
Proof.
  intros [Hall (o & Ho & Hprops)]. unfold getMany_callback.
  destruct (get key options w) as [w1 [v|e]]; simpl.
  - assert (Forall (λ o, length (Heap.props o) ≤ 1)
              (Heap.assign prev key v h)) as Hall1.
    { unfold Heap.assign. destruct (String.eqb key "__proto__"); [done|].
      apply Forall_lookup. intros i x Hx. unfold Heap.Heap in *.
      destruct (decide (i = prev)) as [->|Hne].
      - rewrite list_lookup_alter_eq, Ho in Hx. simpl in Hx.
        injection Hx as <-. simpl. rewrite Hprops. simpl. lia.
      - rewrite list_lookup_alter_ne in Hx by done.
        by apply (Forall_lookup_1 _ _ _ _ Hall Hx). }
    split.
    + apply Forall_app. split; [done|]. by repeat constructor.
    + exists (Heap.mkObject [] (Some (Heap.resolution
                                        (Heap.assign prev key v h) prev))).
      split; [|done]. unfold Heap.Heap in *.
      rewrite lookup_app_r by (rewrite heap_assign_length; lia).
      by rewrite heap_assign_length, Nat.sub_diag.
  - split.
    + apply Forall_app. split; [done|]. by repeat constructor.
    + exists (Heap.mkObject [] (Some (Heap.rejected e))). split; [|done].
      unfold Heap.Heap in *.
      rewrite lookup_app_r by lia. by rewrite Nat.sub_diag.
Qed.

Lemma getMany_fold_one_property (options : StorageOptions)
  (ks : list string) (st : World * Heap.Heap * nat) :
  one_property_each (snd (fst st)) (snd st) →
  one_property_each
    (snd (fst (fold_left (getMany_callback options) ks st)))
    (snd (fold_left (getMany_callback options) ks st)).
Proof.
  revert st. induction ks as [|k ks IH]; intros st Hst; [done|].
  simpl. apply IH. destruct st as [[w h] prev].
  by apply getMany_callback_one_property.
Qed.

(** X15: the object [getMany] returns never has more than one entry,
    however many keys are asked for. *)
Theorem getMany_at_most_one_entry (ks : list string)
  (options : StorageOptions) (w : World) (members : list (string * Json)) :
  snd (getMany ks options w) = Ok (jobject members) → length members ≤ 1.
Proof.
  unfold getMany.
  pose proof (getMany_fold_one_property options ks
                (w, [Heap.mkObject [] None], 0)) as Hinv.
  destruct (fold_left _ ks _) as [[w1 h] acc]. simpl in Hinv.
  destruct Hinv as [Hall _].
  { split; [by repeat constructor|]. by eexists. }
  destruct (Heap.resolution h acc) as [x|e]; simpl; [|done].
  unfold Heap.read. destruct (h !! x) as [o|] eqn:Ho; [|done].
  intros [= <-]. by apply (Forall_lookup_1 _ _ _ _ Hall Ho).
Qed.

Lemma getMany_at_most_one_entry_witness :
  snd (getMany ["a"; "b"]%string in_data two_keys)
  = Ok (jobject [("a"%string, dark)])
  ∧ length [("a"%string, dark)] ≤ 1.
Proof.
  assert (snd (getMany ["a"; "b"]%string in_data two_keys)
          = Ok (jobject [("a"%string, dark)])) as Hrun by (by vm_compute).
  split; [exact Hrun|].
  apply (getMany_at_most_one_entry ["a"; "b"]%string in_data two_keys).
  exact Hrun.
Defined.

(** X21: [getMany] of no key returns the empty object, and [getMany] of
    one key does what [get] of the key does: it fails as [get] fails,
    and returns an object whose one entry is the document of the key,
    except that for the key [__proto__] the object has no property of
    its own. *)
Theorem getMany_single_key (key : string) (options : StorageOptions)
  (w : World) :
  getMany [] options w = (w, Ok empty_object)
  ∧ fst (getMany [key] options w) = fst (get key options w)
  ∧ snd (getMany [key] options w)
    = match snd (get key options w) with
      | Ok v =>
          Ok (if String.eqb key "__proto__" then empty_object
              else jobject [(key, v)])
      | Throw e => Throw e
      end.
Proof.
  split; [done|]. unfold getMany. simpl.
  destruct (get key options w) as [w1 [v|e]]; simpl; [|done].
  unfold Heap.assign. by destruct (String.eqb key "__proto__").
Qed.

Lemma snoc_cases {A : Type} (l : list A) :
  l = [] ∨ ∃ l' x, l = l' ++ [x].
Proof.
  induction l as [|x l' _] using rev_ind; [by left|]. right. by exists l', x.
Qed.

Lemma fold_left_snoc {A B : Type} (f : A → B → A) (l : list B) (x : B)
  (a : A) :
  fold_left f (l ++ [x]) a = f (fold_left f l a) x.
Proof. by rewrite fold_left_app. Qed.

Lemma assign_length (target : nat) (key : string) (v : Json)
  (h : list Accumulator.Object) :
  length (Accumulator.assign target key v h) = length h.
Proof.
  unfold Accumulator.assign. destruct (String.eqb key "__proto__"); [done|].
  apply length_alter.
Qed.

(** What the reduction of [getAll] returns when there is a name to
    fold over: the promise of the last call, which fulfils with
    [undefined]. *)
Lemma getAll_fold_result (options : StorageOptions) (found : list string)
  (st : World * list Accumulator.Object * nat) :
  found ≠ [] →
  ∀ v,
    Accumulator.result
      (snd (fst (fold_left (getAll_callback options) found st)))
      (snd (fold_left (getAll_callback options) found st)) = Ok v →
    v = jundefined.
Proof.
  intros Hne v.
  destruct (snoc_cases found) as [->|(l' & k & ->)]; [done|].
  rewrite fold_left_snoc.
  destruct (fold_left _ l' st) as [[w h] prev].
  unfold getAll_callback. destruct (get k options w) as [w1 [x|e]]; simpl.
  - unfold Accumulator.result.
    rewrite lookup_app_r by (rewrite assign_length; lia).
    rewrite assign_length, Nat.sub_diag. simpl. by intros [= <-].
  - unfold Accumulator.result.
    rewrite lookup_app_r by lia. by rewrite Nat.sub_diag.
Qed.

(** X16: [getAll] returns no document.  When there is nothing in the
    data directory it fulfils with the empty object; when there is
    something, whatever it fulfils with is [undefined]. *)
Theorem getAll_returns_no_document (options : StorageOptions) (w : World) :
  (snd (keys options w) = Ok [] → snd (getAll options w) = Ok empty_object)
  ∧ (∀ v, snd (getAll options w) = Ok v →
       v = jundefined
       ∨ (v = empty_object ∧ snd (keys options w) = Ok [])).
Proof.
  unfold getAll, mbind, Async_bind.
  destruct (keys options w) as [w1 [found|e]]; simpl; [|done].
  split.
  - by intros [= ->].
  - intros v. destruct found as [|k ks]; [simpl; intros [= <-]; by right|].
    pose proof (getAll_fold_result options (k :: ks)
                  (w1, [Accumulator.mkObject [] Accumulator.literal], 0)
                  ltac:(done) v) as Hres.
    destruct (fold_left _ (k :: ks) _) as [[w2 h] acc].
    simpl in *. intros Hv. left. by apply Hres.
Qed.

Lemma getAll_returns_no_document_witness :
  snd (getAll in_data fresh) = Ok empty_object
  ∧ (jundefined = jundefined
     ∨ (jundefined = empty_object ∧ snd (keys in_data two_keys) = Ok [])).
Proof.
  split.
  - apply (proj1 (getAll_returns_no_document in_data fresh)). by vm_compute.
  - apply (proj2 (getAll_returns_no_document in_data two_keys)).
    by vm_compute.
Defined.

(** ** The listing of the data directory *)

Lemma keys_filter_keeps (entries : list fs.FileEntry) :
  List.filter
    (λ key, truthy
       (vpromise (vbool (String.eqb (path.extname (fs.name key)) ".json"))))
    entries = entries.
Proof.
  induction entries as [|e l IH]; [done|]. simpl. f_equal. exact IH.
Qed.

(** What [keys] answers for a data directory that exists or can be
    made: the names of all that lies directly in it. *)
Lemma keys_lists (options : StorageOptions) (w : World) (d : string) :
  directory_of options w = Some d →
  can_be_directory d w →
  keys options w
  = let w1 :=
      set_dirs (dirs w ∪ list_to_set (fs.lineage (String.length d) d)) w in
    (w1, Ok (map (Str.after_last path.sep) (fs.children d w1))).
Proof.
  intros Hdir Hcan. unfold keys, mbind, Async_bind.
  destruct (dataPath_or_current options w) as (v & -> & Hv).
  rewrite Hdir in Hv. subst v. simpl.
  rewrite (createDir_Ok _ _ Hcan). unfold fs.readDir. simpl.
  rewrite bool_decide_eq_true_2.
  2:{ rewrite elem_of_union, elem_of_list_to_set. right. apply lineage_head. }
  unfold mret, Async_ret. rewrite keys_filter_keeps.
  by rewrite map_map.
Qed.

Lemma filter_nil {A : Type} (f : A → bool) (l : list A) :
  (∀ x, x ∈ l → f x = false) → List.filter f l = [].
Proof.
  induction l as [|x l IH]; intros H; [done|]. simpl.
  rewrite (H x) by left. apply IH. intros y Hy. apply H. by right.
Qed.

(** A directory is no entry of itself or of a directory below it. *)
Lemma lineage_no_child (d p : string) (fuel : nat) :
  p ∈ fs.lineage fuel d → path.dirname p = d → p = d.
Proof.
  intros Hp Hdir.
  pose proof (lineage_length _ _ _ Hp) as Hlen.
  pose proof (dirname_length p) as [_ Hlt]. rewrite Hdir in Hlt.
  destruct (decide (2 ≤ String.length p)) as [H2|H2].
  { specialize (Hlt H2). destruct d; simpl in *; lia. }
  assert (d = "/"%string ∧ p = "/"%string ∨ d = "."%string) as [[-> ->] | ->].
  { destruct p as [|c [|c2 r]]; simpl in H2; [by right| |lia].
    unfold path.dirname in Hdir. simpl in Hdir.
    destruct (Ascii.eqb_spec c path.sep) as [->|Hc]; simpl in Hdir.
    - left. subst d. split; reflexivity.
    - right. rewrite (proj2 (Ascii.eqb_neq c path.sep) Hc) in Hdir.
      by subst d. }
  - done.
  - destruct fuel; simpl in Hp; by apply list_elem_of_singleton in Hp.
Qed.

(** X17: on a data directory that holds nothing, or does not exist
    yet, [keys] makes the directory and answers the empty list.  The
    directory is given in its normalised form. *)
Theorem keys_of_new_directory (options : StorageOptions) (w : World)
  (d : string) :
  directory_of options w = Some d →
  path.normalize d = d →
  can_be_directory d w →
  (∀ p, p ∈ fs.paths w → path.dirname p = d → p = d) →
  snd (keys options w) = Ok []
  ∧ d ∈ dirs (fst (keys options w)).
Proof.
  intros Hdir _ Hcan Hempty. rewrite (keys_lists options w d Hdir Hcan). simpl.
  split.
  2:{ rewrite elem_of_union, elem_of_list_to_set. right. apply lineage_head. }
  unfold fs.children. rewrite filter_nil; [done|].
  intros p Hp. unfold fs.paths in Hp. simpl in Hp.
  apply elem_of_elements in Hp.
  destruct (String.eqb_spec (path.dirname p) d) as [Hd|_]; [|done]. simpl.
  assert (p = d) as ->; [|by rewrite String.eqb_refl].
  rewrite (assoc_L (∪)) in Hp. apply elem_of_union in Hp as [Hp|Hp].
  - apply Hempty; [|done]. unfold fs.paths. by apply elem_of_elements.
  - apply elem_of_list_to_set in Hp. by apply (lineage_no_child d p _ Hp).
Qed.

Lemma keys_of_new_directory_witness :
  snd (keys in_data fresh) = Ok []
  ∧ "/data"%string ∈ dirs (fst (keys in_data fresh)).
Proof.
  apply (keys_of_new_directory in_data fresh "/data").
  - reflexivity.
  - reflexivity.
  - intros p Hp. reflexivity.
  - intros p Hp.
    assert (fs.paths fresh = []) as Hnone by (by vm_compute).
    rewrite Hnone in Hp. by apply elem_of_nil in Hp.
Defined.

(** X18: after [set] of a key, [keys] lists the name of the key's
    file, which is the escaped name with its [.json] suffix and not the
    key as it was given. *)
Theorem set_then_keys (key : string) (json : Json) (options : WriteOptions)
  (w : World) (d : string) :
  valid_key key →
  directory_of (storage options) w = Some d →
  path.normalize d = d →
  json ≠ jundefined →
  file_of d key ∉ dirs w →
  can_be_directory d w →
  ∃ w1 names,
    set key json options w = (w1, Ok tt)
    ∧ snd (keys (storage options) w1) = Ok names
    ∧ escapedFileName key ∈ names.
Proof.
  intros Hkey Hdir Hnorm Hjson Hnodir Hcan.
  pose proof (directory_of_nonempty _ _ _ Hdir) as Hd.
  assert (can_be_directory (path.normalize d) w) as Hcan'
    by (by rewrite Hnorm).
  destruct (set_succeeds key json options w d Hkey Hdir Hjson Hnodir Hcan')
    as (data & w1 & _ & Hset & Hfiles1 & Hdirs1 & Hfaults1 & Hcur1).
  exists w1. eexists. split; [exact Hset|].
  rewrite (keys_lists (storage options) w1 d).
  - simpl. split; [reflexivity|].
    destruct (dirname_join d (escapedFileName key) Hd
                (escapedFileName_segment key)) as [Hdirname Hname].
    fold (file_of d key) in Hdirname, Hname.
    rewrite <- Hname. apply list_elem_of_In, in_map.
    unfold fs.children. apply filter_In. split.
    + apply list_elem_of_In. unfold fs.paths. apply elem_of_elements.
      simpl. apply elem_of_union. left.
      rewrite Hfiles1. apply elem_of_dom. by rewrite lookup_insert_eq.
    + rewrite Hdirname, Hnorm, String.eqb_refl. simpl.
      destruct (String.eqb_spec (file_of d key) d) as [Heq|_]; [|done].
      pose proof (file_of_not_lineage d key (String.length d) Hd) as Hnl.
      rewrite Hnorm, Heq in Hnl. by destruct Hnl; apply lineage_head.
  - by rewrite (directory_of_frame _ w w1 Hcur1).
  - rewrite <- Hnorm.
    apply (can_be_directory_insert d key data w w1 Hd Hfiles1 Hcan').
Qed.

Lemma set_then_keys_witness :
  ∃ w1 names,
    set "my key" dark write_in_data fresh = (w1, Ok tt)
    ∧ snd (keys in_data w1) = Ok names
    ∧ escapedFileName "my key" ∈ names.
Proof.
  apply (set_then_keys "my key" dark write_in_data fresh "/data").
  - split; [done|reflexivity].
  - reflexivity.
  - reflexivity.
  - done.
  - by vm_compute.
  - intros p Hp. reflexivity.
Defined.

(** ** The override of the data directory *)

Lemma normalize_absolute (d : string) :
  path.isAbsolute d = true →
  path.isAbsolute (path.normalize d) = true
  ∧ path.normalize d ≠ ""%string.
Proof.
  intros Habs. unfold path.normalize. rewrite Habs. split; [|done].
  unfold path.isAbsolute. rewrite string_app_cons, prefix_cons.
  destruct (ascii_dec "/" "/"); [apply prefix_nil|done].
Qed.

(** X19: [setDataPath] keeps the normalised form of an absolute
    directory, which [getDataPath] then answers and [getFileName] uses
    for a call without a [dataPath] of its own; a directory that is
    not absolute is refused, and the override stays as it was. *)
Theorem setDataPath_then_getDataPath (directory : string) (w : World) :
  (path.isAbsolute directory = true →
   (_ ← setDataPath (Some directory); getDataPath) w
   = (set_currentDataPath (Some (path.normalize directory)) w,
      Ok (vstring (path.normalize directory)))
   ∧ path.isAbsolute (path.normalize directory) = true
   ∧ ∀ key, valid_key key →
       snd (getFileName key {| dataPath := None |}
              (fst (setDataPath (Some directory) w)))
       = Ok (file_of (path.normalize directory) key))
  ∧ (path.isAbsolute directory = false →
     setDataPath (Some directory) w
     = (w, Throw (new_Error "The user data path should be an absolute path"))).
Proof.
  split; intros Habs.
  - destruct (normalize_absolute directory Habs) as [Hnabs Hne].
    unfold setDataPath, mbind, Async_bind. rewrite Habs. simpl.
    split; [by rewrite getDataPath_Ok|]. split; [done|].
    intros key Hkey.
    rewrite (getFileName_resolves key _ _ (path.normalize directory) Hkey);
      [done|].
    unfold directory_of, given. simpl.
    by destruct (String.eqb_spec (path.normalize directory) "").
  - unfold setDataPath. by rewrite Habs.
Qed.

Lemma setDataPath_then_getDataPath_witness :
  (_ ← setDataPath (Some "/var/app/../data/"%string); getDataPath) fresh
  = (set_currentDataPath (Some "/var/data"%string) fresh,
     Ok (vstring "/var/data"))
  ∧ setDataPath (Some "data"%string) fresh
    = (fresh,
       Throw (new_Error "The user data path should be an absolute path")).
Proof.
  destruct (setDataPath_then_getDataPath "/var/app/../data/" fresh)
    as [Habs _].
  destruct (setDataPath_then_getDataPath "data" fresh) as [_ Hrel].
  split.
  - destruct (Habs eq_refl) as [H _]. exact H.
  - apply Hrel. reflexivity.
Defined.

(** ** Lock files *)

Lemma ends_with_app (ext s : string) : Str.ends_with ext (s +:+ ext) = true.
Proof.
  induction s as [|a r IH]; rewrite ends_with_unfold.
  - rewrite string_app_nil. by rewrite String.eqb_refl.
  - rewrite string_app_cons. by destruct (String.eqb _ ext).
Qed.

Lemma ends_with_lock (s : string) :
  Str.ends_with ".json" (s +:+ ".lock") = false.
Proof.
  induction s as [|a r IH]; [done|].
  rewrite ends_with_unfold, string_app_cons, IH.
  destruct (String.eqb_spec (String a (r +:+ ".lock")) ".json") as [Heq|_];
    [|done].
  apply (f_equal String.length) in Heq. simpl in Heq.
  rewrite string_app_length in Heq. simpl in Heq. lia.
Qed.

(** The path of a file in a directory ends with the name of the file. *)
Lemma join_ends (d e : string) :
  d ≠ ""%string → segment e → ∃ x, path.join d e = x +:+ e.
Proof.
  intros Hd He. rewrite (join_shape d e Hd He).
  destruct (rev _).
  - by eexists.
  - exists (path.normalize d +:+ "/"). by rewrite string_app_assoc.
Qed.

(** X20: the file of a key ends with [.json], so that the name
    [getLockFileName] makes, which ends with [.lock], is the file of no
    key. *)
Theorem lock_file_is_no_document (key : string) (options : StorageOptions)
  (w : World) (f fileName : string) :
  snd (getFileName key options w) = Ok f →
  Str.ends_with ".json" f = true
  ∧ getLockFileName fileName ≠ f.
Proof.
  rewrite getFileName_cases. simpl.
  destruct (String.eqb key ""); [done|].
  destruct (Str.trims_to_empty key); [done|].
  destruct (directory_of options w) as [d|] eqn:Hd; [|done].
  intros [= <-].
  pose proof (directory_of_nonempty _ _ _ Hd) as Hne.
  destruct (join_ends d (escapedFileName key) Hne (escapedFileName_segment key))
    as [x Hx].
  destruct (escapedFileName_json key) as [stem Hstem].
  assert (Str.ends_with ".json" (file_of d key) = true) as Hjson.
  { unfold file_of. rewrite Hx, Hstem, <- string_app_assoc.
    apply ends_with_app. }
  split; [done|]. intros Heq. rewrite <- Heq in Hjson.
  unfold getLockFileName in Hjson. by rewrite ends_with_lock in Hjson.
Qed.

Lemma lock_file_is_no_document_witness :
  Str.ends_with ".json" "/data/a.lock.json" = true
  ∧ getLockFileName "/data/a" ≠ "/data/a.lock.json"%string.
Proof.
  apply (lock_file_is_no_document "a.lock" in_data fresh).
  reflexivity.
Defined.

(** ** Errors of the read, and what [set] does not do *)

(** A permission error that persists through eleven attempts is
    thrown, after ten retries. *)
Lemma readFile_persistent (fileName : string) (w : World)
  (rest : list string) :
  faults w = replicate 11 "EPERM"%string ++ rest →
  snd (readFile fileName 0 w) = Throw (fs_error "EPERM")
  ∧ log (fst (readFile fileName 0 w)) = attempts 10 fileName ++ log w.
Proof.
  intros Hf.
  rewrite (readFile_EPERM_prefix 10 fileName 0 ("EPERM"%string :: rest) w);
    [|lia|by rewrite Hf].
  by rewrite readFile_last by lia.
Qed.

Lemma get_read_error (key : string) (options : StorageOptions) (w : World)
  (d : string) (e : Error) (l : list Event) :
  valid_key key →
  directory_of options w = Some d →
  can_be_directory (path.normalize d) w →
  (∀ w', faults w' = faults w →
         snd (readFile (file_of d key) 0 w') = Throw e
         ∧ log (fst (readFile (file_of d key) 0 w')) = l ++ log w') →
  snd (get key options w) = Throw e ∧ added (get key options) w = l.
Proof.
  intros Hkey Hdir Hcan Hread.
  pose proof (directory_of_nonempty _ _ _ Hdir) as Hd.
  enough (snd (get key options w) = Throw e
          ∧ log (fst (get key options w)) = l ++ log w) as [H1 H2].
  { split; [done|]. by apply added_app. }
  unfold get, mbind, Async_bind. destruct options as [dp]. simpl.
  rewrite (getFileName_resolves key {| dataPath := dp |} w d Hkey Hdir).
  rewrite file_of_dirname by done. rewrite (createDir_Ok _ _ Hcan).
  specialize (Hread (set_dirs (dirs w ∪ list_to_set
    (fs.lineage (String.length (path.normalize d)) (path.normalize d))) w)
    eq_refl).
  destruct (readFile (file_of d key) 0 _) as [w2 out]. simpl in Hread.
  destruct Hread as [-> Hlog]. done.
Qed.

Lemma has_read_error (key : string) (options : StorageOptions) (w : World)
  (d : string) (e : Error) (l : list Event) :
  valid_key key →
  directory_of options w = Some d →
  has_code e "ENOENT" = false →
  snd (readFile (file_of d key) 0 w) = Throw e
  ∧ log (fst (readFile (file_of d key) 0 w)) = l ++ log w →
  snd (has key options w) = Throw e ∧ added (has key options) w = l.
Proof.
  intros Hkey Hdir Hcode Hread.
  enough (snd (has key options w) = Throw e
          ∧ log (fst (has key options w)) = l ++ log w) as [H1 H2].
  { split; [done|]. by apply added_app. }
  unfold has, mbind, Async_bind, try_catch.
  rewrite (getFileName_resolves key options w d Hkey Hdir).
  destruct (readFile (file_of d key) 0 w) as [w2 out]. simpl in Hread.
  destruct Hread as [-> Hlog]. by rewrite Hcode.
Qed.

(** X22: an error of the read reaches the caller of [get] and of [has].
    A permission error that persists through the eleven attempts of
    [readFile] is thrown after the ten retries.  An error with any code
    other than [ENOENT] and [EPERM] is thrown by the attempt that meets
    it, at once or after up to ten retries for permission errors: the
    call reads the file once more than it retried, and never after the
    error. *)
Theorem read_errors_reach_the_caller (key : string)
  (options : StorageOptions) (w : World) (d : string) :
  valid_key key →
  directory_of options w = Some d →
  can_be_directory (path.normalize d) w →
  (∀ rest, faults w = replicate 11 "EPERM"%string ++ rest →
     snd (get key options w) = Throw (fs_error "EPERM")
     ∧ added (get key options) w = attempts 10 (file_of d key)
     ∧ snd (has key options w) = Throw (fs_error "EPERM")
     ∧ added (has key options) w = attempts 10 (file_of d key))
  ∧ (∀ n c rest, n ≤ 10 →
       faults w = replicate n "EPERM"%string ++ c :: rest →
       c ≠ "ENOENT"%string → c ≠ "EPERM"%string →
       snd (get key options w) = Throw (fs_error c)
       ∧ added (get key options) w = attempts n (file_of d key)
       ∧ snd (has key options w) = Throw (fs_error c)
       ∧ added (has key options) w = attempts n (file_of d key)).
Proof.
  intros Hkey Hdir Hcan. split.
  - intros rest Hf.
    destruct (get_read_error key options w d (fs_error "EPERM")
                (attempts 10 (file_of d key)) Hkey Hdir Hcan) as [G1 G2].
    { intros w' Hw'. apply (readFile_persistent _ _ rest). by rewrite Hw'. }
    destruct (has_read_error key options w d (fs_error "EPERM")
                (attempts 10 (file_of d key)) Hkey Hdir) as [H1 H2]; [done| |done].
    by apply (readFile_persistent _ _ rest).
  - intros n c rest Hn Hf Hc1 Hc2.
    assert (String.eqb c "ENOENT" = false) as Hne
      by (by destruct (String.eqb_spec c "ENOENT")).
    destruct (get_read_error key options w d (fs_error c)
                (attempts n (file_of d key)) Hkey Hdir Hcan) as [G1 G2].
    { intros w' Hw'.
      destruct (readFile_after_retries (file_of d key) w' n c rest Hn)
        as [Hout Hlog]; [by rewrite Hw'|done|].
      by rewrite Hne in Hout. }
    destruct (has_read_error key options w d (fs_error c)
                (attempts n (file_of d key)) Hkey Hdir) as [H1 H2]; [| |done].
    + unfold has_code. simpl. exact Hne.
    + destruct (readFile_after_retries (file_of d key) w n c rest Hn Hf Hc2)
        as [Hout Hlog].
      by rewrite Hne in Hout.
Qed.

Lemma read_errors_reach_the_caller_witness :
  snd (get "a" in_data (set_faults (replicate 11 "EPERM"%string) two_keys))
  = Throw (fs_error "EPERM")
  ∧ snd (has "a" in_data
           (set_faults ["EPERM"; "EPERM"; "EIO"; "EPERM"]%string two_keys))
    = Throw (fs_error "EIO")
  ∧ added (has "a" in_data)
      (set_faults ["EPERM"; "EPERM"; "EIO"; "EPERM"]%string two_keys)
    = attempts 2 (file_of "/data" "a").
Proof.
  split.
  - destruct (read_errors_reach_the_caller "a" in_data
                (set_faults (replicate 11 "EPERM"%string) two_keys) "/data")
      as [H _].
    + split; [done|reflexivity].
    + reflexivity.
    + intros p [-> | ->]%lineage_data; reflexivity.
    + by destruct (H [] eq_refl).
  - destruct (read_errors_reach_the_caller "a" in_data
                (set_faults ["EPERM"; "EPERM"; "EIO"; "EPERM"]%string two_keys)
                "/data") as [_ H].
    + split; [done|reflexivity].
    + reflexivity.
    + intros p [-> | ->]%lineage_data; reflexivity.
    + destruct (H 2 "EIO"%string ["EPERM"%string] ltac:(lia) eq_refl
                  ltac:(done) ltac:(done)) as (_ & _ & H1 & H2).
      by split.
Defined.

(** X23: [set] never reads: it makes no call of [readTextFile] and
    does not sleep, so the file is not read back after the write, and
    the option [validate] changes nothing to what [set] does. *)
Theorem set_never_reads_back (key : string) (json : Json)
  (options : WriteOptions) (w : World) :
  log (fst (set key json options w)) = log w
  ∧ faults (fst (set key json options w)) = faults w
  ∧ ∀ v, set key json
           {| storage := storage options; validate := v;
              prettyPrinting := prettyPrinting options |} w
         = set key json options w.
Proof.
  split; [|split; [|done]].
  - unfold set, mbind, Async_bind. rewrite getFileName_cases. simpl.
    destruct (String.eqb key ""); [done|].
    destruct (Str.trims_to_empty key); [done|].
    destruct (directory_of _ w); [|done].
    destruct (stringify json _) as [data|]; [|done].
    destruct (String.eqb data ""); [done|].
    unfold fs.createDir. destruct (existsb _ _); [done|]. simpl.
    unfold fs.writeFile. by repeat case_bool_decide.
  - unfold set, mbind, Async_bind. rewrite getFileName_cases. simpl.
    destruct (String.eqb key ""); [done|].
    destruct (Str.trims_to_empty key); [done|].
    destruct (directory_of _ w); [|done].
    destruct (stringify json _) as [data|]; [|done].
    destruct (String.eqb data ""); [done|].
    unfold fs.createDir. destruct (existsb _ _); [done|]. simpl.
    unfold fs.writeFile. by repeat case_bool_decide.
Qed.

(** X24: [set] is idempotent: a second call with the same key, value
    and options leaves the world as the first call left it. *)
Theorem set_twice (key : string) (json : Json) (options : WriteOptions)
  (w : World) (d : string) :
  valid_key key →
  directory_of (storage options) w = Some d →
  json ≠ jundefined →
  file_of d key ∉ dirs w →
  can_be_directory (path.normalize d) w →
  (_ ← set key json options; set key json options) w
  = set key json options w.
Proof.
  intros Hkey Hdir Hjson Hnodir Hcan.
  pose proof (directory_of_nonempty _ _ _ Hdir) as Hd.
  destruct (set_stores key json options w d Hkey Hdir Hjson Hcan)
    as (data & Hdata & Hset).
  simpl in Hset. rewrite bool_decide_eq_false_2 in Hset by done.
  unfold mbind at 1, Async_bind. rewrite Hset.
  set (line := list_to_set (fs.lineage (String.length (path.normalize d))
                              (path.normalize d)) : gset string) in *.
  set (w1 := set_files (<[file_of d key := data]> (files w))
               (set_dirs (dirs w ∪ line) w)).
  destruct (set_stores key json options w1 d Hkey Hdir Hjson)
    as (data' & Hdata' & Hset').
  { apply (can_be_directory_insert d key data w w1 Hd eq_refl Hcan). }
  rewrite Hdata in Hdata'. injection Hdata' as <-.
  rewrite Hset'. simpl. fold line.
  rewrite bool_decide_eq_false_2
    by (by apply (not_in_dirs_after d key w w1 Hd eq_refl)).
  unfold w1, set_files, set_dirs. simpl.
  rewrite insert_insert_eq.
  by rewrite <- (assoc_L (∪)), (idemp_L (∪) line).
Qed.

Lemma set_twice_witness :
  (_ ← set "theme" dark write_in_data; set "theme" dark write_in_data) fresh
  = set "theme" dark write_in_data fresh.
Proof.
  apply (set_twice "theme" dark write_in_data fresh "/data").
  - split; [done|reflexivity].
  - reflexivity.
  - done.
  - by vm_compute.
  - intros p Hp. reflexivity.
Defined.
